(** * nlp-architect: data-preparation utilities, verified against the source

    A shallow embedding of the pure and list-mutating parts of

    - [nlp_architect/models/libert/absa_utils.py]
      ([read_examples_from_file], [binarize], [binarize_multi_hot],
      [apply_heads_to_subtokens], [pad_heads],
      [convert_examples_to_features], the entity counts of
      [detailed_metrics], and the dataset names, splits and relation labels
      of [load_config]),
    - [examples/supervised_sentiment/customized_reviews.py]
      ([review_to_sentiment] and the class [Customized_Reviews]),
    - [solutions/set_expansion/prepare_data.py] (the marking loop),
    - [reading_comprehension/tensorflow_implementation/train.py]
      (the restore branch and the epoch loop).

    Python lists of integers are [list Z]; Python list objects that the code
    mutates in place live in an explicit store and are named by their
    address; dictionaries are [gmap string _] and sets [gset _]. *)

From Stdlib Require Import ZArith Lia Bool Ascii String DecimalString.
From Stdlib Require Import Floats.SpecFloat.
From stdpp Require Import base option list strings gmap fin_maps.

Local Open Scope Z_scope.
Local Open Scope nat_scope.

(** ** Python list primitives *)

Module Py.

(** [range(n)], as the integers the comprehension variable runs over. *)
Definition range (n : nat) : list Z := Z.of_nat <$> seq 0 n.

(** [x in l] on a list of ints: some element compares equal. *)
Definition contains (x : Z) (l : list Z) : bool := existsb (Z.eqb x) l.

(** [l.insert(i, x)] for [0 <= i]: an index past the end appends. *)
Definition insert {A} (i : nat) (x : A) (l : list A) : list A :=
  take i l ++ x :: drop i l.

(** [not l] for a list: true exactly on the empty list. *)
Definition is_empty {A} (l : list A) : bool :=
  match l with [] => true | _ :: _ => false end.

(** [range(n - 1, -1, -1)]. *)
Definition range_down (n : nat) : list nat := reverse (seq 0 n).

(** [str(n)] for an int [n], also what [print] and an f-string show of it. *)
Definition str (n : Z) : string := NilEmpty.string_of_int (Z.to_int n).

End Py.

(** ** absa_utils.py: one-hot and multi-hot head matrices *)

Module AbsaUtils.

(** [binarize(preds)]: one row per prediction, of length [len(preds) + 1],
    with a 1 where the column index equals the prediction. *)
Definition binarize (preds : list Z) : list (list Z) :=
  (fun pred => (fun i => if Z.eqb i pred then 1%Z else 0%Z) <$> Py.range (length preds + 1))
    <$> preds.

(** [binarize_multi_hot(heads)]: the comprehension is evaluated first and
    then overridden by the all-ones vector when [head] is empty. *)
Definition binarize_multi_hot (heads : list (list Z)) : list (list Z) :=
  (fun head =>
     let vec := (fun i => if Py.contains i head then 1%Z else 0%Z)
                  <$> Py.range (length heads + 1) in
     if Py.is_empty head then replicate (length heads + 1) 1%Z else vec)
    <$> heads.

(** *** The store of Python list objects

    [apply_heads_to_subtokens] mutates its argument: it inserts rows into the
    outer list and zeros into every row.  Rows are therefore objects in a
    store, named by their address (their position in the store); the outer
    list holds addresses, and two positions of it may hold the same one. *)

Abbreviation loc := nat (only parsing).
Abbreviation store := (list (list Z)) (only parsing).

(** Computations that read and write the store and may raise. *)
Definition M (A : Type) : Type := store -> option (A * store).

#[global] Instance M_ret : MRet M := fun A a σ => Some (a, σ).
#[global] Instance M_bind : MBind M := fun A B f m σ =>
  match m σ with
  | Some (a, σ') => f a σ'
  | None => None
  end.

Definition raise {A} : M A := fun _ => None.

(** [l[i]] for [0 <= i]: IndexError past the end. *)
Definition getitem {A} (l : list A) (i : nat) : M A :=
  match l !! i with
  | Some a => mret a
  | None => raise
  end.

(** Read the list object at an address. *)
Definition deref (r : loc) : M (list Z) := fun σ =>
  match σ !! r with
  | Some row => Some (row, σ)
  | None => None
  end.

(** A new list object. *)
Definition alloc (row : list Z) : M loc := fun σ => Some (length σ, σ ++ [row]).

(** In-place update of the list object at an address. *)
Definition update (r : loc) (f : list Z -> list Z) : M unit := fun σ =>
  match σ !! r with
  | Some row => Some (tt, <[r := f row]> σ)
  | None => None
  end.

(** [for _ in range(k): body]. *)
Fixpoint times (k : nat) (body : M unit) : M unit :=
  match k with
  | 0 => mret tt
  | S k => _ ← body; times k body
  end.

(** [for x in xs: body x], where the body does not change [xs]. *)
Fixpoint for_each {A} (xs : list A) (body : A -> M unit) : M unit :=
  match xs with
  | [] => mret tt
  | x :: xs => _ ← body x; for_each xs body
  end.

(** The values of a list of list objects, read in order. *)
Fixpoint snapshot (rs : list loc) : M (list (list Z)) :=
  match rs with
  | [] => mret []
  | r :: rs => row ← deref r; rows ← snapshot rs; mret (row :: rows)
  end.

(** A list of new list objects, one per given value (what a function that
    builds and returns a nested list hands to its caller). *)
Fixpoint new_lists (rows : list (list Z)) : M (list loc) :=
  match rows with
  | [] => mret []
  | row :: rows => r ← alloc row; rs ← new_lists rows; mret (r :: rs)
  end.

(** *** Two-dimensional numpy arrays *)

Record ndarray (A : Type) := mk_ndarray
  { shape0 : nat; shape1 : nat; data : list (list A) }.
Arguments mk_ndarray {A}.
Arguments shape0 {A}.
Arguments shape1 {A}.
Arguments data {A}.

Definition wf_ndarray {A} (a : ndarray A) : Prop :=
  length (data a) = shape0 a /\ Forall (fun row => length row = shape1 a) (data a).

(** [a[i, j]]. *)
Definition entry {A} (a : ndarray A) (i j : nat) : option A :=
  data a !! i ≫= fun row => row !! j.

(** [np.array(rows)] on a nested list of ints: a 2-D array when the list is
    non-empty and all rows have one length.  A ragged or empty list gives no
    2-D array (numpy raises ValueError for inhomogeneous shapes). *)
Definition np_array (rows : list (list Z)) : option (ndarray Z) :=
  match rows with
  | [] => None
  | row :: _ =>
      if forallb (fun r => Nat.eqb (length r) (length row)) rows
      then Some (mk_ndarray (length rows) (length row) rows)
      else None
  end.

(** *** apply_heads_to_subtokens *)

(** The inner loop of the first nest, [k] iterations for word [i]: each one
    reads [heads[i]], makes a new row from it and inserts it at [i + 1]. *)
Fixpoint insert_sub_token_rows (zero_sub_tokens : bool) (i k : nat)
    (heads : list loc) : M (list loc) :=
  match k with
  | 0 => mret heads
  | S k =>
      r ← getitem heads i;
      row ← deref r;
      sub_token_row ← alloc (if zero_sub_tokens then (fun _ => 0%Z) <$> row else row);
      insert_sub_token_rows zero_sub_tokens i k (Py.insert (i + 1) sub_token_row heads)
  end.

(** The first nest, over the word indices [idxs] (downwards in the source).
    [range(1, len(sub_tokens[i]))] has [len(sub_tokens[i]) - 1] elements,
    none when the subtoken list is empty. *)
Fixpoint expand_rows (zero_sub_tokens : bool) (sub_tokens : list (list string))
    (idxs : list nat) (heads : list loc) : M (list loc) :=
  match idxs with
  | [] => mret heads
  | i :: idxs =>
      sub ← getitem sub_tokens i;
      heads ← insert_sub_token_rows zero_sub_tokens i (length sub - 1) heads;
      expand_rows zero_sub_tokens sub_tokens idxs heads
  end.

(** The body of [for row in heads] in the second nest: [row.insert(i + 2, 0)],
    [len(sub_tokens[i]) - 1] times for each word index. *)
Fixpoint insert_zero_columns (sub_tokens : list (list string)) (idxs : list nat)
    (row : loc) : M unit :=
  match idxs with
  | [] => mret tt
  | i :: idxs =>
      sub ← getitem sub_tokens i;
      _ ← times (length sub - 1) (update row (Py.insert (i + 2) 0%Z));
      insert_zero_columns sub_tokens idxs row
  end.

(** The whole function up to [np.array]: returns the final contents of the
    caller's list [heads] (the outer list is the caller's object, so this is
    what the caller sees afterwards) and the nested list given to [np.array]. *)
Definition apply_heads_to_subtokens_lists (heads : list loc)
    (sub_tokens : list (list string)) (zero_sub_tokens : bool)
    : M (list loc * list (list Z)) :=
  heads ← expand_rows zero_sub_tokens sub_tokens
            (Py.range_down (length sub_tokens)) heads;
  _ ← for_each heads
        (insert_zero_columns sub_tokens (Py.range_down (length sub_tokens)));
  cls ← alloc (replicate (length heads + 1) 0%Z);
  let heads := Py.insert 0 cls heads in
  rows ← snapshot heads;
  mret (heads, rows).

Definition apply_heads_to_subtokens (heads : list loc)
    (sub_tokens : list (list string)) (zero_sub_tokens : bool)
    : M (list loc * ndarray Z) :=
  '(heads, rows) ← apply_heads_to_subtokens_lists heads sub_tokens zero_sub_tokens;
  match np_array rows with
  | Some a => mret (heads, a)
  | None => raise
  end.

(** *** pad_heads *)

(** The entries of a float array are binary64 values; an integer stored into
    one is converted by rounding to nearest even. *)
Definition float_of_int (x : Z) : spec_float := binary_normalize 53 1024 x 0 false.

(** [np.zeros((r, c), float)]. *)
Definition np_zeros (r c : nat) : ndarray spec_float :=
  mk_ndarray r c (replicate r (replicate c (S754_zero false))).

(** [a[:r, :c]]: slice bounds past the end are clipped. *)
Definition slice2 {A} (a : ndarray A) (r c : nat) : ndarray A :=
  mk_ndarray (r `min` shape0 a) (c `min` shape1 a) (take c <$> take r (data a)).

(** [target[:r, :c] = src] for a [src] of exactly the shape of the target
    slice.  Any other shape (which numpy would broadcast or reject) is
    outside this model. *)
Definition assign_slice2 (target : ndarray spec_float) (r c : nat)
    (src : ndarray Z) : option (ndarray spec_float) :=
  let r' := r `min` shape0 target in
  let c' := c `min` shape1 target in
  if (shape0 src =? r') && (shape1 src =? c') then
    Some (mk_ndarray (shape0 target) (shape1 target)
            (zip_with (fun trow srow => (float_of_int <$> srow) ++ drop c' trow)
                      (take r' (data target)) (data src)
             ++ drop r' (data target)))
  else None.

Definition pad_heads (a : ndarray Z) : option (ndarray spec_float) :=
  let target := np_zeros 64 64 in
  assign_slice2 target (shape0 a) (shape1 a) (slice2 a 64 64).

(** *** convert_examples_to_features, up to the shape assertion *)

Record InputExample := mk_InputExample
  { guid : string;
    words : list string;
    labels : list string;
    heads : list (list Z);
    head_words : list (list string);
    pos_tags : list string;
    sub_toks : list (list string) }.

(** [{label: i for i, label in enumerate(label_list)}]: a label that occurs
    twice keeps its last index. *)
Definition make_label_map (label_list : list string) : gmap string Z :=
  foldl (fun m p => <[p.2 := Z.of_nat p.1]> m) ∅ (imap pair label_list).

Section Features.
(** [tokenizer.tokenize] and [CrossEntropyLoss().ignore_index] belong to
    the frameworks; they are parameters here. *)
Variable tokenize : string -> list string.
Variable pad_token_label_id : Z.
Variable label_map : gmap string Z.

(** The locals [tokens, label_ids, heads, sub_toks] of the example loop. *)
Definition word_state : Type :=
  list string * list Z * list (list Z) * list (list string).

(** One iteration of the loop over
    [zip(ex.words, ex.labels, ex.heads, ex.pos_tags, ex.sub_toks)];
    [label_map[label]] raises KeyError for an unknown label. *)
Definition word_step (acc : word_state)
    (item : string * string * list Z * string * list string)
    : option word_state :=
  let '(tokens, label_ids, heads, sub_toks) := acc in
  let '(word, label, head, _, sub_tok) := item in
  let heads := heads ++ [head] in
  let sub_toks := sub_toks ++ [sub_tok] in
  let word_tokens := tokenize word in
  if 0 <? length word_tokens then
    label_id ← label_map !! label;
    Some (tokens ++ word_tokens,
          label_ids ++ label_id ::
            replicate (length word_tokens - 1) pad_token_label_id,
          heads, sub_toks)
  else Some (tokens, label_ids, heads, sub_toks).

Fixpoint word_loop (acc : word_state)
    (items : list (string * string * list Z * string * list string))
    : option word_state :=
  match items with
  | [] => Some acc
  | item :: items => acc ← word_step acc item; word_loop acc items
  end.

(** [zip] of the five fields stops at the shortest. *)
Definition example_items (ex : InputExample)
    : list (string * string * list Z * string * list string) :=
  zip (zip (zip (zip (words ex) (labels ex)) (heads ex)) (pos_tags ex))
      (sub_toks ex).

(** The body of the example loop down to the line before the assertion:
    the tokens, the label ids and [binary_heads]. *)
Definition features_prefix (ex : InputExample)
    : M (list string * list Z * ndarray Z) :=
  match word_loop ([], [], [], []) (example_items ex) with
  | None => raise
  | Some (tokens, label_ids, heads, sub_toks) =>
      rows ← new_lists (binarize_multi_hot heads);
      '(_, binary_heads) ← apply_heads_to_subtokens rows sub_toks false;
      mret (tokens, label_ids, binary_heads)
  end.

(** [binary_heads.shape[0] == binary_heads.shape[1] == len(tokens) + 1]. *)
Definition shape_assertion (tokens : list string) (binary_heads : ndarray Z)
    : bool :=
  (shape0 binary_heads =? shape1 binary_heads)
  && (shape1 binary_heads =? length tokens + 1).
End Features.

End AbsaUtils.

(** ** apply_heads_to_subtokens on values

    What [apply_heads_to_subtokens] computes when no two positions of
    [heads] hold the same list object: the same loops, on the rows' values.
    The theorems below relate it to the store version. *)

Module AbsaValues.

Fixpoint insert_sub_token_rows (zero_sub_tokens : bool) (i k : nat)
    (heads : list (list Z)) : option (list (list Z)) :=
  match k with
  | 0 => Some heads
  | S k =>
      row ← heads !! i;
      let sub_token_row := if zero_sub_tokens then (fun _ => 0%Z) <$> row else row in
      insert_sub_token_rows zero_sub_tokens i k (Py.insert (i + 1) sub_token_row heads)
  end.

Fixpoint expand_rows (zero_sub_tokens : bool) (sub_tokens : list (list string))
    (idxs : list nat) (heads : list (list Z)) : option (list (list Z)) :=
  match idxs with
  | [] => Some heads
  | i :: idxs =>
      sub ← sub_tokens !! i;
      heads ← insert_sub_token_rows zero_sub_tokens i (length sub - 1) heads;
      expand_rows zero_sub_tokens sub_tokens idxs heads
  end.

Fixpoint insert_zero_columns (sub_tokens : list (list string)) (idxs : list nat)
    (row : list Z) : option (list Z) :=
  match idxs with
  | [] => Some row
  | i :: idxs =>
      sub ← sub_tokens !! i;
      insert_zero_columns sub_tokens idxs
        (Nat.iter (length sub - 1) (Py.insert (i + 2) 0%Z) row)
  end.

Definition apply_heads_to_subtokens (heads : list (list Z))
    (sub_tokens : list (list string)) (zero_sub_tokens : bool)
    : option (list (list Z)) :=
  heads ← expand_rows zero_sub_tokens sub_tokens
            (Py.range_down (length sub_tokens)) heads;
  heads ← mapM (insert_zero_columns sub_tokens (Py.range_down (length sub_tokens)))
            heads;
  Some (replicate (length heads + 1) 0%Z :: heads).

End AbsaValues.

(** ** The head matrix on subtoken positions, as the specification words it *)

Module AbsaSpec.

(** Total number of subtokens. *)
Definition total_sub_tokens (sub_tokens : list (list string)) : nat :=
  sum_list (length <$> sub_tokens).

(** A row of the word-level matrix, column 0 being the [CLS] (ROOT) column
    and column [j + 1] that of word [j]: each word column is followed by one
    zero column per non-first subtoken of the word. *)
Definition widen_row (sub_tokens : list (list string)) (row : list Z) : list Z :=
  match row with
  | [] => []
  | cls :: words =>
      cls :: concat (zip_with (fun w sub => w :: replicate (length sub - 1) 0%Z)
                              words sub_tokens)
  end.

(** The rows of word [i] before the columns are widened: its own row for the
    first subtoken, and for each non-first subtoken a copy of it (a zero row
    when [zero_sub_tokens]). *)
Definition sub_token_rows (zero_sub_tokens : bool) (row : list Z)
    (sub : list string) : list (list Z) :=
  row :: replicate (length sub - 1)
           (if zero_sub_tokens then (fun _ => 0%Z) <$> row else row).

Definition word_rows (zero_sub_tokens : bool) (sub_tokens : list (list string))
    (row : list Z) (sub : list string) : list (list Z) :=
  widen_row sub_tokens <$> sub_token_rows zero_sub_tokens row sub.

(** The whole matrix: a zero row for [CLS], then the rows of each word. *)
Definition subtoken_heads (zero_sub_tokens : bool) (heads : list (list Z))
    (sub_tokens : list (list string)) : list (list Z) :=
  replicate (total_sub_tokens sub_tokens + 1) 0%Z ::
  concat (zip_with (word_rows zero_sub_tokens sub_tokens) heads sub_tokens).

(** For one item of the example loop of [convert_examples_to_features]: the
    tokenizer splits the word into exactly the subtokens listed for it, and
    there is at least one. *)
Definition item_split (tokenize : string -> list string)
    (item : string * string * list Z * string * list string) : Prop :=
  let '(word, _, _, _, sub_tok) := item in
  tokenize word = sub_tok /\ sub_tok ≠ [].

(** The item's label is a key of the label map. *)
Definition label_known (label_map : gmap string Z)
    (item : string * string * list Z * string * list string) : Prop :=
  let '(_, label, _, _, _) := item in
  is_Some (label_map !! label).

End AbsaSpec.

(** ** Relating the store to values *)

Module AbsaSim.

(** The addresses [hs] are pairwise distinct and the store holds the rows
    [H] at them, in order. *)
Definition distinct_rows (σ : AbsaUtils.store) (hs : list AbsaUtils.loc)
    (H : list (list Z)) : Prop :=
  NoDup hs /\ Forall2 (fun r row => σ !! r = Some row) hs H.

(** Outcomes of a store computation and of a computation on values agree:
    both raise, or both return and the results are related. *)
Definition agree {A B} (R : A -> AbsaUtils.store -> B -> Prop)
    (m : option (A * AbsaUtils.store)) (p : option B) : Prop :=
  match m, p with
  | Some (a, σ), Some b => R a σ b
  | None, None => True
  | _, _ => False
  end.

End AbsaSim.

(** ** customized_reviews.py *)

Module Sentiment.

Section Review.
(** [normalize] comes from [nlp_architect.utils.generic]; [float] is the
    builtin that parses the score text (ValueError on text that is no
    number).  Both are parameters. *)
Variable normalize : string -> string.
Variable float : string -> option spec_float.

(** The int [0] the score is compared with, as a float. *)
Definition zero : spec_float := S754_zero false.

(** [review_to_sentiment(review)] on a CSV row: [review[1]] is the text,
    [review[0]] the score. *)
Definition review_to_sentiment (review : list string) : option (list string) :=
  text ← review !! 1;
  let norm_text := normalize text in
  let review_sent := ["neutral"; norm_text]%string in
  score_text ← review !! 0;
  score ← float score_text;
  if SFltb zero score then Some ["positive"; norm_text]%string
  else if SFltb score zero then Some ["negative"; norm_text]%string
  else Some review_sent.
End Review.

End Sentiment.

(** ** prepare_data.py: marking noun phrases in a corpus *)

Module PrepareData.

(** *** Strings *)

(** Whitespace for [str.strip()], among the code points below 256. *)
Definition is_space (c : ascii) : bool :=
  let n := nat_of_ascii c in
  ((9 <=? n) && (n <=? 13)) || ((28 <=? n) && (n <=? 32)) || (n =? 133) || (n =? 160).

Fixpoint lstrip (s : list ascii) : list ascii :=
  match s with
  | [] => []
  | c :: s' => if is_space c then lstrip s' else s
  end.

(** [s.strip()]. *)
Definition strip (s : string) : string :=
  string_of_list_ascii
    (reverse (lstrip (reverse (lstrip (list_ascii_of_string s))))).

(** [len(s.strip()) > 0]. *)
Definition not_blank (s : string) : bool := 0 <? String.length (strip s).

(** [s.replace(' ', new)]. *)
Fixpoint replace_space (new : string) (s : string) : string :=
  match s with
  | EmptyString => EmptyString
  | String c s' =>
      if Ascii.eqb c " " then new +:+ replace_space new s'
      else String c (replace_space new s')
  end.

(** *** What the script reads of a spaCy document *)

(** A token: [token.idx] (character offset in the document) and
    [token.text]. *)
Record Token := mk_Token { token_idx : nat; token_text : string }.

(** A noun chunk: [span.start_char], [span.end_char], [span.text] and
    [span.lemma_]. *)
Record Span := mk_Span
  { start_char : nat; end_char : nat; span_text : string; lemma_ : string }.

(** A document: its tokens ([for token in doc]) and [doc.noun_chunks]. *)
Record Doc := mk_Doc { tokens : list Token; noun_chunks : list Span }.

(** *** The module-level dictionaries *)

Record dicts := mk_dicts
  { np2id : gmap string string;
    id2group : gmap string (list string);
    id2rep : gmap string string;
    np2count : gmap string nat }.

Definition empty_dicts : dicts := mk_dicts ∅ ∅ ∅ ∅.

Section Marking.
(** [spacy_normalizer] comes from [nlp_architect.utils.text_preprocess];
    [mark_char] is [args.mark_char]. *)
Variable spacy_normalizer : string -> string -> string.
Variable mark_char : string.

(** The dictionary update for a noun phrase [np] with lemma [lemma]
    (the block under [if not spanWritten], up to the [# mark NP's] comment).
    A missing key raises KeyError. *)
Definition note_span (np lemma : string) (d : dicts) : option dicts :=
  let np2count1 :=
    match np2count d !! np with
    | None => <[np := 1]> (np2count d)
    | Some c => <[np := c + 1]> (np2count d)
    end in
  let norm := spacy_normalizer np lemma in
  let np2id1 := <[np := norm]> (np2id d) in
  let id2rep1 :=
    match id2rep d !! norm with
    | None => <[norm := np]> (id2rep d)
    | Some _ => id2rep d
    end in
  match id2group d !! norm with
  | Some group =>
      if bool_decide (np ∉ group) then
        Some (mk_dicts np2id1 (<[norm := group ++ [np]]> (id2group d)) id2rep1 np2count1)
      else
        count_np ← np2count1 !! np;
        rep ← id2rep1 !! norm;
        count_rep ← np2count1 !! rep;
        if count_rep <? count_np then
          Some (mk_dicts np2id1 (id2group d) (<[norm := np]> id2rep1) np2count1)
        else Some (mk_dicts np2id1 (id2group d) id2rep1 np2count1)
  | None =>
      Some (mk_dicts np2id1 (<[norm := [np]]> (id2group d))
              (<[norm := np]> id2rep1) np2count1)
  end.

(** The text written for a span once the dictionaries are updated:
    [id2rep[norm].replace(' ', mark_char) + mark_char], then [+ ' ']. *)
Definition marked_text (np lemma : string) (d : dicts) : option string :=
  rep ← id2rep d !! spacy_normalizer np lemma;
  Some (replace_space mark_char rep +:+ mark_char +:+ " ").

(** *** The loop over the tokens of a document *)

(** The locals [span], [spans], [spanWritten], the dictionaries and the
    strings written to the marked corpus so far, in order. *)
Record loop_state := mk_loop_state
  { span : option Span;
    spans : list Span;
    spanWritten : bool;
    dict : dicts;
    written : list string }.

(** [if len(spans) > 0: span = spans.pop(0) else: span = None]. *)
Definition next_span (ss : list Span) : option Span * list Span :=
  match ss with
  | s :: ss' => (Some s, ss')
  | [] => (None, [])
  end.

(** [if len(token.text.strip()) > 0: marked_corpus_file.write(token.text + ' ')]. *)
Definition write_token (token : Token) (out : list string) : list string :=
  if not_blank (token_text token) then out ++ [token_text token +:+ " "] else out.

(** The body of [for token in doc]. *)
Definition token_step (st : loop_state) (token : Token) : option loop_state :=
  match span st with
  | None =>
      Some (mk_loop_state None (spans st) (spanWritten st) (dict st)
              (write_token token (written st)))
  | Some sp =>
      if (token_idx token <? start_char sp) || (end_char sp <=? token_idx token)
      then
        Some (mk_loop_state (Some sp) (spans st) (spanWritten st) (dict st)
                (write_token token (written st)))
      else
        '(d, out, flag) ←
          (if negb (spanWritten st) then
             d ← note_span (span_text sp) (lemma_ sp) (dict st);
             text ← marked_text (span_text sp) (lemma_ sp) d;
             Some (d, written st ++ [text], true)
           else Some (dict st, written st, spanWritten st));
        if token_idx token + String.length (token_text token) =? end_char sp then
          let '(sp', ss') := next_span (spans st) in
          Some (mk_loop_state sp' ss' false d out)
        else Some (mk_loop_state (Some sp) (spans st) flag d out)
  end.

Fixpoint token_loop (st : loop_state) (ts : list Token) : option loop_state :=
  match ts with
  | [] => Some st
  | token :: ts => st ← token_step st token; token_loop st ts
  end.

(** The body of [for doc in nlp.pipe(corpus_file)]: returns the
    dictionaries and the strings written, the last being the newline. *)
Definition mark_doc (doc : Doc) (d : dicts) (out : list string)
    : option (dicts * list string) :=
  let '(sp, ss) := next_span (noun_chunks doc) in
  st ← token_loop (mk_loop_state sp ss false d out) (tokens doc);
  Some (dict st, written st ++ [String "010" EmptyString]).

(** The whole loop, from the dictionaries as they are. *)
Fixpoint mark_docs (docs : list Doc) (d : dicts) (out : list string)
    : option (dicts * list string) :=
  match docs with
  | [] => Some (d, out)
  | doc :: docs => '(d, out) ← mark_doc doc d out; mark_docs docs d out
  end.

(** A run of the script: the dictionaries start empty. *)
Definition main (docs : list Doc) : option (dicts * list string) :=
  mark_docs docs empty_dicts [].
End Marking.

End PrepareData.

(** ** prepare_data.py: invariants and the expected output *)

Module PrepareSpec.
Import PrepareData.

(** [id2group] and [id2rep] have the same keys, and the representative of a
    key is a member of its group. *)
Definition groups_inv (d : dicts) : Prop :=
  dom (id2group d) = dom (id2rep d) /\
  forall norm rep, id2rep d !! norm = Some rep ->
    exists group, id2group d !! norm = Some group /\ rep ∈ group.

(** Every member of a group has been counted. *)
Definition counted (d : dicts) : Prop :=
  forall norm group np,
    id2group d !! norm = Some group -> np ∈ group -> is_Some (np2count d !! np).

Definition dict_inv (d : dicts) : Prop := groups_inv d /\ counted d.

(** The dictionaries after the noun phrases [nps] (text and lemma of each)
    have been noted, one after the other. *)
Fixpoint note_spans (spacy_normalizer : string -> string -> string)
    (nps : list (string * string)) (d : dicts) : option dicts :=
  match nps with
  | [] => Some d
  | (np, lemma) :: nps =>
      d ← note_span spacy_normalizer np lemma d;
      note_spans spacy_normalizer nps d
  end.

(** *** Documents as spaCy lays them out

    The noun chunks of a document are disjoint runs of consecutive tokens,
    in document order.  A document is therefore a sequence of segments: a
    token outside all noun chunks, or a noun chunk with its text, its lemma
    and its tokens (at least one). *)
Inductive segment :=
  | Outside (token : Token)
  | Chunk (np lemma : string) (first : Token) (more : list Token).

Definition token_end (t : Token) : nat :=
  token_idx t + String.length (token_text t).

Definition segment_tokens (seg : segment) : list Token :=
  match seg with
  | Outside t => [t]
  | Chunk _ _ t ts => t :: ts
  end.

(** The span of a chunk runs from the offset of its first token to the end
    of its last. *)
Definition segment_span (seg : segment) : option Span :=
  match seg with
  | Outside _ => None
  | Chunk np lemma t ts =>
      Some (mk_Span (token_idx t) (token_end (List.last ts t)) np lemma)
  end.

Definition doc_of (segs : list segment) : Doc :=
  mk_Doc (segs ≫= segment_tokens) (omap segment_span segs).

(** Tokens are non-empty and follow each other without overlap, from the
    offset [bound] on. *)
Fixpoint in_order (bound : nat) (ts : list Token) : Prop :=
  match ts with
  | [] => True
  | t :: ts =>
      bound <= token_idx t /\ 0 < String.length (token_text t) /\
      in_order (token_end t) ts
  end.

Section Expected.
Variable spacy_normalizer : string -> string -> string.
Variable mark_char : string.

(** What a segment contributes to the marked corpus: a token outside all
    noun chunks is written followed by a space unless it is blank; a noun
    chunk is written once, as the representative of its group with spaces
    replaced by the mark character, the mark character appended, and a
    space. *)
Definition segment_writes (seg : segment) (d : dicts)
    : option (dicts * list string) :=
  match seg with
  | Outside t =>
      Some (d, if not_blank (token_text t) then [token_text t +:+ " "] else [])
  | Chunk np lemma _ _ =>
      d' ← note_span spacy_normalizer np lemma d;
      text ← marked_text spacy_normalizer mark_char np lemma d';
      Some (d', [text])
  end.

(** The segments' contributions, in document order. *)
Fixpoint expected_writes (segs : list segment) (d : dicts)
    : option (dicts * list string) :=
  match segs with
  | [] => Some (d, [])
  | seg :: segs =>
      '(d, ws) ← segment_writes seg d;
      '(d, ws') ← expected_writes segs d;
      Some (d, ws ++ ws')
  end.
(** The expected marked corpus: each document's writes and a newline. *)
Fixpoint expected_corpus (docs : list (list segment)) (d : dicts)
    : option (dicts * list string) :=
  match docs with
  | [] => Some (d, [])
  | segs :: docs =>
      '(d, ws) ← expected_writes segs d;
      '(d, ws') ← expected_corpus docs d;
      Some (d, ws ++ [String "010" EmptyString] ++ ws')
  end.
End Expected.

End PrepareSpec.

(** ** train.py: restoring a checkpoint and the epoch loop *)

Module Train.

(** Where the variables of the session come from. *)
Inductive origin :=
  | Restored (checkpoint : string)
  | Initialized.

(** What the script's tail acts on: the session's variables (none before
    [restore] or [run(init)]), the training and validation passes run so far
    (each with the origin of the variables it ran on), the checkpoints
    saved, the directories made and the lines printed. *)
Record world := mk_world
  { variables : option origin;
    trained : list origin;
    validated : list origin;
    saved : list string;
    made_dirs : list string;
    printed : list string }.

(** A process that has just built the graph: nothing has run yet. *)
Definition start_world : world := mk_world None [] [] [] [] [].

Definition T (A : Type) : Type := world -> option (A * world).

#[global] Instance T_ret : MRet T := fun A a w => Some (a, w).
#[global] Instance T_bind : MBind T := fun A B f m w =>
  match m w with
  | Some (a, w') => f a w'
  | None => None
  end.

Definition print (line : string) : T unit := fun w =>
  Some (tt, mk_world (variables w) (trained w) (validated w) (saved w)
              (made_dirs w) (printed w ++ [line])).

(** [os.makedirs(path)]. *)
Definition makedirs (path : string) : T unit := fun w =>
  Some (tt, mk_world (variables w) (trained w) (validated w) (saved w)
              (made_dirs w ++ [path]) (printed w)).

(** [model_saver.restore(sess, path)]. *)
Definition restore (path : string) : T unit := fun w =>
  Some (tt, mk_world (Some (Restored path)) (trained w) (validated w) (saved w)
              (made_dirs w) (printed w)).

(** [sess.run(init)]. *)
Definition run_init : T unit := fun w =>
  Some (tt, mk_world (Some Initialized) (trained w) (validated w) (saved w)
              (made_dirs w) (printed w)).

(** [model.run_loop(sess, train_dict, mode='train', ...)]: fails on a
    session whose variables were never set. *)
Definition run_loop_train : T unit := fun w =>
  match variables w with
  | Some o =>
      Some (tt, mk_world (variables w) (trained w ++ [o]) (validated w) (saved w)
                  (made_dirs w) (printed w))
  | None => None
  end.

(** [model.run_loop(sess, dev_dict, mode='val', ...)]. *)
Definition run_loop_val : T unit := fun w =>
  match variables w with
  | Some o =>
      Some (tt, mk_world (variables w) (trained w) (validated w ++ [o]) (saved w)
                  (made_dirs w) (printed w))
  | None => None
  end.

(** [model_saver.save(sess, path)]. *)
Definition save (path : string) : T unit := fun w =>
  match variables w with
  | Some _ =>
      Some (tt, mk_world (variables w) (trained w) (validated w) (saved w ++ [path])
                  (made_dirs w) (printed w))
  | None => None
  end.

(** [for x in xs: body x]. *)
Fixpoint for_each {A} (xs : list A) (body : A -> T unit) : T unit :=
  match xs with
  | [] => mret tt
  | x :: xs => _ ← body x; for_each xs body
  end.

(** [range(n)] for an int [n]: empty when [n <= 0]. *)
Definition range (n : Z) : list Z := Z.of_nat <$> seq 0 (Z.to_nat n).

Section Script.
(** [model_dir] is a name the script uses without defining it (it can only
    come from [from utils import *]); [restore_training] and [epoch_no] are
    [args.restore_training] and [params_dict['epoch_no']]; the three
    functions read the file system. *)
Variable model_dir : string.
Variable restore_training : bool.
Variable epoch_no : Z.
Variable path_exists : string -> bool.
Variable get_checkpoint_state : string -> option string.
Variable gfile_exists : string -> bool.

(** One iteration of [for epoch in range(params_dict['epoch_no'])];
    [shuffle(train)] and [create_data_dict] act on data only.  [print] with
    two arguments puts a space between them; the third line printed starts
    with a newline of its own. *)
Definition epoch_body (train_dir : string) (epoch : Z) : T unit :=
  _ ← print ("Epoch Number is " +:+ " " +:+ Py.str epoch);
  _ ← run_loop_train;
  _ ← print "Saving Weights";
  _ ← save (train_dir +:+ "/best_model.chk");
  _ ← print (String "010" "Running Validation Test");
  run_loop_val.

(** The body of [with tf.Session(...) as sess:]. *)
Definition session_body : T unit :=
  _ ← (if negb (path_exists "trained_model") then makedirs "trained_model"
       else mret tt);
  let train_dir := model_dir in
  let ckpt := get_checkpoint_state train_dir in
  let v2_path :=
    match ckpt with
    | Some model_checkpoint_path => model_checkpoint_path +:+ ".index"
    | None => ""
    end in
  (* [if ckpt and args.restore_training and (tf.gfile.Exists(...) or ...)] *)
  _ ← match ckpt with
      | Some model_checkpoint_path =>
          if restore_training
             && (gfile_exists model_checkpoint_path || gfile_exists v2_path)
          then
            _ ← restore model_checkpoint_path;
            print "Loading from previously stored session"
          else run_init
      | None => run_init
      end;
  _ ← print "Begin Training";
  for_each (range epoch_no) (epoch_body train_dir).
End Script.

End Train.

(** ** absa_utils.py: convert_examples_to_features, the whole loop body *)

Module AbsaFeatures.
Import AbsaUtils.

(** [l[:k]] for an int [k]: a negative bound counts from the end. *)
Definition slice_to {A} (k : Z) (l : list A) : list A :=
  if (0 <=? k)%Z then take (Z.to_nat k) l
  else take (Z.to_nat (Z.of_nat (length l) + k)) l.

(** [[x] * n] for an int [n]: empty when [n <= 0]. *)
Definition repeat {A} (x : A) (n : Z) : list A := replicate (Z.to_nat n) x.

(** [assert cond]. *)
Definition assert (cond : bool) : M unit := if cond then mret tt else raise.

Record InputFeatures := mk_InputFeatures
  { input_ids : list Z;
    attention_mask : list Z;
    token_type_ids : list Z;
    label_ids : list Z;
    dep_heads : ndarray spec_float }.

Section Convert.
(** The tokenizer's methods and attributes ([tokenize],
    [convert_tokens_to_ids], [cls_token], [sep_token], [pad_token_id],
    [pad_token_type_id], [num_special_tokens_to_add()]) and
    [CrossEntropyLoss().ignore_index] belong to the frameworks. *)
Variable tokenize : string -> list string.
Variable convert_tokens_to_ids : list string -> list Z.
Variable cls_token sep_token : string.
Variable pad_token : Z.
Variable pad_token_segment_id : Z.
Variable special_tokens_count : Z.
Variable pad_token_label_id : Z.
Variable label_list : list string.
Variable max_seq_length : Z.

Definition cls_token_segment_id : Z := 0.

(** [assert cond] in code that touches no list object. *)
Definition check (cond : bool) : option unit := if cond then Some tt else None.

(** The body of [for (ex_index, ex) in enumerate(examples)] from
    [# Account for [CLS] and [SEP]] on, without the logging: truncation, the
    special tokens, padding and the four length assertions. *)
Definition truncate_and_pad (tokens : list string) (label_ids : list Z)
    (padded_heads : ndarray spec_float) : option InputFeatures :=
  let too_long :=
    (max_seq_length - special_tokens_count <? Z.of_nat (length tokens))%Z in
  let tokens :=
    if too_long then slice_to (max_seq_length - special_tokens_count) tokens
    else tokens in
  let label_ids :=
    if too_long then slice_to (max_seq_length - special_tokens_count) label_ids
    else label_ids in
  let tokens := tokens ++ [sep_token] in
  let label_ids := label_ids ++ [pad_token_label_id] in
  let segment_ids := replicate (length tokens) cls_token_segment_id in
  let tokens := cls_token :: tokens in
  let label_ids := pad_token_label_id :: label_ids in
  let segment_ids := cls_token_segment_id :: segment_ids in
  let input_ids := convert_tokens_to_ids tokens in
  let input_mask := replicate (length input_ids) 1%Z in
  let padding_length := (max_seq_length - Z.of_nat (length input_ids))%Z in
  let input_ids := input_ids ++ repeat pad_token padding_length in
  let input_mask := input_mask ++ repeat 0%Z padding_length in
  let segment_ids := segment_ids ++ repeat pad_token_segment_id padding_length in
  let label_ids := label_ids ++ repeat pad_token_label_id padding_length in
  _ ← check (Z.of_nat (length input_ids) =? max_seq_length)%Z;
  _ ← check (Z.of_nat (length input_mask) =? max_seq_length)%Z;
  _ ← check (Z.of_nat (length segment_ids) =? max_seq_length)%Z;
  _ ← check (Z.of_nat (length label_ids) =? max_seq_length)%Z;
  Some (mk_InputFeatures input_ids input_mask segment_ids label_ids padded_heads).

(** The whole body of the loop over the examples.  [pad_heads] is defined on
    the arrays whose slice has the shape of the target's; the arrays that
    pass the assertion are such. *)
Definition example_features (ex : InputExample) : M InputFeatures :=
  '(tokens, label_ids, binary_heads) ←
    features_prefix tokenize pad_token_label_id (make_label_map label_list) ex;
  _ ← assert (shape_assertion tokens binary_heads);
  match pad_heads binary_heads with
  | Some padded_heads =>
      match truncate_and_pad tokens label_ids padded_heads with
      | Some input_features => mret input_features
      | None => raise
      end
  | None => raise
  end.

(** The loop over the examples: one feature record per example, in order. *)
Fixpoint convert_examples_to_features (examples : list InputExample)
    : M (list InputFeatures) :=
  match examples with
  | [] => mret []
  | ex :: examples =>
      input_features ← example_features ex;
      features ← convert_examples_to_features examples;
      mret (input_features :: features)
  end.
End Convert.

End AbsaFeatures.

(** ** What convert_examples_to_features computes, in closed form *)

Module AbsaFeaturesSpec.
Import AbsaUtils.

Abbreviation item := (string * string * list Z * string * list string)%type
  (only parsing).

Section Spec.
Variable tokenize : string -> list string.
Variable pad_token_label_id : Z.
Variable label_map : gmap string Z.

(** The word pieces of the words, in order. *)
Definition item_tokens (it : item) : list string :=
  let '(word, _, _, _, _) := it in tokenize word.

Definition example_tokens (items : list item) : list string :=
  items ≫= item_tokens.

(** The label ids of a word: its label's id for the first piece, the
    padding label for the others. *)
Definition item_label_ids (it : item) : option (list Z) :=
  let '(word, label, _, _, _) := it in
  match tokenize word with
  | [] => Some []
  | _ :: rest =>
      label_id ← label_map !! label;
      Some (label_id :: replicate (length rest) pad_token_label_id)
  end.

Definition example_label_ids (items : list item) : option (list Z) :=
  ids ← mapM item_label_ids items; Some (concat ids).

(** The rows a word takes in the head matrix: one per listed subtoken, and
    one for a word with no subtoken listed. *)
Definition item_rows (it : item) : nat :=
  let '(_, _, _, _, sub_tok) := it in length sub_tok `max` 1.

Definition example_rows (items : list item) : nat :=
  sum_list (item_rows <$> items).
End Spec.

(** The label of a word must be in the label list when the tokenizer
    returns at least one piece for the word. *)
Definition label_listed (tokenize : string -> list string)
    (label_list : list string) (it : item) : Prop :=
  let '(word, label, _, _, _) := it in
  tokenize word ≠ [] -> label ∈ label_list.

(** How many word pieces are kept: all [n] of them, or the first
    [max_seq_length - special_tokens_count]. *)
Definition kept_tokens (max_seq_length special_tokens_count : Z) (n : nat) : nat :=
  Z.to_nat (Z.min (Z.of_nat n) (max_seq_length - special_tokens_count)).

(** An example that [convert_examples_to_features] gets through: the labels
    it looks up are listed, the tokenizer returns as many word pieces as the
    head matrix has rows for the words, and the kept pieces leave room for
    [CLS] and [SEP]. *)
Definition convertible (tokenize : string -> list string)
    (label_list : list string) (max_seq_length special_tokens_count : Z)
    (ex : InputExample) : Prop :=
  Forall (label_listed tokenize label_list) (example_items ex) /\
  length (example_tokens tokenize (example_items ex))
  = example_rows (example_items ex) /\
  (Z.of_nat (kept_tokens max_seq_length special_tokens_count
               (length (example_tokens tokenize (example_items ex)))) + 2
   <= max_seq_length)%Z.

(** The number of rows of the head matrix below the [CLS] row. *)
Definition row_count (sub_tokens : list (list string)) : nat :=
  sum_list ((fun sub => length sub `max` 1) <$> sub_tokens).

End AbsaFeaturesSpec.

(** ** prepare_data.py: what the dictionaries record *)

Module PrepareIndex.
Import PrepareData PrepareSpec.

(** [np2id] and [np2count] have the same keys; a phrase with an id is a
    member of the group of that id; no group lists a phrase twice, and every
    member of a group has an id. *)
Definition index_inv (d : dicts) : Prop :=
  dom (np2id d) = dom (np2count d) /\
  (forall np norm, np2id d !! np = Some norm ->
     exists group, id2group d !! norm = Some group /\ np ∈ group) /\
  (forall norm group, id2group d !! norm = Some group ->
     NoDup group /\ forall np, np ∈ group -> is_Some (np2id d !! np)).

(** The noun chunks of all documents. *)
Definition corpus_chunks (docs : list Doc) : list Span := docs ≫= noun_chunks.

(** The normalization of a chunk is determined by its text: it is [f] of
    the text, whatever the lemma. *)
Definition normalized_by (spacy_normalizer : string -> string -> string)
    (f : string -> string) (sp : Span) : Prop :=
  spacy_normalizer (span_text sp) (lemma_ sp) = f (span_text sp).

(** When the normalization is [f] of the text: the id of a phrase is its
    normalization, a group holds phrases of its own normalization only,
    every counted phrase is counted at least once and is in the group of its
    normalization, and the representative of a group is counted at least as
    often as each member. *)
Definition rep_inv (f : string -> string) (d : dicts) : Prop :=
  (forall np norm, np2id d !! np = Some norm -> norm = f np) /\
  (forall norm group np,
     id2group d !! norm = Some group -> np ∈ group -> f np = norm) /\
  (forall np c, np2count d !! np = Some c ->
     1 <= c /\ exists group, id2group d !! f np = Some group /\ np ∈ group) /\
  (forall norm rep group np c,
     id2rep d !! norm = Some rep -> id2group d !! norm = Some group ->
     np ∈ group -> np2count d !! np = Some c ->
     exists c_rep, np2count d !! rep = Some c_rep /\ c <= c_rep).

(** How often the phrase [np] occurs among noun phrases given by text and
    lemma. *)
Definition occurrences (np : string) (nps : list (string * string)) : nat :=
  length (filter (fun p => p.1 = np) nps).

(** The entry of a dictionary of counts for a phrase seen [n] times: none
    for a phrase never seen. *)
Definition count_entry (n : nat) : option nat :=
  match n with 0 => None | S _ => Some n end.

(** The text and lemma of a noun chunk. *)
Definition segment_np (seg : segment) : option (string * string) :=
  match seg with
  | Outside _ => None
  | Chunk np lemma _ _ => Some (np, lemma)
  end.

(** The noun chunks of a corpus of documents given by their segments, in
    order. *)
Definition corpus_nps (docs : list (list segment)) : list (string * string) :=
  docs ≫= omap segment_np.

(** The character [c] occurs in the string. *)
Fixpoint occurs (c : ascii) (s : string) : Prop :=
  match s with
  | EmptyString => False
  | String c' s' => c' = c \/ occurs c s'
  end.

End PrepareIndex.

(** ** prepare_data.py: the marked corpus, as the documents determine it *)

Module MarkedSpec.
Import PrepareData PrepareSpec PrepareIndex.

(** *** What spaCy hands to the loop

    A token has a text of at least one character and may be followed by a
    space ([token.whitespace_]); [token.idx] is the number of characters
    before it in the document.  The noun chunks of a document are disjoint
    runs of consecutive tokens, in document order, so a document is a
    sequence of pieces: a token outside all noun chunks, or a noun chunk
    with its lemma and its tokens. *)
Record spacy_token := mk_spacy_token
  { first_char : ascii; more_chars : string; space_after : bool }.

(** [token.text]. *)
Definition text (t : spacy_token) : string :=
  String (first_char t) (more_chars t).

(** [token.whitespace_]. *)
Definition whitespace_ (t : spacy_token) : string :=
  if space_after t then " "%string else EmptyString.

(** [len(token.text_with_ws)]. *)
Definition width (t : spacy_token) : nat :=
  String.length (text t) + String.length (whitespace_ t).

Inductive piece :=
  | Word (t : spacy_token)
  | NounChunk (lemma : string) (first : spacy_token) (more : list spacy_token).

(** [span.text]: the texts of the tokens of the chunk with the whitespace
    between them, without the whitespace after the last. *)
Fixpoint chunk_text (t : spacy_token) (ts : list spacy_token) : string :=
  match ts with
  | [] => text t
  | t' :: ts => text t +:+ whitespace_ t +:+ chunk_text t' ts
  end.

(** The tokens [ts] from the offset [offset] on, as the loop reads them. *)
Fixpoint place (offset : nat) (ts : list spacy_token) : list Token :=
  match ts with
  | [] => []
  | t :: ts => mk_Token offset (text t) :: place (offset + width t) ts
  end.

Definition extent (ts : list spacy_token) : nat := sum_list (width <$> ts).

(** The pieces from the offset [offset] on, with the offsets of the tokens;
    a chunk runs from the offset of its first token to the end of the text
    of its last ([span.start_char], [span.end_char]). *)
Fixpoint segments_from (offset : nat) (ps : list piece) : list segment :=
  match ps with
  | [] => []
  | Word t :: ps =>
      Outside (mk_Token offset (text t)) :: segments_from (offset + width t) ps
  | NounChunk lemma t ts :: ps =>
      Chunk (chunk_text t ts) lemma (mk_Token offset (text t))
        (place (offset + width t) ts)
      :: segments_from (offset + extent (t :: ts)) ps
  end.

(** The document the loop reads: [for token in doc] and [doc.noun_chunks]. *)
Definition spacy_doc (ps : list piece) : Doc := doc_of (segments_from 0 ps).

(** *** What is written, said without the loop and its dictionaries *)

Section Written.
Variable spacy_normalizer : string -> string -> string.
Variable mark_char : string.

(** The code points below 256 that [str.strip()] removes. *)
Definition whitespace : list nat :=
  [9; 10; 11; 12; 13; 28; 29; 30; 31; 32; 133; 160].

(** A text that is empty once stripped: every character is whitespace. *)
Definition blank (s : string) : bool :=
  forallb (fun c => bool_decide (nat_of_ascii c ∈ whitespace))
          (list_ascii_of_string s).

(** A text with every space replaced by the mark character. *)
Definition mark_spaces (s : string) : string :=
  foldr (fun c out =>
           (if Ascii.eqb c " " then mark_char else String c EmptyString)
           +:+ out)
        EmptyString (list_ascii_of_string s).

(** A noun phrase as it was extracted: its text and its lemma.  Its group
    is the one of its normalization. *)
Definition group_of (p : string * string) : string :=
  spacy_normalizer p.1 p.2.

(** The text [np] was extracted before as a member of the group [n]. *)
Definition in_group (np n : string) (seen : list (string * string)) : bool :=
  existsb (fun p => String.eqb p.1 np && String.eqb (group_of p) n) seen.

(** The representative of a group when the phrase [p] of the group is
    extracted after the phrases [seen]: the first phrase of a group
    represents it; a later phrase takes over when its text is already a
    member of the group and has now been extracted more often than the
    representative's text. *)
Definition take_over (seen : list (string * string)) (rep : option string)
    (p : string * string) : option string :=
  match rep with
  | None => Some p.1
  | Some r =>
      if in_group p.1 (group_of p) seen
         && (occurrences r (seen ++ [p]) <? occurrences p.1 (seen ++ [p]))
      then Some p.1
      else Some r
  end.

Fixpoint representative_from (seen : list (string * string))
    (rep : option string) (n : string) (rest : list (string * string))
    : option string :=
  match rest with
  | [] => rep
  | p :: rest =>
      representative_from (seen ++ [p])
        (if String.eqb (group_of p) n then take_over seen rep p else rep)
        n rest
  end.

(** The representative of the group [n] once the phrases [seen] have been
    extracted, in that order; none for a group with no phrase yet. *)
Definition representative (n : string) (seen : list (string * string))
    : option string :=
  representative_from [] None n seen.

(** What is written for a noun chunk extracted as the last of [seen]: the
    representative of its group at that moment, marked, and a space. *)
Definition chunk_written (seen : list (string * string))
    (p : string * string) : string :=
  (mark_spaces (default p.1 (representative (group_of p) (seen ++ [p])))
   +:+ mark_char) +:+ " ".

(** What is written for the pieces of a document, in order, after the
    phrases [seen] of the documents before: each token outside the noun
    chunks that is not blank, followed by a space, and each noun chunk
    once.  Also returns the phrases extracted so far. *)
Fixpoint pieces_written (seen : list (string * string)) (ps : list piece)
    : list (string * string) * list string :=
  match ps with
  | [] => (seen, [])
  | Word t :: ps =>
      let '(seen', ws) := pieces_written seen ps in
      (seen', (if blank (text t) then [] else [text t +:+ " "]) ++ ws)
  | NounChunk lemma t ts :: ps =>
      let p := (chunk_text t ts, lemma) in
      let '(seen', ws) := pieces_written (seen ++ [p]) ps in
      (seen', chunk_written seen p :: ws)
  end.

(** The marked corpus: what is written for each document, then a newline. *)
Fixpoint corpus_written (seen : list (string * string))
    (docs : list (list piece)) : list string :=
  match docs with
  | [] => []
  | ps :: docs =>
      let '(seen', ws) := pieces_written seen ps in
      ws ++ [String "010" EmptyString] ++ corpus_written seen' docs
  end.

(** The phrases extracted from a corpus, in order. *)
Definition piece_phrase (p : piece) : option (string * string) :=
  match p with
  | Word _ => None
  | NounChunk lemma t ts => Some (chunk_text t ts, lemma)
  end.

Definition corpus_phrases (docs : list (list piece)) : list (string * string) :=
  docs ≫= omap piece_phrase.

End Written.

(** *** The dictionaries of the loop and the phrases extracted *)

Section Tracks.
Variable spacy_normalizer : string -> string -> string.

Local Abbreviation representative := (representative spacy_normalizer).
Local Abbreviation in_group := (in_group spacy_normalizer).

(** The dictionaries agree with the phrases extracted so far: the counts
    are the numbers of extractions, the representatives are the groups'
    representatives, and a group has the texts extracted as its members. *)
Definition tracks (seen : list (string * string)) (d : dicts) : Prop :=
  (forall np, np2count d !! np = count_entry (occurrences np seen)) /\
  (forall n, id2rep d !! n = representative n seen) /\
  (forall n,
      (id2group d !! n = None /\ representative n seen = None /\
       forall np, in_group np n seen = false) \/
      (exists group r,
          id2group d !! n = Some group /\ representative n seen = Some r /\
          1 <= occurrences r seen /\
          forall np, np ∈ group <-> in_group np n seen = true)).
End Tracks.

End MarkedSpec.

(** ** absa_utils.py: read_examples_from_file *)

Module AbsaRead.
Import AbsaUtils.

(** [s.split(sep)] for a separator of one character: the pieces between
    the separators, empty pieces included. *)
Fixpoint split_on (sep : ascii) (s : string) : list string :=
  match s with
  | EmptyString => [EmptyString]
  | String c s' =>
      if Ascii.eqb c sep then EmptyString :: split_on sep s'
      else match split_on sep s' with
           | piece :: pieces => String c piece :: pieces
           | [] => [String c EmptyString]
           end
  end.

(** [s.split()]: the maximal runs of characters that are not whitespace;
    [word] holds the characters of the current run, last first. *)
Fixpoint split_whitespace_from (word : list ascii) (s : list ascii)
    : list string :=
  match s with
  | [] =>
      match word with
      | [] => []
      | _ :: _ => [string_of_list_ascii (reverse word)]
      end
  | c :: s' =>
      if PrepareData.is_space c then
        match word with
        | [] => split_whitespace_from [] s'
        | _ :: _ =>
            string_of_list_ascii (reverse word) :: split_whitespace_from [] s'
        end
      else split_whitespace_from (c :: word) s'
  end.

Definition split_whitespace (s : string) : list string :=
  split_whitespace_from [] (list_ascii_of_string s).

(** [str(n)] for an int [n >= 0], as the f-string formats it. *)
Definition str (n : nat) : string := NilEmpty.string_of_uint (Nat.to_uint n).

(** [['_'] * 7]. *)
Definition empty_row : list string := replicate 7 "_"%string.

(** The six lists gathered for the current sentence:
    [words, labels, heads, head_words, pos_tags, sub_toks]. *)
Definition sentence : Type :=
  list string * list string * list (list Z) * list (list string)
  * list string * list (list string).

Definition no_sentence : sentence := ([], [], [], [], [], []).

(** [guid_index], [examples] and the six lists. *)
Definition read_state : Type := nat * list InputExample * sentence.

Section Read.
(** [int(h)] is Python's; it raises ValueError on a string that is no
    integer literal.  [mode] is the split's name.  [literal_shared] says
    whether the interpreter makes a cell ["_"] that [csv.reader] yields the
    very object of the literal ["_"] in the function's code; CPython 3.11
    does not. *)
Variable int : string -> option Z.
Variable mode : string.
Variable literal_shared : bool.

(** [InputExample(guid=f"{mode}-{guid_index}", words=words, ...)]. *)
Definition example_of (guid_index : nat) (s : sentence) : InputExample :=
  let '(words, labels, heads, head_words, pos_tags, sub_toks) := s in
  mk_InputExample (mode +:+ "-" +:+ str guid_index)
    words labels heads head_words pos_tags sub_toks.

(** The branch [if row == empty_row]: a sentence with words becomes an
    example and the lists start afresh. *)
Definition end_sentence (st : read_state) : read_state :=
  let '(guid_index, examples, s) := st in
  let '(words, _, _, _, _, _) := s in
  if Py.is_empty words then st
  else (guid_index + 1, examples ++ [example_of guid_index s], no_sentence).

(** [cell is "_"] for a cell of a row: the test compares the cell's object
    with the literal's, so it holds of no cell but ["_"], and of that one
    only when the interpreter shares the object. *)
Definition is_literal (cell : string) : bool :=
  literal_shared && String.eqb cell "_".

(** [[int(h) for h in head.split('~')] if head is not "_" else []]. *)
Definition parse_head (head : string) : option (list Z) :=
  if negb (is_literal head) then mapM int (split_on "~" head) else Some [].

(** [head_word.split('~') if head_word is not "_" else []]. *)
Definition parse_head_word (head_word : string) : list string :=
  if negb (is_literal head_word) then split_on "~" head_word else [].

(** [sub_tok.split() if sub_tok else [word]]. *)
Definition parse_sub_tok (word sub_tok : string) : list string :=
  if String.eqb sub_tok "" then [word] else split_whitespace sub_tok.

(** The body of [for row in reader].  Unpacking a row that has not exactly
    seven cells raises ValueError. *)
Definition row_step (st : read_state) (row : list string) : option read_state :=
  if bool_decide (row = empty_row) then Some (end_sentence st)
  else
    match row with
    | [word; label; head; head_word; syn_rel; pos_tag; sub_tok] =>
        let '(guid_index, examples, s) := st in
        let '(words, labels, heads, head_words, pos_tags, sub_toks) := s in
        head_ids ← parse_head head;
        Some (guid_index, examples,
              (words ++ [word], labels ++ [label], heads ++ [head_ids],
               head_words ++ [parse_head_word head_word],
               pos_tags ++ [pos_tag],
               sub_toks ++ [parse_sub_tok word sub_tok]))
    | _ => None
    end.

Fixpoint read_rows (st : read_state) (rows : list (list string))
    : option read_state :=
  match rows with
  | [] => Some st
  | row :: rows => st ← row_step st row; read_rows st rows
  end.

(** The function, on the rows of the file as [csv.reader] yields them;
    [next(reader, None)] skips the first. *)
Definition read_examples_from_file (rows : list (list string))
    : option (list InputExample) :=
  st ← read_rows (1, [], no_sentence) (drop 1 rows);
  let '(guid_index, examples, s) := st in
  let '(words, _, _, _, _, _) := s in
  if Py.is_empty words then Some examples
  else Some (examples ++ [example_of guid_index s]).
End Read.

(** *** What the theorems say of the rows and of the examples *)

(** A row the loop gets through: the separator row, or seven cells of
    which the head cell is integers separated by [~], or is ["_"] on an
    interpreter that shares the literal's object. *)
Definition row_ok (int : string -> option Z) (literal_shared : bool)
    (row : list string) : Prop :=
  row = empty_row \/
  exists word label head head_word syn_rel pos_tag sub_tok,
    row = [word; label; head; head_word; syn_rel; pos_tag; sub_tok] /\
    ((literal_shared = true /\ head = "_"%string) \/
     Forall (fun h => is_Some (int h)) (split_on "~" head)).

(** The word of a row that is not the separator row. *)
Definition row_word (row : list string) : option string :=
  if bool_decide (row = empty_row) then None else row !! 0.

(** An example with at least one word and as many labels, head lists,
    head-word lists, tags and subtoken lists as words. *)
Definition aligned (ex : InputExample) : Prop :=
  words ex ≠ [] /\
  length (labels ex) = length (words ex) /\
  length (heads ex) = length (words ex) /\
  length (head_words ex) = length (words ex) /\
  length (pos_tags ex) = length (words ex) /\
  length (sub_toks ex) = length (words ex).

(** What holds of the loop's state after the rows [seen]: the examples are
    numbered from 1 and aligned, the six lists have one length, and the
    words of the examples and of the current sentence are the words of the
    rows seen, in order. *)
Definition read_inv (mode : string) (st : read_state)
    (seen : list (list string)) : Prop :=
  let '(guid_index, examples, s) := st in
  let '(wds, lbls, hds, hwds, tags, subs) := s in
  guid_index = length examples + 1 /\
  Forall aligned examples /\
  (forall i ex, examples !! i = Some ex ->
     guid ex = mode +:+ "-" +:+ str (i + 1)) /\
  (length lbls = length wds /\ length hds = length wds /\
   length hwds = length wds /\ length tags = length wds /\
   length subs = length wds) /\
  concat (words <$> examples) ++ wds = omap row_word seen.

End AbsaRead.

(** ** absa_utils.py: load_config *)

Module AbsaConfig.

(** [s.startswith(p)]. *)
Fixpoint starts_with (p s : string) : bool :=
  match p, s with
  | EmptyString, _ => true
  | String _ _, EmptyString => false
  | String c p', String c' s' => Ascii.eqb c c' && starts_with p' s'
  end.

(** [sub in s] for strings. *)
Fixpoint contains (sub s : string) : bool :=
  starts_with sub s
  || match s with
     | EmptyString => false
     | String _ s' => contains sub s'
     end.

(** [cfg.is_cross_domain]: [lambda dataset: "_to_" in dataset]. *)
Definition is_cross_domain (dataset : string) : bool := contains "_to_" dataset.

(** [cfg.splits] as the yaml file gives it: an int or a list of ints. *)
Inductive yaml_splits :=
  | SplitCount (n : Z)
  | SplitList (l : list Z).

(** [list(range(a, b))]. *)
Definition range (a b : Z) : list Z :=
  (fun i => (a + Z.of_nat i)%Z) <$> seq 0 (Z.to_nat (b - a)).

(** [splits] after [if isinstance(splits, int): splits = list(range(1, splits + 1))]. *)
Definition configured_splits (splits : yaml_splits) : list Z :=
  match splits with
  | SplitCount n => range 1 (n + 1)
  | SplitList l => l
  end.

(** [data_to_splits], the function stored in [cfg.splits]. *)
Definition data_to_splits (splits : yaml_splits) (dataset : string) : list Z :=
  if is_cross_domain dataset then configured_splits splits
  else range 1 5.

(** [ds = {'l': 'laptops', 'r': 'restaurants', 'd': 'device'}], looked up
    with a string of one character: KeyError for any other. *)
Definition ds (c : ascii) : option string :=
  if Ascii.eqb c "l" then Some "laptops"%string
  else if Ascii.eqb c "r" then Some "restaurants"%string
  else if Ascii.eqb c "d" then Some "device"%string
  else None.

(** [f'{ds[d[0]]}_to_{ds[d[1]]}' if len(d) < 3 else d]: an index past the
    end raises IndexError, an unknown letter KeyError. *)
Definition expand_dataset (d : string) : option string :=
  if String.length d <? 3 then
    c0 ← String.get 0 d;
    source ← ds c0;
    c1 ← String.get 1 d;
    target ← ds c1;
    Some (source +:+ "_to_" +:+ target)
  else Some d.

(** [cfg.data], from the items of [cfg.data.split()]. *)
Definition expand_data (data : string) : option (list string) :=
  mapM expand_dataset (AbsaRead.split_whitespace data).

(** [dep_relations = [l.strip() for l in deprel_f.read().splitlines()]],
    from the lines of the file. *)
Definition dep_relations (lines : list string) : list string :=
  PrepareData.strip <$> lines.

(** [cfg.DEP_REL_MAP = {rel: i + 1 for i, rel in enumerate(dep_relations)}]. *)
Definition DEP_REL_MAP (lines : list string) : gmap string Z :=
  foldl (fun m p => <[p.2 := (Z.of_nat p.1 + 1)%Z]> m) ∅
        (imap pair (dep_relations lines)).

(** [cfg.NUM_REL_LABELS = len(dep_relations) + 1]. *)
Definition NUM_REL_LABELS (lines : list string) : Z :=
  (Z.of_nat (length (dep_relations lines)) + 1)%Z.

End AbsaConfig.

(** ** customized_reviews.py: the class Customized_Reviews *)

Module Customized_Reviews.

Section Reviews.
(** [normalize] and [balance] come from [nlp_architect.utils.generic],
    [float] is the builtin.  A data frame with the columns [Sentiment] and
    [clean_text] is the list of its rows, each a list of two cells. *)
Variable normalize : string -> string.
Variable float : string -> option spec_float.
Variable balance : list (list string) -> list (list string).

(** [__init__]: the rows of [self.amazon], one per row of the CSV file; a
    row on which [review_to_sentiment] raises ends the construction. *)
Definition init (rows : list (list string)) : option (list (list string)) :=
  mapM (Sentiment.review_to_sentiment normalize float) rows.

(** [row["Sentiment"]] is in [["positive", "negative"]]. *)
Definition polar (row : list string) : Prop :=
  row !! 0 = Some "positive"%string \/ row !! 0 = Some "negative"%string.

#[global] Instance polar_dec row : Decision (polar row).
Proof. unfold polar. apply _. Defined.

(** [process], the rows of [self.amazon] afterwards. *)
Definition process (run_balance : bool) (amazon : list (list string))
    : list (list string) :=
  let amazon := filter polar amazon in
  if run_balance then balance amazon else amazon.

(** [self.amazon["clean_text"].values]. *)
Definition clean_text (amazon : list (list string)) : list string :=
  omap (fun row => row !! 1) amazon.

(** The normalized text of a CSV row whose score is above or below zero;
    none for a score that is zero or not a number. *)
Definition polar_text (row : list string) : option string :=
  score_text ← row !! 0;
  text ← row !! 1;
  score ← float score_text;
  if SFltb Sentiment.zero score || SFltb score Sentiment.zero
  then Some (normalize text) else None.

(** A CSV row with a text cell and a score cell that parses. *)
Definition row_parses (row : list string) : Prop :=
  exists score_text text score,
    row !! 0 = Some score_text /\ row !! 1 = Some text /\
    float score_text = Some score.
End Reviews.

End Customized_Reviews.

(** ** absa_utils.py: detailed_metrics, the counts per label type *)

Module AbsaMetrics.

(** An entity as [get_entities] (of seqeval) returns it: its type and the
    indices of its first and last token. *)
Abbreviation entity := (string * Z * Z)%type (only parsing).

(** [d[e[0]].add((e[1], e[2]))] on a [defaultdict(set)]. *)
Definition add_entity (e : entity) (d : gmap string (gset (Z * Z)))
    : gmap string (gset (Z * Z)) :=
  <[e.1.1 := default ∅ (d !! e.1.1) ∪ {[(e.1.2, e.2)]}]> d.

(** [for e in entities: d[e[0]].add((e[1], e[2]))], from an empty
    [defaultdict(set)]; the set is gone through in some order. *)
Definition by_type (entities : gset entity) : gmap string (gset (Z * Z)) :=
  set_fold add_entity ∅ entities.

(** [nb_correct], [nb_pred] and [nb_true] for every label type the loop
    [for type_name, true_entities in d1.items()] goes through, given the
    lists [get_entities(y_true)] and [get_entities(y_pred)]. *)
Definition counts (true_list pred_list : list entity)
    : gmap string (nat * nat * nat) :=
  let true_entities : gset entity := list_to_set true_list in
  let pred_entities : gset entity := list_to_set pred_list in
  let d1 := by_type true_entities in
  let d2 := by_type pred_entities in
  map_imap (fun type_name true_entities =>
              let pred_entities := default ∅ (d2 !! type_name) in
              let nb_correct := size (true_entities ∩ pred_entities) in
              let nb_pred := size pred_entities in
              let nb_true := size true_entities in
              Some (nb_correct, nb_pred, nb_true))
           d1.

(** The spans of the entities of one type. *)
Definition spans (type_name : string) (entities : gset entity) : gset (Z * Z) :=
  set_map (fun e : entity => (e.1.2, e.2))
          (filter (fun e : entity => e.1.1 = type_name) entities).

End AbsaMetrics.

(** * Theorems *)

(** ** Facts about the Python list primitives *)

Section PyFacts.
Context {A : Type}.
Implicit Types (l : list A) (x : A).

Lemma py_insert_length i x l : length (Py.insert i x l) = S (length l).
Proof.
  unfold Py.insert. rewrite length_app. simpl.
  rewrite length_take, length_drop. lia.
Qed.

Lemma py_insert_app_r x l1 l2 :
  Py.insert (length l1) x (l1 ++ l2) = l1 ++ x :: l2.
Proof.
  unfold Py.insert. by rewrite take_app_length, drop_app_length.
Qed.

Lemma py_insert_app_r' i x l1 l2 :
  i = length l1 -> Py.insert i x (l1 ++ l2) = l1 ++ x :: l2.
Proof. intros ->. apply py_insert_app_r. Qed.

Lemma py_insert_after x y l1 l2 :
  Py.insert (length l1 + 1) x (l1 ++ y :: l2) = l1 ++ y :: x :: l2.
Proof.
  rewrite (cons_middle y l1 l2), (assoc_L (++)), py_insert_app_r'.
  - by rewrite <- (assoc_L (++)).
  - rewrite length_app. reflexivity.
Qed.

Lemma py_insert_0 x l : Py.insert 0 x l = x :: l.
Proof. unfold Py.insert. by rewrite take_0, drop_0. Qed.

Lemma py_is_empty_true l : Py.is_empty l = true <-> l = [].
Proof. destruct l; simpl; split; congruence. Qed.
End PyFacts.

Lemma py_contains_spec x l : Py.contains x l = true <-> x ∈ l.
Proof.
  unfold Py.contains. rewrite existsb_exists. split.
  - intros (y & Hy & Heq). apply Z.eqb_eq in Heq. subst.
    by apply list_elem_of_In.
  - intros H. exists x. split; [by apply list_elem_of_In | apply Z.eqb_refl].
Qed.

Lemma py_range_length n : length (Py.range n) = n.
Proof. unfold Py.range. by rewrite length_fmap, length_seq. Qed.

Lemma py_range_lookup n i : i < n -> Py.range n !! i = Some (Z.of_nat i).
Proof.
  intros H. unfold Py.range.
  by rewrite list_lookup_fmap, lookup_seq_lt.
Qed.

Lemma py_range_down_S n : Py.range_down (S n) = n :: Py.range_down n.
Proof.
  unfold Py.range_down. rewrite seq_S, reverse_app. reflexivity.
Qed.

(** ** binarize and binarize_multi_hot *)

Example binarize_multi_hot_docstring :
  AbsaUtils.binarize_multi_hot [[1%Z]; [0%Z; 1%Z]] = [[0; 1; 0]; [1; 1; 0]]%Z.
Proof. reflexivity. Qed.

Example binarize_multi_hot_no_head :
  AbsaUtils.binarize_multi_hot [[]; [5%Z]] = [[1; 1; 1]; [0; 0; 0]]%Z.
Proof. reflexivity. Qed.

Lemma binarize_multi_hot_length heads :
  length (AbsaUtils.binarize_multi_hot heads) = length heads.
Proof. unfold AbsaUtils.binarize_multi_hot. apply length_fmap. Qed.

Lemma binarize_multi_hot_row_length heads :
  Forall (fun vec => length vec = length heads + 1)
         (AbsaUtils.binarize_multi_hot heads).
Proof.
  unfold AbsaUtils.binarize_multi_hot. apply Forall_fmap, Forall_forall.
  intros head _. simpl. destruct (Py.is_empty head).
  - apply length_replicate.
  - by rewrite length_fmap, py_range_length.
Qed.

(** C8.  [binarize_multi_hot(heads)] has one vector per element of [heads],
    each of length [len(heads) + 1]; column [j] of row [i] is 1 exactly when
    [j] is in [heads[i]] and 0 otherwise, except that the row of an empty
    [heads[i]] is all ones. *)
Theorem binarize_multi_hot_spec (heads : list (list Z)) :
  length (AbsaUtils.binarize_multi_hot heads) = length heads /\
  forall i head, heads !! i = Some head ->
    exists vec,
      AbsaUtils.binarize_multi_hot heads !! i = Some vec /\
      length vec = length heads + 1 /\
      forall j, j < length heads + 1 ->
        vec !! j = Some (if decide (head = []) then 1%Z
                         else if decide (Z.of_nat j ∈ head) then 1%Z else 0%Z).
Proof.
  split; [apply binarize_multi_hot_length |].
  intros i head Hi. unfold AbsaUtils.binarize_multi_hot.
  rewrite list_lookup_fmap, Hi. simpl. eexists. split; [reflexivity |].
  destruct head as [| h head]; cbv zeta; cbn [Py.is_empty].
  - split; [apply length_replicate |].
    intros j Hj. by rewrite lookup_replicate_2.
  - split; [by rewrite length_fmap, py_range_length |].
    intros j Hj. rewrite list_lookup_fmap, py_range_lookup by done.
    cbn [fmap option_fmap option_map]. f_equal.
    rewrite (decide_False (P := h :: head = [])) by done.
    destruct (Py.contains _ _) eqn:E.
    + apply py_contains_spec in E. by rewrite decide_True.
    + rewrite decide_False; [done |]. intros Hin.
      apply py_contains_spec in Hin. congruence.
Qed.

(** A concrete instance of C8: the second row of the docstring example. *)
Lemma binarize_multi_hot_spec_witness :
  exists vec,
    AbsaUtils.binarize_multi_hot [[1%Z]; [0%Z; 1%Z]] !! 1 = Some vec /\
    length vec = 3 /\
    forall j, j < 3 ->
      vec !! j = Some (if decide ([0%Z; 1%Z] = []) then 1%Z
                       else if decide (Z.of_nat j ∈ [0%Z; 1%Z]) then 1%Z else 0%Z).
Proof.
  exact (proj2 (binarize_multi_hot_spec [[1%Z]; [0%Z; 1%Z]]) 1 [0%Z; 1%Z] eq_refl).
Defined.

(** C9.  On singleton head lists [binarize_multi_hot] coincides with
    [binarize]: [binarize_multi_hot([[p] for p in preds]) == binarize(preds)]. *)
Theorem binarize_multi_hot_singletons (preds : list Z) :
  AbsaUtils.binarize_multi_hot ((fun p => [p]) <$> preds) = AbsaUtils.binarize preds.
Proof.
  unfold AbsaUtils.binarize_multi_hot, AbsaUtils.binarize.
  rewrite length_fmap, <- list_fmap_compose.
  apply list_fmap_ext. intros _ p _. simpl.
  apply list_fmap_ext. intros _ i _. unfold Py.contains. simpl.
  by rewrite orb_false_r.
Qed.

(** ** The store version of apply_heads_to_subtokens computes on values
       when the rows are distinct objects *)

Section Simulation.
Import AbsaSim.
Implicit Types (σ : AbsaUtils.store) (hs : list AbsaUtils.loc)
  (H : list (list Z)) (st : list (list string)).

Lemma M_bind_run {A B} (m : AbsaUtils.M A) (f : A -> AbsaUtils.M B) σ :
  (m ≫= f) σ = match m σ with Some (a, σ') => f a σ' | None => None end.
Proof. reflexivity. Qed.

Lemma distinct_rows_lookup σ hs H i :
  distinct_rows σ hs H ->
  match hs !! i, H !! i with
  | Some r, Some row => σ !! r = Some row
  | None, None => True
  | _, _ => False
  end.
Proof.
  intros [_ HF]. revert i. induction HF as [| r row hs H Hr HF IH]; intros [| i]; simpl; auto.
  apply IH.
Qed.

Lemma distinct_rows_valid σ hs H r :
  distinct_rows σ hs H -> r ∈ hs -> r < length σ.
Proof.
  intros [_ HF] Hin. apply list_elem_of_lookup in Hin as [i Hi].
  destruct (Forall2_lookup_l _ _ _ _ _ HF Hi) as (row & _ & Hrow).
  by apply lookup_lt_Some in Hrow.
Qed.

(** Allocating a row and inserting its address anywhere keeps the rows
    distinct. *)
Lemma distinct_rows_alloc σ hs H j row :
  distinct_rows σ hs H ->
  distinct_rows (σ ++ [row]) (Py.insert j (length σ) hs) (Py.insert j row H).
Proof.
  intros HD. pose proof HD as [HN HF]. split.
  - unfold Py.insert.
    assert (HP : take j hs ++ length σ :: drop j hs ≡ₚ length σ :: hs).
    { rewrite <- (take_drop j hs) at 3. by rewrite Permutation_middle. }
    rewrite HP. constructor; [| done].
    intros Hin. apply (distinct_rows_valid _ _ _ _ HD) in Hin. lia.
  - assert (HF' : Forall2 (fun r row0 => (σ ++ [row]) !! r = Some row0) hs H).
    { eapply Forall2_impl; [exact HF |]. intros r row0 Hr. simpl in Hr.
      by apply lookup_app_l_Some. }
    unfold Py.insert. apply Forall2_app.
    + by apply Forall2_take.
    + constructor; [| by apply Forall2_drop].
      cbv beta. by rewrite lookup_app_r, Nat.sub_diag.
Qed.

Lemma rows_insert_notin σ hs H r row' :
  r ∉ hs ->
  Forall2 (fun r0 row => σ !! r0 = Some row) hs H ->
  Forall2 (fun r0 row => <[r := row']> σ !! r0 = Some row) hs H.
Proof.
  intros Hnotin HF. induction HF as [| r0 row hs H Hr HF IH]; constructor.
  - rewrite list_lookup_insert_ne; [done |]. intros ->. apply Hnotin. left.
  - apply IH. intros Hin. apply Hnotin. by right.
Qed.

(** Updating one row in place changes the value at its position only. *)
Lemma distinct_rows_update σ done r todo Hd row Ht row' :
  length done = length Hd ->
  distinct_rows σ (done ++ r :: todo) (Hd ++ row :: Ht) ->
  distinct_rows (<[r := row']> σ) (done ++ r :: todo) (Hd ++ row' :: Ht).
Proof.
  intros Hlen [HN HF]. split; [done |].
  apply Forall2_app_inv in HF as [HF1 HF2]; [| done].
  apply Forall2_cons in HF2 as [Hr HF2].
  apply NoDup_app in HN as (_ & Hdisj & HN2).
  apply NoDup_cons in HN2 as [Hnotin _].
  apply Forall2_app; [| constructor].
  - apply rows_insert_notin; [| done].
    intros Hin. apply (Hdisj r Hin). left.
  - apply list_lookup_insert_eq. by apply lookup_lt_Some in Hr.
  - by apply rows_insert_notin.
Qed.
Lemma insert_sub_token_rows_sim z i k σ hs H :
  distinct_rows σ hs H ->
  agree (fun hs' σ' H' => distinct_rows σ' hs' H')
    (AbsaUtils.insert_sub_token_rows z i k hs σ)
    (AbsaValues.insert_sub_token_rows z i k H).
Proof.
  revert σ hs H. induction k as [| k IH]; intros σ hs H HD; [exact HD |].
  cbn [AbsaUtils.insert_sub_token_rows AbsaValues.insert_sub_token_rows].
  rewrite M_bind_run. unfold AbsaUtils.getitem, AbsaUtils.raise.
  pose proof (distinct_rows_lookup _ _ _ i HD) as Hi.
  destruct (hs !! i) as [r |], (H !! i) as [row |]; try done.
  cbn [mbind option_bind]. unfold mret at 1, AbsaUtils.M_ret at 1.
  rewrite M_bind_run. unfold AbsaUtils.deref at 1. rewrite Hi.
  rewrite M_bind_run. unfold AbsaUtils.alloc at 1.
  apply IH. by apply distinct_rows_alloc.
Qed.

Lemma expand_rows_sim z st idxs σ hs H :
  distinct_rows σ hs H ->
  agree (fun hs' σ' H' => distinct_rows σ' hs' H')
    (AbsaUtils.expand_rows z st idxs hs σ)
    (AbsaValues.expand_rows z st idxs H).
Proof.
  revert σ hs H. induction idxs as [| i idxs IH]; intros σ hs H HD; [exact HD |].
  cbn [AbsaUtils.expand_rows AbsaValues.expand_rows].
  rewrite M_bind_run. unfold AbsaUtils.getitem, AbsaUtils.raise.
  destruct (st !! i) as [sub |]; [| done].
  cbn [mbind option_bind]. unfold mret at 1, AbsaUtils.M_ret at 1.
  rewrite M_bind_run.
  pose proof (insert_sub_token_rows_sim z i (length sub - 1) σ hs H HD) as Hs.
  destruct (AbsaUtils.insert_sub_token_rows z i (length sub - 1) hs σ)
    as [[hs' σ'] |],
    (AbsaValues.insert_sub_token_rows z i (length sub - 1) H) as [H' |];
    try done.
  cbn [mbind option_bind]. by apply IH.
Qed.

Lemma iter_shift {A} (f : A -> A) k x : Nat.iter k f (f x) = f (Nat.iter k f x).
Proof. induction k as [| k IH]; simpl; congruence. Qed.

Lemma times_update_run k r f σ row :
  σ !! r = Some row ->
  AbsaUtils.times k (AbsaUtils.update r f) σ
  = Some (tt, <[r := Nat.iter k f row]> σ).
Proof.
  revert σ row. induction k as [| k IH]; intros σ row Hr.
  - simpl. by rewrite list_insert_id.
  - cbn [AbsaUtils.times]. rewrite M_bind_run.
    unfold AbsaUtils.update at 1. rewrite Hr.
    rewrite (IH _ (f row)).
    + by rewrite list_insert_insert_eq, iter_shift.
    + apply list_lookup_insert_eq. by apply lookup_lt_Some in Hr.
Qed.

Lemma insert_zero_columns_run st idxs r σ row :
  σ !! r = Some row ->
  AbsaUtils.insert_zero_columns st idxs r σ
  = row' ← AbsaValues.insert_zero_columns st idxs row; Some (tt, <[r := row']> σ).
Proof.
  revert σ row. induction idxs as [| i idxs IH]; intros σ row Hr.
  - simpl. by rewrite list_insert_id.
  - cbn [AbsaUtils.insert_zero_columns AbsaValues.insert_zero_columns].
    rewrite M_bind_run. unfold AbsaUtils.getitem, AbsaUtils.raise.
    destruct (st !! i) as [sub |]; [| done].
    cbn [mbind option_bind]. unfold mret at 1, AbsaUtils.M_ret at 1.
    rewrite M_bind_run, (times_update_run _ _ _ _ _ Hr).
    rewrite (IH _ (Nat.iter (length sub - 1) (Py.insert (i + 2) 0%Z) row)).
    + destruct (AbsaValues.insert_zero_columns _ _ _); [| reflexivity].
      cbn [mbind option_bind]. by rewrite list_insert_insert_eq.
    + apply list_lookup_insert_eq. by apply lookup_lt_Some in Hr.
Qed.

Lemma for_each_sim st idxs σ done todo Hd Ht :
  length done = length Hd ->
  distinct_rows σ (done ++ todo) (Hd ++ Ht) ->
  agree (fun _ σ' Ht' => distinct_rows σ' (done ++ todo) (Hd ++ Ht'))
    (AbsaUtils.for_each todo (AbsaUtils.insert_zero_columns st idxs) σ)
    (mapM (AbsaValues.insert_zero_columns st idxs) Ht).
Proof.
  revert σ done Hd Ht. induction todo as [| r todo IH]; intros σ done Hd Ht Hlen HD.
  - assert (Ht = []) as ->; [| exact HD].
    destruct HD as [_ HF]. apply Forall2_length in HF.
    rewrite !length_app in HF. destruct Ht; [done | simpl in HF; lia].
  - destruct Ht as [| row Ht].
    { destruct HD as [_ HF]. apply Forall2_length in HF.
      rewrite !length_app in HF. simpl in HF. lia. }
    assert (Hr : σ !! r = Some row).
    { pose proof (distinct_rows_lookup _ _ _ (length done) HD) as Hl.
      rewrite lookup_app_r, Nat.sub_diag in Hl by lia.
      rewrite Hlen, lookup_app_r, Nat.sub_diag in Hl by lia. exact Hl. }
    cbn [AbsaUtils.for_each mapM]. rewrite M_bind_run.
    rewrite (insert_zero_columns_run _ _ _ _ _ Hr).
    destruct (AbsaValues.insert_zero_columns st idxs row) as [row' |]; [| done].
    cbn [mbind option_bind].
    pose proof (distinct_rows_update _ _ _ _ _ _ _ row' Hlen HD) as HD'.
    specialize (IH (<[r := row']> σ) (done ++ [r]) (Hd ++ [row']) Ht).
    rewrite <- !(assoc_L (++)) in IH. simpl in IH.
    specialize (IH ltac:(rewrite !length_app; simpl; lia) HD').
    destruct (AbsaUtils.for_each todo _ _) as [[[] σ'] |],
      (mapM _ Ht) as [Ht' |]; try done.
    simpl in *. by rewrite <- (assoc_L (++)) in IH.
Qed.

Lemma snapshot_run σ hs H :
  Forall2 (fun r row => σ !! r = Some row) hs H ->
  AbsaUtils.snapshot hs σ = Some (H, σ).
Proof.
  induction 1 as [| r row hs H Hr HF IH]; [done |].
  cbn [AbsaUtils.snapshot]. rewrite M_bind_run.
  unfold AbsaUtils.deref at 1. rewrite Hr, M_bind_run, IH. reflexivity.
Qed.

(** With pairwise distinct rows, the store version and the value version
    raise together or return the same nested list, and afterwards the
    caller's list holds exactly the returned rows. *)
Theorem apply_heads_to_subtokens_lists_sim z st σ hs H :
  distinct_rows σ hs H ->
  agree (fun '(hs', rows) σ' R => rows = R /\ distinct_rows σ' hs' R)
    (AbsaUtils.apply_heads_to_subtokens_lists hs st z σ)
    (AbsaValues.apply_heads_to_subtokens H st z).
Proof.
  intros HD.
  unfold AbsaUtils.apply_heads_to_subtokens_lists,
    AbsaValues.apply_heads_to_subtokens.
  rewrite M_bind_run.
  pose proof (expand_rows_sim z st (Py.range_down (length st)) σ hs H HD) as H1.
  destruct (AbsaUtils.expand_rows _ _ _ _ _) as [[hs1 σ1] |],
    (AbsaValues.expand_rows _ _ _ _) as [H1' |]; try done.
  cbn [mbind option_bind]. rewrite M_bind_run.
  pose proof (for_each_sim st (Py.range_down (length st)) σ1 [] hs1 [] H1'
                eq_refl H1) as H2.
  destruct (AbsaUtils.for_each _ _ _) as [[[] σ2] |],
    (mapM _ H1') as [H2' |]; try done.
  cbn [mbind option_bind]. simpl in H2.
  rewrite M_bind_run. unfold AbsaUtils.alloc at 1.
  rewrite py_insert_0.
  assert (Hlen : length hs1 = length H2').
  { destruct H2 as [_ HF]. by apply Forall2_length in HF. }
  pose proof (distinct_rows_alloc σ2 hs1 H2' 0
                (replicate (length hs1 + 1) 0%Z) H2) as H3.
  rewrite !py_insert_0 in H3.
  rewrite M_bind_run, (snapshot_run _ _ _ (proj2 H3)).
  simpl. rewrite <- Hlen. by split.
Qed.
End Simulation.

(** ** The value version computes the specified matrix *)

Section ValuesSpec.
Implicit Types (H : list (list Z)) (st : list (list string)) (z : bool).

Lemma replicate_app_cons {A} (x : A) k l :
  replicate k x ++ x :: l = x :: replicate k x ++ l.
Proof. induction k as [| k IH]; simpl; congruence. Qed.

Lemma insert_sub_token_rows_values z k pre row suf :
  AbsaValues.insert_sub_token_rows z (length pre) k (pre ++ row :: suf)
  = Some (pre ++ row ::
            replicate k (if z then (fun _ => 0%Z) <$> row else row) ++ suf).
Proof.
  revert suf. induction k as [| k IH]; intros suf; [done |].
  cbn [AbsaValues.insert_sub_token_rows].
  rewrite lookup_app_r, Nat.sub_diag by lia.
  cbn [lookup list_lookup mbind option_bind]. cbv zeta.
  rewrite py_insert_after, IH. simpl. by rewrite replicate_app_cons.
Qed.

Lemma expand_rows_values z stp rest pre suf :
  length pre = length stp ->
  AbsaValues.expand_rows z (stp ++ rest) (Py.range_down (length stp)) (pre ++ suf)
  = Some (concat (zip_with (AbsaSpec.sub_token_rows z) pre stp) ++ suf).
Proof.
  revert rest pre suf. induction stp as [| sub stp IH] using rev_ind;
    intros rest pre suf Hlen.
  - destruct pre; [done | simpl in Hlen; lia].
  - destruct pre as [| row pre _] using rev_ind.
    { rewrite length_app in Hlen. simpl in Hlen. lia. }
    rewrite !length_app in Hlen. simpl in Hlen.
    rewrite length_app. simpl. rewrite Nat.add_1_r, py_range_down_S.
    cbn [AbsaValues.expand_rows].
    rewrite <- !(assoc_L (++)).
    rewrite lookup_app_r, Nat.sub_diag by lia.
    cbn [app lookup list_lookup mbind option_bind].
    replace (length stp) with (length pre) by lia.
    rewrite insert_sub_token_rows_values. cbn [mbind option_bind].
    replace (length pre) with (length stp) by lia.
    rewrite (IH ([sub] ++ rest)) by lia.
    rewrite zip_with_app, concat_app by lia. simpl.
    by rewrite app_nil_r, <- !(assoc_L (++)).
Qed.

Lemma iter_insert_zero k pre tail :
  Nat.iter k (Py.insert (length pre) 0%Z) (pre ++ tail)
  = pre ++ replicate k 0%Z ++ tail.
Proof.
  induction k as [| k IH]; [done |].
  cbn [Nat.iter nat_rect]. change (nat_rect _ _ _ k) with
    (Nat.iter k (Py.insert (length pre) 0%Z) (pre ++ tail)).
  rewrite IH. by rewrite py_insert_app_r.
Qed.

Lemma insert_zero_columns_values stp rest c ws tail :
  length ws = length stp ->
  AbsaValues.insert_zero_columns (stp ++ rest) (Py.range_down (length stp))
    (c :: ws ++ tail)
  = Some (c :: concat (zip_with (fun w sub => w :: replicate (length sub - 1) 0%Z)
                                ws stp) ++ tail).
Proof.
  revert rest ws tail. induction stp as [| sub stp IH] using rev_ind;
    intros rest ws tail Hlen.
  - destruct ws; [done | simpl in Hlen; lia].
  - destruct ws as [| w ws _] using rev_ind.
    { rewrite length_app in Hlen. simpl in Hlen. lia. }
    rewrite !length_app in Hlen. simpl in Hlen.
    rewrite length_app. simpl. rewrite Nat.add_1_r, py_range_down_S.
    cbn [AbsaValues.insert_zero_columns].
    rewrite <- !(assoc_L (++)).
    rewrite lookup_app_r, Nat.sub_diag by lia.
    cbn [app lookup list_lookup mbind option_bind].
    replace (length stp + 2) with (length (c :: ws ++ [w]))
      by (simpl; rewrite length_app; simpl; lia).
    change (c :: ws ++ w :: tail) with ((c :: ws) ++ w :: tail).
    rewrite (assoc_L (++) (c :: ws) [w] tail : (c :: ws) ++ w :: tail = _).
    rewrite iter_insert_zero.
    simpl. rewrite <- !(assoc_L (++)).
    rewrite (IH ([sub] ++ rest)) by lia.
    rewrite zip_with_app, concat_app by lia. simpl.
    by rewrite app_nil_r, <- !(assoc_L (++)).
Qed.

Lemma insert_zero_columns_widen st row :
  length row = length st + 1 ->
  AbsaValues.insert_zero_columns st (Py.range_down (length st)) row
  = Some (AbsaSpec.widen_row st row).
Proof.
  intros Hlen. destruct row as [| c ws]; [simpl in Hlen; lia |].
  simpl in Hlen.
  pose proof (insert_zero_columns_values st [] c ws [] ltac:(lia)) as E.
  rewrite !app_nil_r in E. exact E.
Qed.
End ValuesSpec.

(** ** apply_heads_to_subtokens: the claims *)

Section ApplyHeads.
Import AbsaSim.
Implicit Types (H : list (list Z)) (st : list (list string)) (z : bool).

Lemma fmap_concat_zip_with {A B C D} (f : C -> D) (g : A -> B -> list C) l k :
  f <$> concat (zip_with g l k) = concat (zip_with (fun a b => f <$> g a b) l k).
Proof.
  revert k. induction l as [| a l IH]; intros [| b k]; simpl; try done.
  by rewrite fmap_app, IH.
Qed.

Lemma word_rows_concat z st H st' :
  concat (zip_with (AbsaSpec.word_rows z st) H st')
  = AbsaSpec.widen_row st <$> concat (zip_with (AbsaSpec.sub_token_rows z) H st').
Proof. symmetry. apply fmap_concat_zip_with. Qed.

Lemma sub_token_rows_count z H st :
  length H = length st ->
  Forall (fun sub => sub ≠ []) st ->
  length (concat (zip_with (AbsaSpec.sub_token_rows z) H st))
  = AbsaSpec.total_sub_tokens st.
Proof.
  unfold AbsaSpec.total_sub_tokens.
  revert st. induction H as [| row H IH]; intros [| sub st] Hlen Hne;
    simpl in *; try done.
  apply Forall_cons in Hne as [Hsub Hne].
  rewrite length_app, length_replicate, IH by (done || lia).
  destruct sub; [done | unfold fmap; simpl; lia].
Qed.

Lemma sub_token_rows_row_length z H st n :
  Forall (fun row => length row = n) H ->
  Forall (fun row => length row = n)
         (concat (zip_with (AbsaSpec.sub_token_rows z) H st)).
Proof.
  intros HF. revert st. induction HF as [| row H Hrow HF IH]; intros [| sub st];
    simpl; try by constructor.
  constructor; [done |]. apply Forall_app. split; [| apply IH].
  apply Forall_replicate. destruct z; [by rewrite length_fmap | done].
Qed.

Lemma widen_columns_length (ws : list Z) st :
  length ws = length st ->
  Forall (fun sub => sub ≠ []) st ->
  length (concat (zip_with (fun w sub => w :: replicate (length sub - 1) 0%Z) ws st))
  = AbsaSpec.total_sub_tokens st.
Proof.
  unfold AbsaSpec.total_sub_tokens.
  revert st. induction ws as [| w ws IH]; intros [| sub st] Hlen Hne;
    simpl in *; try done.
  apply Forall_cons in Hne as [Hsub Hne].
  rewrite length_app, length_replicate, IH by (done || lia).
  destruct sub; [done | unfold fmap; simpl; lia].
Qed.

Lemma widen_row_length st row :
  length row = length st + 1 ->
  Forall (fun sub => sub ≠ []) st ->
  length (AbsaSpec.widen_row st row) = AbsaSpec.total_sub_tokens st + 1.
Proof.
  intros Hlen Hne. destruct row as [| c ws]; [simpl in Hlen; lia |].
  simpl in *. rewrite widen_columns_length by (done || lia). lia.
Qed.

(** On a word-level matrix (one row per word, one column per word and one
    for [CLS]) the loops compute the specified matrix. *)
Theorem apply_heads_to_subtokens_values_spec z H st :
  length H = length st ->
  Forall (fun row => length row = length st + 1) H ->
  Forall (fun sub => sub ≠ []) st ->
  AbsaValues.apply_heads_to_subtokens H st z
  = Some (AbsaSpec.subtoken_heads z H st).
Proof.
  intros Hlen Hrows Hne. unfold AbsaValues.apply_heads_to_subtokens.
  pose proof (expand_rows_values z st [] H [] Hlen) as E1.
  rewrite !app_nil_r in E1. rewrite E1. cbn [mbind option_bind].
  set (X := concat (zip_with (AbsaSpec.sub_token_rows z) H st)).
  assert (E2 : mapM (AbsaValues.insert_zero_columns st (Py.range_down (length st))) X
               = Some (AbsaSpec.widen_row st <$> X)).
  { apply mapM_Some, Forall2_fmap_r, Forall_Forall2_diag.
    eapply Forall_impl; [by apply sub_token_rows_row_length |].
    intros row Hrow. by apply insert_zero_columns_widen. }
  rewrite E2. cbn [mbind option_bind].
  unfold AbsaSpec.subtoken_heads. f_equal. f_equal.
  - rewrite length_fmap. unfold X. by rewrite sub_token_rows_count.
  - unfold X. by rewrite word_rows_concat.
Qed.

Lemma subtoken_heads_row_length z H st :
  Forall (fun row => length row = length st + 1) H ->
  Forall (fun sub => sub ≠ []) st ->
  Forall (fun row => length row = AbsaSpec.total_sub_tokens st + 1)
         (AbsaSpec.subtoken_heads z H st).
Proof.
  intros Hrows Hne. unfold AbsaSpec.subtoken_heads.
  constructor; [apply length_replicate |].
  rewrite word_rows_concat. apply Forall_fmap. eapply Forall_impl; [by apply sub_token_rows_row_length |].
  intros row Hrow. simpl. by apply widen_row_length.
Qed.

Lemma subtoken_heads_length z H st :
  length H = length st ->
  Forall (fun sub => sub ≠ []) st ->
  length (AbsaSpec.subtoken_heads z H st) = AbsaSpec.total_sub_tokens st + 1.
Proof.
  intros Hlen Hne. unfold AbsaSpec.subtoken_heads. cbn [length].
  rewrite word_rows_concat, length_fmap, sub_token_rows_count by done. lia.
Qed.

Lemma np_array_rectangular rows n m :
  length rows = S n ->
  Forall (fun row => length row = m) rows ->
  AbsaUtils.np_array rows = Some (AbsaUtils.mk_ndarray (S n) m rows).
Proof.
  intros Hlen HF. destruct rows as [| row rows]; [done |].
  unfold AbsaUtils.np_array.
  pose proof (Forall_inv HF) as Hrow. simpl in Hrow.
  assert (forallb (fun r => length r =? length row) (row :: rows) = true) as ->.
  { apply forallb_forall. intros r Hin. apply Nat.eqb_eq.
    rewrite Forall_forall in HF. rewrite (HF r) by by apply list_elem_of_In.
    done. }
  by rewrite Hlen, Hrow.
Qed.

(** The nested list handed to [np.array] is the specified matrix. *)
Lemma apply_heads_to_subtokens_lists_spec σ hs H st z :
  distinct_rows σ hs H ->
  length H = length st ->
  Forall (fun row => length row = length st + 1) H ->
  Forall (fun sub => sub ≠ []) st ->
  exists hs' σ',
    AbsaUtils.apply_heads_to_subtokens_lists hs st z σ
    = Some ((hs', AbsaSpec.subtoken_heads z H st), σ').
Proof.
  intros HD Hlen Hrows Hne.
  pose proof (apply_heads_to_subtokens_lists_sim z st σ hs H HD) as Hsim.
  rewrite apply_heads_to_subtokens_values_spec in Hsim by done.
  destruct (AbsaUtils.apply_heads_to_subtokens_lists hs st z σ)
    as [[[hs' rows] σ'] |]; [| done].
  destruct Hsim as [-> _]. by exists hs', σ'.
Qed.

(** The specified matrix is square, so [np.array] makes a 2-D array of it. *)
Lemma np_array_subtoken_heads z H st :
  length H = length st ->
  Forall (fun row => length row = length st + 1) H ->
  Forall (fun sub => sub ≠ []) st ->
  AbsaUtils.np_array (AbsaSpec.subtoken_heads z H st)
  = Some (AbsaUtils.mk_ndarray (AbsaSpec.total_sub_tokens st + 1)
            (AbsaSpec.total_sub_tokens st + 1) (AbsaSpec.subtoken_heads z H st)).
Proof.
  intros Hlen Hrows Hne.
  rewrite (np_array_rectangular _ (AbsaSpec.total_sub_tokens st)
             (AbsaSpec.total_sub_tokens st + 1)).
  - by rewrite Nat.add_1_r.
  - rewrite subtoken_heads_length by done. lia.
  - by apply subtoken_heads_row_length.
Qed.

(** C1.  For a word-level head matrix [H] (one row per word, [n + 1]
    columns) held in pairwise distinct list objects, and one non-empty
    subtoken list per word, [apply_heads_to_subtokens] returns the matrix on
    subtoken positions: a zero [CLS] row first, then for each word its row
    followed by one copy (a zero row when [zero_sub_tokens]) per non-first
    subtoken, every row widened by a zero column after a word's column for
    each of its non-first subtokens. *)
Theorem apply_heads_to_subtokens_spec σ hs H st z :
  distinct_rows σ hs H ->
  length H = length st ->
  Forall (fun row => length row = length st + 1) H ->
  Forall (fun sub => sub ≠ []) st ->
  exists hs' σ',
    AbsaUtils.apply_heads_to_subtokens hs st z σ
    = Some ((hs',
             AbsaUtils.mk_ndarray (AbsaSpec.total_sub_tokens st + 1)
               (AbsaSpec.total_sub_tokens st + 1)
               (AbsaSpec.subtoken_heads z H st)), σ').
Proof.
  intros HD Hlen Hrows Hne.
  destruct (apply_heads_to_subtokens_lists_spec σ hs H st z HD Hlen Hrows Hne)
    as (hs' & σ' & E).
  exists hs', σ'. unfold AbsaUtils.apply_heads_to_subtokens.
  rewrite M_bind_run, E.
  by rewrite np_array_subtoken_heads.
Qed.

(** A concrete instance of C1: two words, of two and three subtokens. *)
Lemma apply_heads_to_subtokens_spec_witness :
  exists hs' σ',
    AbsaUtils.apply_heads_to_subtokens [0; 1]
      [["a"; "##b"]; ["c"; "##d"; "##e"]]%string false
      [[0; 1; 0]; [1; 1; 0]]%Z
    = Some ((hs',
             AbsaUtils.mk_ndarray 6 6
               [[0; 0; 0; 0; 0; 0]; [0; 1; 0; 0; 0; 0]; [0; 1; 0; 0; 0; 0];
                [1; 1; 0; 0; 0; 0]; [1; 1; 0; 0; 0; 0]; [1; 1; 0; 0; 0; 0]]%Z),
            σ').
Proof.
  apply (apply_heads_to_subtokens_spec [[0; 1; 0]; [1; 1; 0]]%Z [0; 1]
           [[0; 1; 0]; [1; 1; 0]]%Z [["a"; "##b"]; ["c"; "##d"; "##e"]]%string false).
  - split; [| by repeat constructor].
    apply NoDup_cons. split; [| apply NoDup_singleton].
    intros Hin. apply list_elem_of_singleton in Hin. discriminate.
  - reflexivity.
  - by repeat constructor.
  - by repeat constructor.
Defined.

(** *** Fresh rows, as a function that builds its result hands them over *)

Lemma new_lists_run rows σ :
  AbsaUtils.new_lists rows σ = Some (seq (length σ) (length rows), σ ++ rows).
Proof.
  revert σ. induction rows as [| row rows IH]; intros σ.
  - simpl. by rewrite app_nil_r.
  - cbn [AbsaUtils.new_lists]. rewrite M_bind_run. unfold AbsaUtils.alloc at 1.
    rewrite M_bind_run, IH. simpl.
    rewrite length_app. simpl. rewrite Nat.add_1_r.
    by rewrite <- (assoc_L (++)).
Qed.

Lemma new_lists_distinct rows σ :
  distinct_rows (σ ++ rows) (seq (length σ) (length rows)) rows.
Proof.
  split; [apply NoDup_seq |].
  apply Forall2_lookup. intros i.
  destruct (rows !! i) as [row |] eqn:E.
  - pose proof (lookup_lt_Some _ _ _ E) as Hlt.
    rewrite lookup_seq_lt by done. constructor.
    rewrite lookup_app_r by lia.
    by replace (length σ + i - length σ) with i by lia.
  - apply lookup_ge_None in E. rewrite lookup_seq_ge by done. constructor.
Qed.
End ApplyHeads.

(** ** The shape of binary_heads and the assertion of
       convert_examples_to_features *)

Section BinaryHeadsShape.
Import AbsaSim.

(** The specified matrix has [m + 1] rows of [m + 1] entries each. *)
Lemma subtoken_heads_wf z H st :
  length H = length st ->
  Forall (fun row => length row = length st + 1) H ->
  Forall (fun sub => sub ≠ []) st ->
  AbsaUtils.wf_ndarray
    (AbsaUtils.mk_ndarray (AbsaSpec.total_sub_tokens st + 1)
       (AbsaSpec.total_sub_tokens st + 1) (AbsaSpec.subtoken_heads z H st)).
Proof.
  intros Hlen Hrows Hne. split; cbn [AbsaUtils.data AbsaUtils.shape0
                                       AbsaUtils.shape1].
  - by apply subtoken_heads_length.
  - by apply subtoken_heads_row_length.
Qed.

Lemma binary_heads_wf heads st :
  length heads = length st ->
  Forall (fun sub => sub ≠ []) st ->
  AbsaUtils.wf_ndarray
    (AbsaUtils.mk_ndarray (AbsaSpec.total_sub_tokens st + 1)
       (AbsaSpec.total_sub_tokens st + 1)
       (AbsaSpec.subtoken_heads false (AbsaUtils.binarize_multi_hot heads) st)).
Proof.
  intros Hlen Hne. apply subtoken_heads_wf; [| | done].
  - by rewrite binarize_multi_hot_length.
  - rewrite <- Hlen. apply binarize_multi_hot_row_length.
Qed.

Lemma binary_heads_run σ heads st :
  length heads = length st ->
  Forall (fun sub => sub ≠ []) st ->
  exists hs' σ',
    (rows ← AbsaUtils.new_lists (AbsaUtils.binarize_multi_hot heads);
     AbsaUtils.apply_heads_to_subtokens rows st false) σ
    = Some ((hs',
             AbsaUtils.mk_ndarray (AbsaSpec.total_sub_tokens st + 1)
               (AbsaSpec.total_sub_tokens st + 1)
               (AbsaSpec.subtoken_heads false
                  (AbsaUtils.binarize_multi_hot heads) st)), σ').
Proof.
  intros Hlen Hne. rewrite M_bind_run, new_lists_run.
  assert (Hrows : Forall (fun row => length row = length st + 1)
                         (AbsaUtils.binarize_multi_hot heads)).
  { rewrite <- Hlen. apply binarize_multi_hot_row_length. }
  assert (Hlen' : length (AbsaUtils.binarize_multi_hot heads) = length st)
    by by rewrite binarize_multi_hot_length.
  destruct (apply_heads_to_subtokens_lists_spec _ _ _ st false
              (new_lists_distinct (AbsaUtils.binarize_multi_hot heads) σ)
              Hlen' Hrows Hne) as (hs' & σ' & E).
  exists hs', σ'. unfold AbsaUtils.apply_heads_to_subtokens.
  rewrite M_bind_run, E.
  by rewrite np_array_subtoken_heads.
Qed.

Section Loop.
Variable tokenize : string -> list string.
Variable pad_token_label_id : Z.
Variable label_map : gmap string Z.

(** What the loop over the words keeps: one head list per subtoken list,
    no empty subtoken list, and as many tokens as listed subtokens. *)
Lemma word_loop_inv items tokens label_ids heads sub_toks
    tokens' label_ids' heads' sub_toks' :
  Forall (AbsaSpec.item_split tokenize) items ->
  length heads = length sub_toks ->
  Forall (fun sub => sub ≠ []) sub_toks ->
  length tokens = AbsaSpec.total_sub_tokens sub_toks ->
  AbsaUtils.word_loop tokenize pad_token_label_id label_map
    (tokens, label_ids, heads, sub_toks) items
  = Some (tokens', label_ids', heads', sub_toks') ->
  length heads' = length sub_toks' /\
  Forall (fun sub => sub ≠ []) sub_toks' /\
  length tokens' = AbsaSpec.total_sub_tokens sub_toks'.
Proof.
  intros Hok. revert tokens label_ids heads sub_toks.
  induction Hok as [| item items Hitem Hok IH];
    intros tokens label_ids heads sub_toks Hlen Hne Htok.
  - by intros [= <- _ <- <-].
  - destruct item as [[[[word label] head] pos] sub_tok].
    destruct Hitem as (Htk & Hsub).
    cbn [AbsaUtils.word_loop AbsaUtils.word_step]. rewrite Htk.
    assert ((0 <? length sub_tok) = true) as ->.
    { apply Nat.ltb_lt. destruct sub_tok; [done | simpl; lia]. }
    destruct (label_map !! label) as [label_id |]; [| done].
    cbn [mbind option_bind]. apply IH.
    + rewrite !length_app. simpl. lia.
    + apply Forall_app. split; [done | by constructor].
    + unfold AbsaSpec.total_sub_tokens in *.
      rewrite fmap_app, sum_list_with_app, length_app, Htok. simpl. lia.
Qed.

(** With known labels the loop over the words does not raise. *)
Lemma word_loop_total items acc :
  Forall (AbsaSpec.label_known label_map) items ->
  is_Some (AbsaUtils.word_loop tokenize pad_token_label_id label_map acc items).
Proof.
  intros Hok. revert acc. induction Hok as [| item items Hitem Hok IH]; intros acc.
  - by eexists.
  - destruct acc as [[[tokens label_ids] heads] sub_toks].
    destruct item as [[[[word label] head] pos] sub_tok].
    destruct Hitem as [label_id Hlabel].
    cbn [AbsaUtils.word_loop AbsaUtils.word_step].
    destruct (0 <? length (tokenize word)); [rewrite Hlabel |];
      cbn [mbind option_bind]; apply IH.
Qed.

(** Whenever the example loop reaches the assertion, its condition holds,
    and the array it is about has as many rows and columns as its shape
    says. *)
Lemma features_prefix_assertion σ ex tokens label_ids binary_heads σ' :
  Forall (AbsaSpec.item_split tokenize) (AbsaUtils.example_items ex) ->
  AbsaUtils.features_prefix tokenize pad_token_label_id label_map ex σ
  = Some ((tokens, label_ids, binary_heads), σ') ->
  AbsaUtils.shape_assertion tokens binary_heads = true /\
  AbsaUtils.wf_ndarray binary_heads /\
  length (AbsaUtils.data binary_heads) = length tokens + 1.
Proof.
  intros Hok. unfold AbsaUtils.features_prefix.
  destruct (AbsaUtils.word_loop _ _ _ _ _) as [[[[tks ids] heads] sub_toks] |] eqn:E;
    [| done].
  destruct (word_loop_inv _ [] [] [] [] _ _ _ _ Hok eq_refl (Forall_nil_2 _)
              eq_refl E) as (Hlen & Hne & Htok).
  destruct (binary_heads_run σ heads sub_toks Hlen Hne) as (hs' & σ1 & E').
  rewrite M_bind_run in E'. rewrite M_bind_run.
  destruct (AbsaUtils.new_lists _ σ) as [[rows σ0] |]; [| done].
  rewrite M_bind_run, E'. intros [= <- _ <- _].
  pose proof (binary_heads_wf heads sub_toks Hlen Hne) as Hwf.
  split; [| split; [exact Hwf |]].
  - unfold AbsaUtils.shape_assertion. cbn [AbsaUtils.shape0 AbsaUtils.shape1].
    rewrite Htok. apply andb_true_intro. split; by apply Nat.eqb_eq.
  - destruct Hwf as [Hrows _]. cbn [AbsaUtils.data AbsaUtils.shape0] in *.
    by rewrite Hrows, Htok.
Qed.

(** With known labels the example loop reaches the assertion. *)
Lemma features_prefix_reaches σ ex :
  Forall (AbsaSpec.item_split tokenize) (AbsaUtils.example_items ex) ->
  Forall (AbsaSpec.label_known label_map) (AbsaUtils.example_items ex) ->
  is_Some (AbsaUtils.features_prefix tokenize pad_token_label_id label_map ex σ).
Proof.
  intros Hok Hlabels. unfold AbsaUtils.features_prefix.
  destruct (word_loop_total _ ([], [], [], []) Hlabels)
    as [[[[tks ids] heads] sub_toks] E].
  rewrite E.
  destruct (word_loop_inv _ [] [] [] [] _ _ _ _ Hok eq_refl (Forall_nil_2 _)
              eq_refl E) as (Hlen & Hne & Htok).
  destruct (binary_heads_run σ heads sub_toks Hlen Hne) as (hs' & σ1 & E').
  rewrite M_bind_run in E'. rewrite M_bind_run.
  destruct (AbsaUtils.new_lists _ σ) as [[rows σ0] |]; [| done].
  rewrite M_bind_run, E'. by eexists.
Qed.
End Loop.

(** C2.  [apply_heads_to_subtokens(binarize_multi_hot(heads), sub_tokens)]
    on [n] head lists and [n] non-empty subtoken lists of [m] subtokens in
    all is a square matrix of shape [(m + 1, m + 1)]: an array whose shape
    is [(m + 1, m + 1)] and which has [m + 1] rows of [m + 1] entries each,
    the rows being those of the subtoken-level head matrix.  Consequently,
    in [convert_examples_to_features], when the tokenizer splits every word
    into the subtokens listed for it (at least one), the assertion on the
    shape holds whenever it is reached, of an array that has one row and
    one column per token and one more; and it is reached when the labels are
    keys of the label map. *)
Theorem binary_heads_square :
  (forall σ heads st,
      length heads = length st ->
      Forall (fun sub => sub ≠ []) st ->
      exists hs' a σ',
        (rows ← AbsaUtils.new_lists (AbsaUtils.binarize_multi_hot heads);
         AbsaUtils.apply_heads_to_subtokens rows st false) σ
        = Some ((hs', a), σ') /\
        AbsaUtils.shape0 a = AbsaSpec.total_sub_tokens st + 1 /\
        AbsaUtils.shape1 a = AbsaSpec.total_sub_tokens st + 1 /\
        AbsaUtils.wf_ndarray a /\
        AbsaUtils.data a
        = AbsaSpec.subtoken_heads false (AbsaUtils.binarize_multi_hot heads) st) /\
  (forall tokenize pad_token_label_id label_map σ ex,
      Forall (AbsaSpec.item_split tokenize) (AbsaUtils.example_items ex) ->
      (forall tokens label_ids binary_heads σ',
          AbsaUtils.features_prefix tokenize pad_token_label_id label_map ex σ
          = Some ((tokens, label_ids, binary_heads), σ') ->
          AbsaUtils.shape_assertion tokens binary_heads = true /\
          AbsaUtils.wf_ndarray binary_heads /\
          length (AbsaUtils.data binary_heads) = length tokens + 1 /\
          Forall (fun row => length row = length tokens + 1)
                 (AbsaUtils.data binary_heads)) /\
      (Forall (AbsaSpec.label_known label_map) (AbsaUtils.example_items ex) ->
       is_Some (AbsaUtils.features_prefix tokenize pad_token_label_id
                  label_map ex σ))).
Proof.
  split.
  - intros σ heads st Hlen Hne.
    destruct (binary_heads_run σ heads st Hlen Hne) as (hs' & σ' & E).
    pose proof (binary_heads_wf heads st Hlen Hne) as Hwf.
    eexists _, _, _. split; [exact E |].
    cbn [AbsaUtils.shape0 AbsaUtils.shape1 AbsaUtils.data].
    split; [reflexivity |]. split; [reflexivity |].
    split; [exact Hwf | reflexivity].
  - intros tokenize pad label_map σ ex Hok. split.
    + intros tokens label_ids binary_heads σ' Hrun.
      destruct (features_prefix_assertion _ _ _ _ _ _ _ _ _ Hok Hrun)
        as (Hassert & [Hrows Hcols] & Hlen).
      split; [exact Hassert |]. split; [by split |]. split; [exact Hlen |].
      unfold AbsaUtils.shape_assertion in Hassert.
      apply andb_prop in Hassert as [_ H1]. apply Nat.eqb_eq in H1.
      by rewrite <- H1.
    + by apply features_prefix_reaches.
Qed.

(** The example loop on a two-word example whose first word the tokenizer
    splits in two: three tokens and a 4-by-4 matrix. *)
Example features_prefix_example :
  (fun r => (r.1.1.1, AbsaUtils.shape0 r.1.2, AbsaUtils.shape1 r.1.2)) <$>
    AbsaUtils.features_prefix
      (fun w => if String.eqb w "playing" then ["play"; "##ing"] else [w])%string
      (-100)%Z (AbsaUtils.make_label_map ["O"; "B-ASP"]%string)
      (AbsaUtils.mk_InputExample "train-1" ["playing"; "well"] ["O"; "O"]
         [[2]; [1]]%Z [["well"]; ["playing"]] ["VERB"; "ADV"]
         [["play"; "##ing"]; ["well"]])%string []
  = Some (["play"; "##ing"; "well"]%string, 4, 4).
Proof. vm_compute. reflexivity. Qed.

(** A concrete instance of C2: the docstring's head lists with subtoken
    lists of two and one subtokens, and a two-word example whose first word
    the tokenizer splits in two. *)
Lemma binary_heads_square_witness :
  (exists hs' a σ',
      (rows ← AbsaUtils.new_lists (AbsaUtils.binarize_multi_hot [[1]; [0; 1]]%Z);
       AbsaUtils.apply_heads_to_subtokens rows
         [["play"; "##ing"]; ["well"]]%string false) []
      = Some ((hs', a), σ') /\
      AbsaUtils.shape0 a = 4 /\ AbsaUtils.shape1 a = 4 /\
      AbsaUtils.wf_ndarray a /\
      AbsaUtils.data a
      = [[0; 0; 0; 0]; [0; 1; 0; 0]; [0; 1; 0; 0]; [1; 1; 0; 0]]%Z) /\
  is_Some
    (AbsaUtils.features_prefix
       (fun w => if String.eqb w "playing" then ["play"; "##ing"] else [w])%string
       (-100)%Z (AbsaUtils.make_label_map ["O"; "B-ASP"]%string)
       (AbsaUtils.mk_InputExample "train-1" ["playing"; "well"] ["O"; "O"]
          [[2]; [1]]%Z [["well"]; ["playing"]] ["VERB"; "ADV"]
          [["play"; "##ing"]; ["well"]])%string []).
Proof.
  split.
  - apply (proj1 binary_heads_square [] [[1]; [0; 1]]%Z
             [["play"; "##ing"]; ["well"]]%string).
    + reflexivity.
    + by repeat constructor.
  - apply (proj2 binary_heads_square).
    + cbn. by repeat constructor.
    + cbn. repeat constructor; by eexists.
Defined.
End BinaryHeadsShape.

(** ** apply_heads_to_subtokens works in place *)

Section InPlace.
Import AbsaSim.

Lemma snapshot_store hs σ rows σ' :
  AbsaUtils.snapshot hs σ = Some (rows, σ') -> σ' = σ.
Proof.
  revert rows. induction hs as [| r hs IH]; intros rows; simpl.
  - by intros [= _ <-].
  - rewrite M_bind_run. unfold AbsaUtils.deref at 1.
    destruct (σ !! r) as [row |]; [| done]. rewrite M_bind_run.
    destruct (AbsaUtils.snapshot hs σ) as [[rows0 σ0] |] eqn:E; [| done].
    intros [= _ <-]. by eapply IH.
Qed.

Lemma insert_sub_token_rows_length z i k hs σ hs' σ' :
  AbsaUtils.insert_sub_token_rows z i k hs σ = Some (hs', σ') ->
  length hs' = length hs + k.
Proof.
  revert hs σ. induction k as [| k IH]; intros hs σ.
  - intros [= <- _]. lia.
  - cbn [AbsaUtils.insert_sub_token_rows]. rewrite M_bind_run.
    unfold AbsaUtils.getitem, AbsaUtils.raise.
    destruct (hs !! i) as [r |]; [| done].
    unfold mret at 1, AbsaUtils.M_ret at 1. rewrite M_bind_run.
    unfold AbsaUtils.deref at 1. destruct (σ !! r) as [row |]; [| done].
    rewrite M_bind_run. unfold AbsaUtils.alloc at 1.
    intros E. apply IH in E. rewrite py_insert_length in E. lia.
Qed.

Lemma expand_rows_length z st idxs hs σ hs' σ' :
  AbsaUtils.expand_rows z st idxs hs σ = Some (hs', σ') ->
  length hs <= length hs'.
Proof.
  revert hs σ. induction idxs as [| i idxs IH]; intros hs σ.
  - by intros [= <- _].
  - cbn [AbsaUtils.expand_rows]. rewrite M_bind_run.
    unfold AbsaUtils.getitem, AbsaUtils.raise.
    destruct (st !! i) as [sub |]; [| done].
    unfold mret at 1, AbsaUtils.M_ret at 1. rewrite M_bind_run.
    destruct (AbsaUtils.insert_sub_token_rows _ _ _ _ _) as [[hs1 σ1] |] eqn:E;
      [| done].
    intros E'. apply IH in E'. apply insert_sub_token_rows_length in E. lia.
Qed.

Lemma np_array_data rows a : AbsaUtils.np_array rows = Some a -> AbsaUtils.data a = rows.
Proof.
  unfold AbsaUtils.np_array. destruct rows as [| row rows]; [done |].
  destruct (forallb _ _); [| done]. by intros [= <-].
Qed.

(** The array a call returns, if it returns. *)
Lemma returned_array z st σ hs H :
  distinct_rows σ hs H ->
  (fun r => r.1.2) <$> AbsaUtils.apply_heads_to_subtokens hs st z σ
  = AbsaValues.apply_heads_to_subtokens H st z ≫= AbsaUtils.np_array.
Proof.
  intros HD. unfold AbsaUtils.apply_heads_to_subtokens. rewrite M_bind_run.
  pose proof (apply_heads_to_subtokens_lists_sim z st σ hs H HD) as Hsim.
  destruct (AbsaUtils.apply_heads_to_subtokens_lists hs st z σ)
    as [[[hs' rows] σ'] |],
    (AbsaValues.apply_heads_to_subtokens H st z) as [R |]; try done.
  destruct Hsim as [-> _]. cbn [mbind option_bind].
  by destruct (AbsaUtils.np_array R).
Qed.

(** C4, as the code has it.  [apply_heads_to_subtokens] works in place:
    whenever a call returns, the caller's list [heads] has grown and holds
    exactly the rows of the returned array.  [sub_tokens] is only read.
    When the rows of [heads] are pairwise distinct list objects, the
    returned array depends on the values of the arguments only. *)
Theorem apply_heads_to_subtokens_in_place :
  (forall σ hs st z hs' a σ',
      AbsaUtils.apply_heads_to_subtokens hs st z σ = Some ((hs', a), σ') ->
      length hs < length hs' /\
      AbsaUtils.snapshot hs' σ' = Some (AbsaUtils.data a, σ')) /\
  (forall σ1 hs1 σ2 hs2 H st z,
      distinct_rows σ1 hs1 H ->
      distinct_rows σ2 hs2 H ->
      (fun r => r.1.2) <$> AbsaUtils.apply_heads_to_subtokens hs1 st z σ1
      = (fun r => r.1.2) <$> AbsaUtils.apply_heads_to_subtokens hs2 st z σ2).
Proof.
  split.
  - intros σ hs st z hs' a σ'.
    unfold AbsaUtils.apply_heads_to_subtokens,
      AbsaUtils.apply_heads_to_subtokens_lists.
    rewrite !M_bind_run.
    destruct (AbsaUtils.expand_rows _ _ _ _ _) as [[hs1 σ1] |] eqn:E1; [| done].
    rewrite M_bind_run.
    destruct (AbsaUtils.for_each _ _ _) as [[[] σ2] |]; [| done].
    rewrite M_bind_run. unfold AbsaUtils.alloc at 1. rewrite py_insert_0.
    rewrite M_bind_run.
    destruct (AbsaUtils.snapshot _ _) as [[rows σ3] |] eqn:E3; [| done].
    unfold mret at 1, AbsaUtils.M_ret at 1.
    destruct (AbsaUtils.np_array rows) as [a0 |] eqn:Ea; [| done].
    intros [= <- <- <-].
    apply expand_rows_length in E1.
    pose proof (snapshot_store _ _ _ _ E3) as ->.
    rewrite (np_array_data _ _ Ea). split; [simpl; lia | exact E3].
  - intros σ1 hs1 σ2 hs2 H st z HD1 HD2.
    by rewrite (returned_array z st σ1 hs1 H), (returned_array z st σ2 hs2 H).
Qed.

(** A concrete instance: one word of two subtokens. *)
Lemma apply_heads_to_subtokens_in_place_witness :
  (1 < 3 /\
   AbsaUtils.snapshot [2; 0; 1] [[0; 1; 0]; [0; 1; 0]; [0; 0; 0]]%Z
   = Some ([[0; 0; 0]; [0; 1; 0]; [0; 1; 0]]%Z,
           [[0; 1; 0]; [0; 1; 0]; [0; 0; 0]]%Z)) /\
  (fun r => r.1.2) <$>
    AbsaUtils.apply_heads_to_subtokens [0] [["play"; "##ing"]]%string false
      [[0; 1]]%Z
  = (fun r => r.1.2) <$>
      AbsaUtils.apply_heads_to_subtokens [1] [["play"; "##ing"]]%string false
        [[7]; [0; 1]]%Z.
Proof.
  split.
  - apply (proj1 apply_heads_to_subtokens_in_place [[0; 1]]%Z [0]
             [["play"; "##ing"]]%string false [2; 0; 1]
             (AbsaUtils.mk_ndarray 3 3 [[0; 0; 0]; [0; 1; 0]; [0; 1; 0]]%Z)
             [[0; 1; 0]; [0; 1; 0]; [0; 0; 0]]%Z).
    reflexivity.
  - apply (proj2 apply_heads_to_subtokens_in_place [[0; 1]]%Z [0]
             [[7]; [0; 1]]%Z [1] [[0; 1]]%Z).
    + split; [apply NoDup_singleton | by repeat constructor].
    + split; [apply NoDup_singleton | by repeat constructor].
Defined.

(** When two positions of [heads] hold the same list object the zeros are
    inserted into it twice: the rows differ in length (and [np.array] has no
    2-D array to make), although the same values in distinct objects give
    four rows of four columns. *)
Example aliased_rows_ragged :
  fst <$> AbsaUtils.apply_heads_to_subtokens_lists [0; 0]
            [["a"; "##b"]; ["c"]]%string false [[1; 1; 1]]%Z
  = Some ([2; 0; 1; 0],
          [[0; 0; 0; 0]; [1; 1; 0; 0; 1]; [1; 1; 0; 1]; [1; 1; 0; 0; 1]]%Z) /\
  fst <$> AbsaUtils.apply_heads_to_subtokens_lists [0; 1]
            [["a"; "##b"]; ["c"]]%string false [[1; 1; 1]; [1; 1; 1]]%Z
  = Some ([3; 0; 2; 1],
          [[0; 0; 0; 0]; [1; 1; 0; 1]; [1; 1; 0; 1]; [1; 1; 0; 1]]%Z).
Proof. split; reflexivity. Qed.

(** C4 as stated fails: the call changes the caller's [heads].  Before the
    call the list holds the row [[0, 1]]; after it, three rows of three
    columns. *)
Lemma apply_heads_to_subtokens_changes_heads :
  exists hs' a σ',
    AbsaUtils.apply_heads_to_subtokens [0] [["play"; "##ing"]]%string false
      [[0; 1]]%Z = Some ((hs', a), σ') /\
    fst <$> AbsaUtils.snapshot [0] [[0; 1]]%Z = Some [[0; 1]]%Z /\
    fst <$> AbsaUtils.snapshot hs' σ' = Some [[0; 0; 0]; [0; 1; 0]; [0; 1; 0]]%Z /\
    fst <$> AbsaUtils.snapshot hs' σ' ≠ fst <$> AbsaUtils.snapshot [0] [[0; 1]]%Z.
Proof.
  eexists _, _, _. split; [reflexivity |]. by repeat split.
Qed.
End InPlace.

(** ** pad_heads *)

Section PadHeads.
Import AbsaUtils.

Lemma float_of_int_0 : float_of_int 0 = S754_zero false.
Proof. reflexivity. Qed.

Lemma float_of_int_1 : float_of_int 1 = S754_finite false 4503599627370496 (-52).
Proof. reflexivity. Qed.

Lemma entry_Some_lt {A} (a : ndarray A) i j x :
  wf_ndarray a -> entry a i j = Some x -> i < shape0 a /\ j < shape1 a.
Proof.
  intros [Hlen Hrows]. unfold entry.
  destruct (data a !! i) as [row |] eqn:E; [| done]. simpl. intros Hj.
  split.
  - rewrite <- Hlen. by eapply lookup_lt_Some.
  - rewrite Forall_forall in Hrows.
    rewrite <- (Hrows row) by by eapply list_elem_of_lookup_2.
    by eapply lookup_lt_Some.
Qed.

Lemma entry_lt_Some {A} (a : ndarray A) i j :
  wf_ndarray a -> i < shape0 a -> j < shape1 a -> is_Some (entry a i j).
Proof.
  intros [Hlen Hrows] Hi Hj. unfold entry.
  destruct (lookup_lt_is_Some_2 (data a) i ltac:(lia)) as [row E].
  rewrite E. simpl. apply lookup_lt_is_Some_2.
  rewrite Forall_forall in Hrows.
  rewrite (Hrows row) by by eapply list_elem_of_lookup_2. done.
Qed.
(** The rows of the padded array, written out. *)
Lemma pad_heads_data (a : ndarray Z) :
  wf_ndarray a ->
  pad_heads a
  = Some (mk_ndarray 64 64
            (((fun arow => (float_of_int <$> take 64 arow)
                           ++ replicate (64 - shape1 a `min` 64) (S754_zero false))
                <$> take 64 (data a))
             ++ replicate (64 - shape0 a `min` 64)
                  (replicate 64 (S754_zero false)))).
Proof.
  intros [Hlen Hrows]. unfold pad_heads, assign_slice2.
  cbn [shape0 shape1 data np_zeros slice2].
  assert (((64 `min` shape0 a =? shape0 a `min` 64)
           && (64 `min` shape1 a =? shape1 a `min` 64)) = true) as ->.
  { apply andb_true_intro. split; apply Nat.eqb_eq; lia. }
  f_equal. f_equal. f_equal.
  - rewrite take_replicate, zip_with_replicate_l.
    + rewrite <- list_fmap_compose. apply list_fmap_ext.
      intros _ arow _. unfold compose. by rewrite drop_replicate.
    + rewrite length_fmap, length_take. lia.
  - by rewrite drop_replicate.
Qed.

(** The padded array has 64 rows of 64 entries. *)
Lemma pad_heads_wf (a : ndarray Z) :
  wf_ndarray a ->
  wf_ndarray
    (mk_ndarray 64 64
       (((fun arow => (float_of_int <$> take 64 arow)
                      ++ replicate (64 - shape1 a `min` 64) (S754_zero false))
           <$> take 64 (data a))
        ++ replicate (64 - shape0 a `min` 64)
             (replicate 64 (S754_zero false)))).
Proof.
  intros [Hlen Hrows]. rewrite Forall_forall in Hrows.
  split; cbn [shape0 shape1 data].
  - rewrite length_app, length_fmap, length_take, length_replicate, Hlen. lia.
  - apply Forall_app. split.
    + apply Forall_fmap, Forall_forall. intros arow Hin.
      apply (subseteq_take 64 (data a)) in Hin. cbn.
      rewrite length_app, length_fmap, length_take, length_replicate,
        (Hrows arow Hin).
      lia.
    + apply Forall_replicate, length_replicate.
Qed.

(** C3.  For a binary head matrix [a], [pad_heads(a)] is a 64-by-64 float
    array; at an index where [a] is defined too it holds [a]'s entry (1.0
    for 1 and 0.0 for 0), and 0.0 at every other index. *)
Theorem pad_heads_spec (a : ndarray Z) :
  wf_ndarray a ->
  Forall (Forall (fun x => x = 0%Z \/ x = 1%Z)) (data a) ->
  exists t,
    pad_heads a = Some t /\
    shape0 t = 64 /\ shape1 t = 64 /\ wf_ndarray t /\
    forall i j, i < 64 -> j < 64 ->
      entry t i j
      = Some (match entry a i j with
              | Some x => if (x =? 1)%Z
                          then S754_finite false 4503599627370496 (-52)
                          else S754_zero false
              | None => S754_zero false
              end).
Proof.
  intros Hwf Hbin. pose proof Hwf as [Hlen Hrows].
  rewrite pad_heads_data by done. eexists. split; [reflexivity |].
  split; [reflexivity |]. split; [reflexivity |].
  rewrite Forall_forall in Hrows.
  assert (Hrow : forall arow, arow ∈ take 64 (data a) ->
            length ((float_of_int <$> take 64 arow)
                    ++ replicate (64 - shape1 a `min` 64) (S754_zero false)) = 64).
  { intros arow Hin. apply (subseteq_take 64 (data a)) in Hin.
    rewrite length_app, length_fmap, length_take, length_replicate, (Hrows arow Hin).
    lia. }
  split.
  - split; cbn [shape0 shape1 data].
    + rewrite length_app, length_fmap, length_take, length_replicate, Hlen. lia.
    + apply Forall_app. split.
      * apply Forall_fmap, Forall_forall. intros arow Hin. by apply Hrow.
      * apply Forall_replicate, length_replicate.
  - intros i j Hi Hj. unfold entry at 1. cbn [data].
    rewrite lookup_app, list_lookup_fmap, lookup_take_lt by done.
    unfold entry.
    destruct (data a !! i) as [arow |] eqn:E; cbn [fmap option_fmap option_map mbind option_bind].
    + assert (Hin : arow ∈ data a) by by eapply list_elem_of_lookup_2.
      rewrite lookup_app, list_lookup_fmap.
      destruct (decide (j < shape1 a)) as [Hlt | Hge].
      * rewrite lookup_take_lt by done.
        destruct (lookup_lt_is_Some_2 arow j) as [x Ex];
          [by rewrite (Hrows arow Hin) |].
        rewrite Ex. cbn [fmap option_fmap option_map]. f_equal.
        rewrite Forall_forall in Hbin. specialize (Hbin arow Hin).
        rewrite Forall_forall in Hbin.
        by destruct (Hbin x (list_elem_of_lookup_2 _ _ _ Ex)) as [-> | ->].
      * rewrite (proj2 (lookup_ge_None arow j)) by (rewrite (Hrows arow Hin); lia).
        rewrite (proj2 (lookup_take_None _ _ _)); [| left; apply lookup_ge_None;
          rewrite (Hrows arow Hin); lia].
        cbn [fmap option_fmap option_map].
        rewrite length_fmap, length_take, (Hrows arow Hin).
        apply lookup_replicate_2. lia.
    + apply lookup_ge_None in E.
      rewrite length_fmap, length_take.
      rewrite lookup_replicate_2 by lia. cbn [mbind option_bind].
      by apply lookup_replicate_2.
Qed.

(** A concrete instance of C3: a 2-by-3 matrix. *)
Lemma pad_heads_spec_witness :
  exists t,
    pad_heads (mk_ndarray 2 3 [[0; 1; 0]; [1; 1; 0]]%Z) = Some t /\
    shape0 t = 64 /\ shape1 t = 64 /\ wf_ndarray t /\
    forall i j, i < 64 -> j < 64 ->
      entry t i j
      = Some (match entry (mk_ndarray 2 3 [[0; 1; 0]; [1; 1; 0]]%Z) i j with
              | Some x => if (x =? 1)%Z
                          then S754_finite false 4503599627370496 (-52)
                          else S754_zero false
              | None => S754_zero false
              end).
Proof.
  apply (pad_heads_spec (mk_ndarray 2 3 [[0; 1; 0]; [1; 1; 0]]%Z)).
  - split; [reflexivity | by repeat constructor].
  - repeat first [apply Forall_nil_2 | apply Forall_cons_2 | by left | by right].
Defined.
End PadHeads.

(** ** review_to_sentiment *)

Section ReviewToSentiment.
Import Sentiment.

(** C6 as stated fails: the score text "nan" parses to the float NaN, which
    is neither greater nor less than 0; the review is labelled neutral
    although its score does not equal 0. *)
Lemma review_to_sentiment_nan :
  review_to_sentiment (fun s => s)
    (fun s => if String.eqb s "nan" then Some S754_nan else None)
    ["nan"; "fine"]%string
  = Some ["neutral"; "fine"]%string /\
  SFeqb S754_nan zero = false.
Proof. split; reflexivity. Qed.

(** C6, as the code has it.  For a row whose score text parses to [score],
    the result is the pair of a label and the normalized text; the label is
    "positive" exactly when [score > 0], "negative" exactly when
    [score < 0], and "neutral" exactly when the score is neither, that is
    when it equals 0 or is NaN. *)
Theorem review_to_sentiment_spec normalize float review score_text text score :
  review !! 0 = Some score_text ->
  review !! 1 = Some text ->
  float score_text = Some score ->
  exists label,
    review_to_sentiment normalize float review = Some [label; normalize text] /\
    (label = "positive"%string <-> SFltb zero score = true) /\
    (label = "negative"%string <-> SFltb score zero = true) /\
    (label = "neutral"%string <-> SFeqb score zero = true \/ score = S754_nan).
Proof.
  intros H0 H1 Hf. unfold review_to_sentiment.
  rewrite H1, H0. cbn [mbind option_bind]. rewrite Hf. cbn [mbind option_bind].
  destruct score as [s | s | | s m e]; try destruct s; cbn;
    eexists; (split; [reflexivity |]); repeat split; intros; try done;
    try (by left); try (by right); try (destruct H as [? | ?]; done).
Qed.

(** A concrete instance of C6: the score 2.0. *)
Lemma review_to_sentiment_spec_witness :
  exists label,
    review_to_sentiment (fun s => s)
      (fun s => if String.eqb s "2" then Some (S754_finite false 4503599627370496 (-51)) else None)
      ["2"; "good"]%string
    = Some [label; "good"]%string /\
    (label = "positive"%string <-> SFltb zero (S754_finite false 4503599627370496 (-51)) = true) /\
    (label = "negative"%string <-> SFltb (S754_finite false 4503599627370496 (-51)) zero = true) /\
    (label = "neutral"%string
     <-> SFeqb (S754_finite false 4503599627370496 (-51)) zero = true \/ S754_finite false 4503599627370496 (-51) = S754_nan).
Proof.
  apply (review_to_sentiment_spec (fun s => s)
           (fun s => if String.eqb s "2" then Some (S754_finite false 4503599627370496 (-51)) else None)
           ["2"; "good"]%string "2"%string "good"%string (S754_finite false 4503599627370496 (-51)));
    reflexivity.
Defined.
End ReviewToSentiment.

(** ** prepare_data.py: the dictionaries *)

Section DictInvariant.
Import PrepareData PrepareSpec.
Variable spacy_normalizer : string -> string -> string.

Lemma dict_inv_empty : dict_inv empty_dicts.
Proof.
  split; [split |].
  - reflexivity.
  - intros norm rep H. cbn [empty_dicts id2rep] in H. by rewrite lookup_empty in H.
  - intros norm group np H. cbn [empty_dicts id2group] in H.
    by rewrite lookup_empty in H.
Qed.

(** Counting a noun phrase keeps every counted phrase counted. *)
Lemma count_keeps (m : gmap string nat) np x :
  is_Some (m !! x) ->
  is_Some (match m !! np with
           | None => <[np := 1]> m
           | Some c => <[np := c + 1]> m
           end !! x).
Proof.
  intros Hx. destruct (decide (np = x)) as [-> | Hne].
  - destruct (m !! x); rewrite lookup_insert_eq; by eexists.
  - destruct (m !! np); by rewrite lookup_insert_ne.
Qed.

Lemma count_self (m : gmap string nat) np :
  is_Some (match m !! np with
           | None => <[np := 1]> m
           | Some c => <[np := c + 1]> m
           end !! np).
Proof. destruct (m !! np); rewrite lookup_insert_eq; by eexists. Qed.

(** The update for one noun phrase never raises on dictionaries that
    satisfy the invariant, and keeps it. *)
Lemma note_span_inv np lemma d :
  dict_inv d ->
  exists d', note_span spacy_normalizer np lemma d = Some d' /\ dict_inv d' /\
    is_Some (id2rep d' !! spacy_normalizer np lemma).
Proof.
  intros [[Hdom Hrep] Hcnt]. unfold note_span.
  set (norm := spacy_normalizer np lemma).
  set (c1 := match np2count d !! np with
             | None => <[np := 1]> (np2count d)
             | Some c => <[np := c + 1]> (np2count d)
             end).
  destruct (id2group d !! norm) as [group |] eqn:EG.
  - assert (Hin : norm ∈ dom (id2rep d)).
    { rewrite <- Hdom. apply elem_of_dom. by eexists. }
    apply elem_of_dom in Hin as [rep0 ER]. rewrite ER.
    destruct (Hrep _ _ ER) as (g & Eg & Hrep0).
    rewrite EG in Eg. injection Eg as <-.
    case_bool_decide as Hnp.
    + eexists. split; [reflexivity |]. split; [split; [split |] |];
        unfold counted; cbn [id2group id2rep np2count np2id].
      * rewrite dom_insert_L, Hdom. apply elem_of_dom_2 in ER.
        apply subseteq_union_1_L. by apply singleton_subseteq_l.
      * intros n r Hr. destruct (decide (n = norm)) as [-> | Hne].
        -- rewrite lookup_insert_eq. eexists. split; [done |].
           rewrite ER in Hr. injection Hr as <-. apply elem_of_app. by left.
        -- rewrite lookup_insert_ne by done. by apply Hrep.
      * intros n g x Hg Hx. destruct (decide (n = norm)) as [-> | Hne].
        -- rewrite lookup_insert_eq in Hg. injection Hg as <-.
           apply elem_of_app in Hx as [Hx | Hx].
           ++ apply count_keeps. by eapply Hcnt.
           ++ apply list_elem_of_singleton in Hx as ->. apply count_self.
        -- rewrite lookup_insert_ne in Hg by done.
           apply count_keeps. by eapply Hcnt.
      * by eexists.
    + destruct (count_self (np2count d) np) as [cnp Ecnp]. fold c1 in Ecnp.
      destruct (count_keeps (np2count d) np rep0) as [crep Ecrep];
        [by eapply Hcnt |]. fold c1 in Ecrep.
      rewrite Ecnp. cbn [mbind option_bind]. rewrite ER. cbn [mbind option_bind].
      rewrite Ecrep. cbn [mbind option_bind].
      assert (Hcnt' : forall n g x, id2group d !! n = Some g -> x ∈ g ->
                        is_Some (c1 !! x)).
      { intros n g x Hg Hx. apply count_keeps. by eapply Hcnt. }
      destruct (crep <? cnp).
      * eexists. split; [reflexivity |]. split; [split; [split |] |];
        unfold counted; cbn [id2group id2rep np2count np2id].
        -- rewrite dom_insert_L, Hdom. apply elem_of_dom_2 in ER.
           symmetry. apply subseteq_union_1_L. by apply singleton_subseteq_l.
        -- intros n r Hr. destruct (decide (n = norm)) as [-> | Hne].
           ++ rewrite lookup_insert_eq in Hr. injection Hr as <-. by eexists.
           ++ rewrite lookup_insert_ne in Hr by done. by apply Hrep.
        -- exact Hcnt'.
        -- rewrite lookup_insert_eq. by eexists.
      * eexists. split; [reflexivity |]. split; [split; [split |] |];
        unfold counted; cbn [id2group id2rep np2count np2id]; try done.
  - assert (ER : id2rep d !! norm = None).
    { apply not_elem_of_dom. rewrite <- Hdom. by apply not_elem_of_dom. }
    rewrite ER. eexists. split; [reflexivity |]. split; [split; [split |] |];
        unfold counted; cbn [id2group id2rep np2count np2id].
    + rewrite !dom_insert_L, Hdom. by rewrite (assoc_L (∪)), (idemp_L (∪)).
    + intros n r Hr. destruct (decide (n = norm)) as [-> | Hne].
      * rewrite lookup_insert_eq in Hr. injection Hr as <-.
        rewrite lookup_insert_eq. eexists. split; [done |]. left.
      * rewrite !lookup_insert_ne in Hr by done.
        rewrite lookup_insert_ne by done. by apply Hrep.
    + intros n g x Hg Hx. destruct (decide (n = norm)) as [-> | Hne].
      * rewrite lookup_insert_eq in Hg. injection Hg as <-.
        apply list_elem_of_singleton in Hx as ->. apply count_self.
      * rewrite lookup_insert_ne in Hg by done.
        apply count_keeps. by eapply Hcnt.
    + rewrite lookup_insert_eq. by eexists.
Qed.
End DictInvariant.

(** ** prepare_data.py: the marking loop keeps the dictionaries consistent *)

Section LoopInvariant.
Import PrepareData PrepareSpec.
Variable spacy_normalizer : string -> string -> string.
Variable mark_char : string.

Lemma marked_text_Some np lemma d :
  is_Some (id2rep d !! spacy_normalizer np lemma) ->
  exists rep,
    id2rep d !! spacy_normalizer np lemma = Some rep /\
    marked_text spacy_normalizer mark_char np lemma d
    = Some (replace_space mark_char rep +:+ mark_char +:+ " ").
Proof.
  intros [rep E]. exists rep. split; [done |]. unfold marked_text. by rewrite E.
Qed.

Lemma token_step_inv st token :
  dict_inv (dict st) ->
  exists st', token_step spacy_normalizer mark_char st token = Some st' /\
    dict_inv (dict st').
Proof.
  intros Hinv. unfold token_step.
  destruct (span st) as [sp |]; [| by eexists].
  destruct (_ || _); [by eexists |].
  destruct (spanWritten st); cbn [negb].
  - cbn [mbind option_bind].
    destruct (_ =? _); [destruct (next_span (spans st)) |]; by eexists.
  - destruct (note_span_inv spacy_normalizer (span_text sp) (lemma_ sp) _ Hinv)
      as (d' & -> & Hinv' & Hsome).
    cbn [mbind option_bind].
    destruct (marked_text_Some _ _ _ Hsome) as (rep & _ & ->).
    cbn [mbind option_bind].
    destruct (_ =? _); [destruct (next_span (spans st)) |]; by eexists.
Qed.

Lemma token_loop_inv ts st :
  dict_inv (dict st) ->
  exists st', token_loop spacy_normalizer mark_char st ts = Some st' /\
    dict_inv (dict st').
Proof.
  revert st. induction ts as [| token ts IH]; intros st Hinv; [by eexists |].
  cbn [token_loop].
  destruct (token_step_inv st token Hinv) as (st1 & -> & Hinv1).
  cbn [mbind option_bind]. by apply IH.
Qed.

Lemma mark_doc_inv doc d out :
  dict_inv d ->
  exists d' out', mark_doc spacy_normalizer mark_char doc d out = Some (d', out') /\
    dict_inv d'.
Proof.
  intros Hinv. unfold mark_doc. destruct (next_span (noun_chunks doc)) as [sp ss].
  destruct (token_loop_inv (tokens doc) (mk_loop_state sp ss false d out) Hinv)
    as (st' & -> & Hinv').
  cbn [mbind option_bind]. by eexists _, _.
Qed.

Lemma mark_docs_inv docs d out :
  dict_inv d ->
  exists d' out', mark_docs spacy_normalizer mark_char docs d out = Some (d', out') /\
    dict_inv d'.
Proof.
  revert d out. induction docs as [| doc docs IH]; intros d out Hinv;
    [by eexists _, _ |].
  cbn [mark_docs].
  destruct (mark_doc_inv doc d out Hinv) as (d1 & out1 & -> & Hinv1).
  cbn [mbind option_bind]. by apply IH.
Qed.

Lemma note_spans_inv nps d :
  dict_inv d ->
  exists d', note_spans spacy_normalizer nps d = Some d' /\ dict_inv d'.
Proof.
  revert d. induction nps as [| [np lemma] nps IH]; intros d Hinv; [by eexists |].
  cbn [note_spans].
  destruct (note_span_inv spacy_normalizer np lemma d Hinv) as (d1 & -> & Hinv1 & _).
  cbn [mbind option_bind]. by apply IH.
Qed.
End LoopInvariant.

(** C10.  From the empty dictionaries, after any sequence of noun-phrase
    spans has been processed the update has not raised, [id2group] and
    [id2rep] have the same key set and every [id2rep[norm]] is an element of
    [id2group[norm]]; so it is at the end of the marking loop over any
    documents. *)
Theorem id2group_id2rep_consistent :
  (forall spacy_normalizer nps,
      exists d,
        PrepareSpec.note_spans spacy_normalizer nps PrepareData.empty_dicts = Some d /\
        PrepareSpec.groups_inv d) /\
  (forall spacy_normalizer mark_char docs,
      exists d out,
        PrepareData.main spacy_normalizer mark_char docs = Some (d, out) /\
        PrepareSpec.groups_inv d).
Proof.
  split.
  - intros norm nps.
    destruct (note_spans_inv norm nps _ dict_inv_empty) as (d & E & [Hinv _]).
    by exists d.
  - intros norm mark docs.
    destruct (mark_docs_inv norm mark docs _ [] dict_inv_empty)
      as (d & out & E & [Hinv _]).
    by exists d, out.
Qed.

(** ** prepare_data.py: what is written to the marked corpus *)

Section MarkedCorpus.
Import PrepareData PrepareSpec.
Variable spacy_normalizer : string -> string -> string.
Variable mark_char : string.

Lemma in_order_elem b ts t :
  in_order b ts -> t ∈ ts -> b <= token_idx t /\ token_idx t < token_end t.
Proof.
  revert b. induction ts as [| t0 ts IH]; intros b Hord Hin.
  - by apply not_elem_of_nil in Hin.
  - destruct Hord as (Hb & Hlen & Hord).
    apply elem_of_cons in Hin as [-> | Hin].
    + unfold token_end. lia.
    + destruct (IH _ Hord Hin) as [H1 H2]. unfold token_end in *. lia.
Qed.

Lemma in_order_last b ts t0 :
  in_order b ts -> ts ≠ [] -> b < token_end (List.last ts t0).
Proof.
  revert b. induction ts as [| t ts IH]; intros b Hord Hne; [done |].
  destruct Hord as (Hb & Hlen & Hord).
  destruct ts as [| t' ts].
  - simpl. unfold token_end. lia.
  - change (List.last (t :: t' :: ts) t0) with (List.last (t' :: ts) t0).
    specialize (IH _ Hord ltac:(done)). unfold token_end in *. lia.
Qed.

Lemma last_cons_default {A} (a d : A) l : List.last (a :: l) d = List.last l a.
Proof.
  revert a d. induction l as [| x l IH]; intros a d; [done |].
  change (List.last (a :: x :: l) d) with (List.last (x :: l) d).
  rewrite IH. symmetry. apply IH.
Qed.

Lemma in_order_chunk b t ts rest :
  in_order b (t :: ts ++ rest) ->
  in_order b (t :: ts) /\ in_order (token_end (List.last ts t)) rest.
Proof.
  revert b t. induction ts as [| t' ts IH]; intros b t (Hb & Hlen & Hord).
  - simpl in *. by repeat split.
  - destruct (IH _ _ Hord) as [H1 H2].
    rewrite last_cons_default. split; [| done]. by split.
Qed.

Lemma token_loop_app st l1 l2 :
  token_loop spacy_normalizer mark_char st (l1 ++ l2)
  = token_loop spacy_normalizer mark_char st l1
    ≫= fun st' => token_loop spacy_normalizer mark_char st' l2.
Proof.
  revert st. induction l1 as [| t l1 IH]; intros st; [done |].
  cbn [app token_loop].
  destruct (token_step spacy_normalizer mark_char st t) as [st1 |]; [| done].
  cbn [mbind option_bind]. apply IH.
Qed.

(** The tokens of a chunk after the first: nothing is written, and the
    token that ends at the span's end moves on to the next span. *)
Lemma chunk_rest_run sp rest d out t0 ts :
  in_order (token_end t0) ts ->
  start_char sp <= token_end t0 ->
  end_char sp = token_end (List.last ts t0) ->
  ts ≠ [] ->
  token_loop spacy_normalizer mark_char (mk_loop_state (Some sp) rest true d out) ts
  = Some (mk_loop_state (next_span rest).1 (next_span rest).2 false d out).
Proof.
  revert t0. induction ts as [| t ts IH]; intros t0 Hord Hstart Hend Hne; [done |].
  destruct Hord as (Hb & Hlen & Hord).
  rewrite last_cons_default in Hend.
  cbn [token_loop]. unfold token_step at 1. cbn [span spans spanWritten dict written negb].
  assert (Hend_ge : token_end t <= end_char sp).
  { rewrite Hend. destruct ts as [| t' ts]; [done |].
    pose proof (in_order_last _ _ t Hord ltac:(done)). lia. }
  assert ((token_idx t <? start_char sp) = false) as -> by (apply Nat.ltb_ge; lia).
  assert ((end_char sp <=? token_idx t) = false) as ->
    by (apply Nat.leb_gt; unfold token_end in *; lia).
  cbn [orb mbind option_bind].
  fold (token_end t).
  destruct ts as [| t' ts].
  - simpl in Hend. rewrite Hend, Nat.eqb_refl.
    cbn [mbind option_bind token_loop]. by destruct (next_span rest).
  - assert ((token_end t =? end_char sp) = false) as ->.
    { apply Nat.eqb_neq. rewrite Hend.
      pose proof (in_order_last _ _ t Hord ltac:(done)). lia. }
    cbn [mbind option_bind]. apply (IH t); try done.
    unfold token_end in *. lia.
Qed.

(** A whole chunk: the update and one write at its first token. *)
Lemma chunk_run np lemma t ts rest d out b :
  in_order b (t :: ts) ->
  dict_inv d ->
  exists d' text,
    note_span spacy_normalizer np lemma d = Some d' /\
    marked_text spacy_normalizer mark_char np lemma d' = Some text /\
    dict_inv d' /\
    token_loop spacy_normalizer mark_char
      (mk_loop_state
         (Some (mk_Span (token_idx t) (token_end (List.last ts t)) np lemma))
         rest false d out) (t :: ts)
    = Some (mk_loop_state (next_span rest).1 (next_span rest).2 false d'
              (out ++ [text])).
Proof.
  intros (Hb & Hlen & Hord) Hinv.
  destruct (note_span_inv spacy_normalizer np lemma d Hinv) as (d' & En & Hinv' & Hsome).
  destruct (marked_text_Some spacy_normalizer mark_char _ _ _ Hsome) as (rep & _ & Em).
  eexists d', _. split; [done |]. split; [exact Em |]. split; [done |].
  cbn [token_loop]. unfold token_step at 1.
  cbn [span spans spanWritten dict written negb start_char end_char span_text lemma_].
  rewrite Nat.ltb_irrefl.
  assert (Hend_ge : token_end t <= token_end (List.last ts t)).
  { destruct ts as [| t' ts]; [done |].
    pose proof (in_order_last _ _ t Hord ltac:(done)). lia. }
  assert ((token_end (List.last ts t) <=? token_idx t) = false) as ->
    by (apply Nat.leb_gt; unfold token_end in *; lia).
  cbn [orb]. rewrite En. cbn [mbind option_bind]. rewrite Em.
  cbn [mbind option_bind]. fold (token_end t).
  destruct ts as [| t' ts].
  - simpl. rewrite Nat.eqb_refl. cbn [mbind option_bind]. by destruct (next_span rest).
  - assert ((token_end t =? token_end (List.last (t' :: ts) t)) = false) as ->.
    { apply Nat.eqb_neq. pose proof (in_order_last _ _ t Hord ltac:(done)). lia. }
    cbn [mbind option_bind].
    apply (chunk_rest_run _ rest d' _ t); try done.
    cbn [start_char]. unfold token_end. lia.
Qed.
Lemma first_span_token segs sp rest :
  omap segment_span segs = sp :: rest ->
  exists t, t ∈ segs ≫= segment_tokens /\ token_idx t = start_char sp.
Proof.
  induction segs as [| seg segs IH]; [done |].
  destruct seg as [t0 | np lemma t ts]; cbn [omap list_omap segment_span].
  - intros E. destruct (IH E) as (t & Hin & Ht). exists t. split; [| done].
    rewrite bind_cons. apply elem_of_app. by right.
  - intros [= <- _]. exists t. split; [| done].
    rewrite bind_cons. apply elem_of_app. left. cbn [segment_tokens]. left.
Qed.

Lemma write_token_app t out :
  write_token t out
  = out ++ (if not_blank (token_text t) then [token_text t +:+ " "] else []).
Proof. unfold write_token. destruct (not_blank _); [done | by rewrite app_nil_r]. Qed.

(** The loop over the tokens of a document writes the segments'
    contributions, in order, and ends with no span left. *)
Lemma token_loop_segments segs b d out :
  in_order b (segs ≫= segment_tokens) ->
  dict_inv d ->
  exists d' ws,
    expected_writes spacy_normalizer mark_char segs d = Some (d', ws) /\
    dict_inv d' /\
    token_loop spacy_normalizer mark_char
      (mk_loop_state (next_span (omap segment_span segs)).1
         (next_span (omap segment_span segs)).2 false d out)
      (segs ≫= segment_tokens)
    = Some (mk_loop_state None [] false d' (out ++ ws)).
Proof.
  revert b d out. induction segs as [| seg segs IH]; intros b d out Hord Hinv.
  - exists d, []. by rewrite app_nil_r.
  - rewrite bind_cons in *. destruct seg as [t | np lemma t ts].
    + cbn [segment_tokens app] in *. destruct Hord as (Hb & Hlen & Hord).
      cbn [omap list_omap segment_span expected_writes segment_writes
             mbind option_bind].
      destruct (IH (token_end t) d (write_token t out) Hord Hinv)
        as (d' & ws & -> & Hinv' & Hloop).
      cbn [mbind option_bind]. eexists _, _. split; [reflexivity |].
      split; [done |].
      cbn [token_loop]. unfold token_step at 1.
      cbn [span spans spanWritten dict written].
      destruct (omap segment_span segs) as [| sp rest] eqn:Esp.
      * cbn [next_span fst snd mbind option_bind] in *.
        rewrite Hloop, write_token_app. by rewrite <- (assoc_L (++)).
      * cbn [next_span fst snd] in *.
        destruct (first_span_token _ _ _ Esp) as (t' & Hin & Ht').
        destruct (in_order_elem _ _ _ Hord Hin) as [Hge _].
        assert ((token_idx t <? start_char sp) = true) as ->.
        { apply Nat.ltb_lt. unfold token_end in *. lia. }
        cbn [orb mbind option_bind].
        rewrite Hloop, write_token_app. by rewrite <- (assoc_L (++)).
    + cbn [segment_tokens] in *. rewrite <- app_comm_cons in Hord.
      destruct (in_order_chunk _ _ _ _ Hord) as [Hchunk Hrest].
      cbn [omap list_omap segment_span expected_writes segment_writes
             next_span fst snd].
      destruct (chunk_run np lemma t ts (omap segment_span segs) d out b
                  Hchunk Hinv) as (d1 & text & En & Em & Hinv1 & Hrun).
      rewrite En. cbn [mbind option_bind]. rewrite Em. cbn [mbind option_bind].
      destruct (IH _ d1 (out ++ [text]) Hrest Hinv1)
        as (d' & ws & -> & Hinv' & Hloop).
      cbn [mbind option_bind]. eexists _, _. split; [reflexivity |].
      split; [done |].
      rewrite token_loop_app, Hrun. cbn [mbind option_bind].
      rewrite Hloop. by rewrite <- (assoc_L (++)).
Qed.

(** One document. *)
Lemma mark_doc_segments segs d out :
  in_order 0 (tokens (doc_of segs)) ->
  dict_inv d ->
  exists d' ws,
    expected_writes spacy_normalizer mark_char segs d = Some (d', ws) /\
    dict_inv d' /\
    mark_doc spacy_normalizer mark_char (doc_of segs) d out
    = Some (d', out ++ ws ++ [String "010" EmptyString]).
Proof.
  intros Hord Hinv. cbn [doc_of tokens] in Hord.
  destruct (token_loop_segments segs 0 d out Hord Hinv)
    as (d' & ws & E & Hinv' & Hloop).
  exists d', ws. split; [done |]. split; [done |].
  unfold mark_doc. cbn [doc_of tokens noun_chunks].
  destruct (next_span (omap segment_span segs)) as [sp ss].
  cbn [fst snd] in Hloop. rewrite Hloop. cbn [mbind option_bind dict written].
  by rewrite <- (assoc_L (++)).
Qed.

Lemma mark_docs_segments docs d out :
  Forall (fun segs => in_order 0 (tokens (doc_of segs))) docs ->
  dict_inv d ->
  exists d' ws,
    expected_corpus spacy_normalizer mark_char docs d = Some (d', ws) /\
    mark_docs spacy_normalizer mark_char (doc_of <$> docs) d out
    = Some (d', out ++ ws).
Proof.
  intros Hdocs. revert d out.
  induction Hdocs as [| segs docs Hord Hdocs IH]; intros d out Hinv.
  - exists d, []. by rewrite app_nil_r.
  - destruct (mark_doc_segments segs d out Hord Hinv)
      as (d1 & ws1 & E1 & Hinv1 & Hdoc).
    destruct (IH d1 (out ++ ws1 ++ [String "010" EmptyString]) Hinv1)
      as (d' & ws & E & Hrun).
    cbn [expected_corpus fmap list_fmap mark_docs].
    rewrite E1. cbn [mbind option_bind]. rewrite E. cbn [mbind option_bind].
    eexists _, _. split; [reflexivity |].
    change ((fix go (l : list (list segment)) : list Doc :=
               match l with [] => [] | x :: l0 => doc_of x :: go l0 end) docs)
      with (doc_of <$> docs).
    rewrite Hdoc. cbn [mbind option_bind]. rewrite Hrun.
    by rewrite <- !(assoc_L (++)).
Qed.
End MarkedCorpus.

(** A concrete run: "The big dog barks ." with the noun chunk "The big
    dog", then "A  dog" (two spaces, hence a blank token) with the chunk
    "dog"; the normalizer is the lemma. *)
Example marked_corpus_example :
  snd <$> PrepareData.main (fun _ lemma => lemma) "_"
    [PrepareData.mk_Doc
       [PrepareData.mk_Token 0 "The"; PrepareData.mk_Token 4 "big";
        PrepareData.mk_Token 8 "dog"; PrepareData.mk_Token 12 "barks";
        PrepareData.mk_Token 18 "."]
       [PrepareData.mk_Span 0 11 "The big dog" "the big dog"];
     PrepareData.mk_Doc
       [PrepareData.mk_Token 0 "A"; PrepareData.mk_Token 2 " ";
        PrepareData.mk_Token 3 "dog"]
       [PrepareData.mk_Span 3 6 "dog" "dog"]]
  = Some ["The_big_dog_ "; "barks "; ". "; String "010" EmptyString;
          "A "; "dog_ "; String "010" EmptyString]%string.
Proof. vm_compute. reflexivity. Qed.

(** ** prepare_data.py: the marked corpus is what the documents determine *)

Section MarkedWritten.
Import PrepareData PrepareSpec PrepareIndex MarkedSpec.
Variable spacy_normalizer : string -> string -> string.
Variable mark_char : string.

(** *** Strings: the code's tests and replacements are the stated ones *)

Lemma is_space_whitespace c :
  is_space c = bool_decide (nat_of_ascii c ∈ whitespace).
Proof. destruct c as [[] [] [] [] [] [] [] []]; vm_compute; reflexivity. Qed.

Lemma blank_forallb s :
  blank s = forallb is_space (list_ascii_of_string s).
Proof.
  unfold blank. induction (list_ascii_of_string s) as [| c l IH]; [done |].
  cbn [forallb]. by rewrite IH, is_space_whitespace.
Qed.

Lemma lstrip_nil l : lstrip l = [] <-> forallb is_space l = true.
Proof.
  induction l as [| c l IH]; [done |]. cbn [lstrip forallb].
  destruct (is_space c); cbn [andb]; [exact IH | by split].
Qed.

Lemma lstrip_not_nil l c :
  c ∈ l -> is_space c = false -> lstrip l ≠ [].
Proof.
  intros Hin Hc Hnil. apply lstrip_nil in Hnil.
  rewrite forallb_forall in Hnil. apply list_elem_of_In in Hin.
  specialize (Hnil c Hin). congruence.
Qed.

Lemma lstrip_first l :
  lstrip l ≠ [] -> exists c, c ∈ lstrip l /\ is_space c = false.
Proof.
  induction l as [| c l IH]; [done |]. cbn [lstrip].
  destruct (is_space c) eqn:Ec; [exact IH |].
  intros _. exists c. split; [apply list_elem_of_here | done].
Qed.

Lemma string_of_list_ascii_length l :
  String.length (string_of_list_ascii l) = length l.
Proof. induction l as [| c l IH]; [done |]. cbn. by rewrite IH. Qed.

(** [len(s.strip()) > 0] says that [s] is not blank. *)
Lemma not_blank_blank s : not_blank s = negb (blank s).
Proof.
  unfold not_blank, strip.
  rewrite string_of_list_ascii_length, length_reverse, blank_forallb.
  destruct (forallb is_space (list_ascii_of_string s)) eqn:E; cbn [negb].
  - apply lstrip_nil in E. by rewrite E.
  - assert (Hne : lstrip (list_ascii_of_string s) ≠ []).
    { intros Hnil. apply lstrip_nil in Hnil. congruence. }
    destruct (lstrip_first _ Hne) as (c & Hin & Hc).
    assert (Hne' : lstrip (reverse (lstrip (list_ascii_of_string s))) ≠ []).
    { apply (lstrip_not_nil _ c); [| done]. by apply elem_of_reverse. }
    destruct (lstrip (reverse (lstrip (list_ascii_of_string s)))); [done |].
    reflexivity.
Qed.

(** [s.replace(' ', mark_char)] replaces every space by the mark. *)
Lemma replace_space_mark_spaces s :
  replace_space mark_char s = mark_spaces mark_char s.
Proof.
  induction s as [| c s IH]; [done |].
  unfold mark_spaces. cbn [list_ascii_of_string foldr replace_space].
  fold (mark_spaces mark_char s). rewrite IH.
  by destruct (Ascii.eqb c " ").
Qed.

Lemma append_assoc_string (s1 s2 s3 : string) :
  (s1 +:+ s2) +:+ s3 = s1 +:+ (s2 +:+ s3).
Proof.
  induction s1 as [| c s1 IH]; [done |].
  change (String c ((s1 +:+ s2) +:+ s3) = String c (s1 +:+ (s2 +:+ s3))).
  by rewrite IH.
Qed.

(** *** The phrases extracted so far *)

Lemma occurrences_last x seen (p : string * string) :
  occurrences x (seen ++ [p])
  = occurrences x seen + (if decide (p.1 = x) then 1 else 0).
Proof.
  unfold occurrences. rewrite filter_app, length_app. f_equal.
  rewrite filter_cons, filter_nil. by destruct (decide (p.1 = x)).
Qed.

Lemma count_entry_pos n : 1 <= n -> count_entry n = Some n.
Proof. by destruct n; [lia |]. Qed.

Lemma in_group_last np n seen p :
  in_group spacy_normalizer np n (seen ++ [p])
  = in_group spacy_normalizer np n seen
    || (String.eqb p.1 np && String.eqb (group_of spacy_normalizer p) n).
Proof.
  unfold in_group. rewrite existsb_app. cbn [existsb]. by rewrite orb_false_r.
Qed.

Lemma representative_from_last seen rep n rest p :
  representative_from spacy_normalizer seen rep n (rest ++ [p])
  = if String.eqb (group_of spacy_normalizer p) n
    then take_over spacy_normalizer (seen ++ rest)
           (representative_from spacy_normalizer seen rep n rest) p
    else representative_from spacy_normalizer seen rep n rest.
Proof.
  revert seen rep. induction rest as [| q rest IH]; intros seen rep.
  - cbn [app representative_from]. by rewrite app_nil_r.
  - cbn [app representative_from]. rewrite IH.
    by rewrite <- (assoc_L (++)).
Qed.

Lemma representative_last n seen p :
  representative spacy_normalizer n (seen ++ [p])
  = if String.eqb (group_of spacy_normalizer p) n
    then take_over spacy_normalizer seen
           (representative spacy_normalizer n seen) p
    else representative spacy_normalizer n seen.
Proof. unfold representative. by rewrite representative_from_last. Qed.

Lemma tracks_empty : tracks spacy_normalizer [] empty_dicts.
Proof.
  split; [| split]; intros x.
  - apply lookup_empty.
  - apply lookup_empty.
  - left. split; [apply lookup_empty | done].
Qed.

(** *** One update of the dictionaries *)

(** A group other than the one of the phrase noted keeps its state. *)
Lemma tracks_other seen p (g g' : gmap string (list string)) n :
  group_of spacy_normalizer p ≠ n ->
  g' !! n = g !! n ->
  (g !! n = None /\ representative spacy_normalizer n seen = None /\
   forall np, in_group spacy_normalizer np n seen = false) \/
  (exists group r,
      g !! n = Some group /\ representative spacy_normalizer n seen = Some r /\
      1 <= occurrences r seen /\
      forall np, np ∈ group <-> in_group spacy_normalizer np n seen = true) ->
  (g' !! n = None /\ representative spacy_normalizer n (seen ++ [p]) = None /\
   forall np, in_group spacy_normalizer np n (seen ++ [p]) = false) \/
  (exists group r,
      g' !! n = Some group /\
      representative spacy_normalizer n (seen ++ [p]) = Some r /\
      1 <= occurrences r (seen ++ [p]) /\
      forall np, np ∈ group
                 <-> in_group spacy_normalizer np n (seen ++ [p]) = true).
Proof.
  intros Hne Hg'. rewrite Hg', representative_last.
  assert (Hin : forall np, in_group spacy_normalizer np n (seen ++ [p])
                           = in_group spacy_normalizer np n seen).
  { intros np. rewrite in_group_last.
    destruct (String.eqb_spec (group_of spacy_normalizer p) n); [done |].
    by rewrite andb_false_r, orb_false_r. }
  destruct (String.eqb_spec (group_of spacy_normalizer p) n) as [? | _]; [done |].
  intros [(H1 & H2 & H3) | (group & r & H1 & H2 & H3 & H4)].
  - left. split; [done |]. split; [done |]. intros np. by rewrite Hin.
  - right. exists group, r. split; [done |]. split; [done |].
    split; [rewrite occurrences_last; lia |].
    intros np. rewrite Hin. apply H4.
Qed.

(** Noting a phrase succeeds and keeps the dictionaries in step with the
    phrases extracted. *)
Lemma note_span_tracks seen d np lemma :
  tracks spacy_normalizer seen d ->
  exists d',
    note_span spacy_normalizer np lemma d = Some d' /\
    tracks spacy_normalizer (seen ++ [(np, lemma)]) d'.
Proof.
  intros (Hc & Hr & Hg). unfold note_span. cbv zeta.
  set (p := (np, lemma)).
  set (n0 := spacy_normalizer np lemma).
  set (count1 := match np2count d !! np with
                 | None => <[np := 1]> (np2count d)
                 | Some c => <[np := c + 1]> (np2count d)
                 end).
  assert (Hc1 : forall x,
             count1 !! x = count_entry (occurrences x (seen ++ [p]))).
  { intros x. unfold count1. rewrite occurrences_last, (Hc np). cbn [p fst].
    destruct (decide (np = x)) as [<- | Hne].
    - destruct (occurrences np seen) as [| k]; cbn [count_entry];
        by rewrite lookup_insert_eq.
    - rewrite Nat.add_0_r.
      destruct (occurrences np seen); cbn [count_entry];
        rewrite lookup_insert_ne by done; apply Hc. }
  assert (Hrl : forall n,
             representative spacy_normalizer n (seen ++ [p])
             = if String.eqb n0 n
               then take_over spacy_normalizer seen
                      (representative spacy_normalizer n seen) p
               else representative spacy_normalizer n seen).
  { intros n. apply representative_last. }
  assert (Hil : forall x n,
             in_group spacy_normalizer x n (seen ++ [p])
             = in_group spacy_normalizer x n seen
               || (String.eqb np x && String.eqb n0 n)).
  { intros x n. apply in_group_last. }
  assert (Hto : forall r,
             take_over spacy_normalizer seen (Some r) p
             = if in_group spacy_normalizer np n0 seen
                  && (occurrences r (seen ++ [p])
                      <? occurrences np (seen ++ [p]))
               then Some np else Some r) by reflexivity.
  assert (Hol : forall x, occurrences x seen <= occurrences x (seen ++ [p]))
    by (intros x; rewrite occurrences_last; lia).
  assert (Hnp : 1 <= occurrences np (seen ++ [p])).
  { rewrite occurrences_last. cbn [p fst]. rewrite decide_True by done. lia. }
  destruct (Hg n0) as [(Hnone & Hrn & Hmem) | (g & r & Hsome & Hrs & Hr1 & Hmem)].
  - rewrite Hnone, (Hr n0), Hrn. eexists. split; [reflexivity |].
    split; [exact Hc1 |]. split.
    + intros n. cbn [id2rep]. rewrite Hrl.
      destruct (String.eqb_spec n0 n) as [<- | Hne].
      * by rewrite lookup_insert_eq, Hrn.
      * rewrite !lookup_insert_ne by done. apply Hr.
    + intros n. cbn [id2group].
      destruct (decide (n0 = n)) as [<- | Hne].
      * right. exists [np], np. rewrite lookup_insert_eq. split; [done |].
        split; [by rewrite Hrl, String.eqb_refl, Hrn |]. split; [done |].
        intros x. rewrite Hil, Hmem, String.eqb_refl, andb_true_r.
        cbn [orb]. rewrite String.eqb_eq, list_elem_of_singleton.
        by split.
      * apply (tracks_other seen p (id2group d));
          [done | by rewrite lookup_insert_ne | apply Hg].
  - rewrite Hsome, (Hr n0), Hrs. case_bool_decide as Hnot.
    + assert (Hin : in_group spacy_normalizer np n0 seen = false).
      { destruct (in_group spacy_normalizer np n0 seen) eqn:E; [| done].
        by apply Hmem in E. }
      eexists. split; [reflexivity |]. split; [exact Hc1 |]. split.
      * intros n. cbn [id2rep]. rewrite Hrl.
        destruct (String.eqb_spec n0 n) as [<- | Hne]; [| apply Hr].
        by rewrite (Hr n0), Hrs, Hto, Hin.
      * intros n. cbn [id2group].
        destruct (decide (n0 = n)) as [<- | Hne].
        -- right. exists (g ++ [np]), r. rewrite lookup_insert_eq.
           split; [done |]. split.
           { by rewrite Hrl, String.eqb_refl, Hrs, Hto, Hin. }
           split; [specialize (Hol r); lia |].
           intros x. rewrite Hil, String.eqb_refl, andb_true_r.
           rewrite elem_of_app, list_elem_of_singleton, orb_true_iff,
             String.eqb_eq, Hmem.
           split; (intros [? | ?]; [by left | by right]).
        -- apply (tracks_other seen p (id2group d));
          [done | by rewrite lookup_insert_ne | apply Hg].
    + idtac.
      assert (Hin : in_group spacy_normalizer np n0 seen = true)
        by by apply Hmem.
      rewrite (Hc1 np), (count_entry_pos _ Hnp). cbn [mbind option_bind].
      cbv beta iota. rewrite (Hr n0), Hrs. cbn [mbind option_bind].
      rewrite (Hc1 r), (count_entry_pos (occurrences r (seen ++ [p])))
        by (specialize (Hol r); lia).
      cbn [mbind option_bind].
      specialize (Hto r). rewrite Hin in Hto. cbn [andb] in Hto.
      assert (Hgroup : forall x,
                 x ∈ g <-> in_group spacy_normalizer x n0 (seen ++ [p]) = true).
      { intros x. rewrite Hil, String.eqb_refl, andb_true_r, Hmem.
        destruct (String.eqb_spec np x) as [<- | _].
        - rewrite Hin. by split.
        - by rewrite orb_false_r. }
      destruct (occurrences r (seen ++ [p]) <? occurrences np (seen ++ [p]))
        eqn:Elt;
        (eexists; split; [reflexivity |]; split; [exact Hc1 |]; split;
         [intros n; cbn [id2rep]; rewrite Hrl;
          destruct (String.eqb_spec n0 n) as [<- | Hne] |
          intros n; cbn [id2group];
          destruct (decide (n0 = n)) as [<- | Hne];
          [right | apply (tracks_other seen p (id2group d));
                   [done | done | apply Hg]]]).
      * by rewrite lookup_insert_eq, Hrs, Hto.
      * rewrite lookup_insert_ne by done. apply Hr.
      * exists g, np. split; [done |].
        split; [by rewrite Hrl, String.eqb_refl, Hrs, Hto |].
        split; [done | exact Hgroup].
      * by rewrite (Hr n0), Hrs, Hto.
      * apply Hr.
      * exists g, r. split; [done |].
        split; [by rewrite Hrl, String.eqb_refl, Hrs, Hto |].
        split; [specialize (Hol r); lia | exact Hgroup].
Qed.

(** *** The layout of a document *)

Lemma in_order_from b b' ts : b <= b' -> in_order b' ts -> in_order b ts.
Proof.
  destruct ts as [| t ts]; [done |]. cbn [in_order].
  intros Hle (? & ? & ?). split; [lia | done].
Qed.

Lemma in_order_place b offset ts rest :
  b <= offset ->
  in_order (offset + extent ts) rest ->
  in_order b (place offset ts ++ rest).
Proof.
  revert b offset. induction ts as [| t ts IH]; intros b offset Hle Hrest.
  - cbn [place app]. apply (in_order_from _ (offset + extent [])); [| done].
    unfold extent. cbn. lia.
  - cbn [place app in_order token_idx token_text]. split; [done |].
    split; [cbn; lia |].
    apply IH.
    + unfold token_end, width. cbn [token_idx token_text]. lia.
    + unfold extent in *. cbn [fmap list_fmap sum_list] in Hrest.
      by rewrite <- Nat.add_assoc.
Qed.

(** The tokens of a document follow each other without overlap. *)
Lemma in_order_segments b offset ps :
  b <= offset ->
  in_order b (segments_from offset ps ≫= segment_tokens).
Proof.
  revert b offset. induction ps as [| [t | lemma t ts] ps IH]; intros b offset Hle.
  - done.
  - cbn [segments_from]. rewrite bind_cons.
    cbn [segment_tokens app in_order token_idx token_text].
    split; [done |]. split; [cbn; lia |].
    apply IH. unfold token_end, width. cbn [token_idx token_text]. lia.
  - cbn [segments_from]. rewrite bind_cons. cbn [segment_tokens].
    change (mk_Token offset (text t) :: place (offset + width t) ts)
      with (place offset (t :: ts)).
    apply in_order_place; [done |]. by apply IH.
Qed.

(** *** The writes of a document and of a corpus *)

Lemma pieces_written_cons_word seen t ps :
  pieces_written spacy_normalizer mark_char seen (Word t :: ps)
  = ((pieces_written spacy_normalizer mark_char seen ps).1,
     (if blank (text t) then [] else [text t +:+ " "])
     ++ (pieces_written spacy_normalizer mark_char seen ps).2).
Proof.
  cbn [pieces_written].
  by destruct (pieces_written spacy_normalizer mark_char seen ps).
Qed.

Lemma pieces_written_cons_chunk seen lemma t ts ps :
  pieces_written spacy_normalizer mark_char seen (NounChunk lemma t ts :: ps)
  = ((pieces_written spacy_normalizer mark_char
        (seen ++ [(chunk_text t ts, lemma)]) ps).1,
     chunk_written spacy_normalizer mark_char seen (chunk_text t ts, lemma)
     :: (pieces_written spacy_normalizer mark_char
           (seen ++ [(chunk_text t ts, lemma)]) ps).2).
Proof.
  cbn [pieces_written].
  by destruct (pieces_written spacy_normalizer mark_char _ ps).
Qed.

(** The text written for a chunk once it is noted is the marked
    representative of its group. *)
Lemma marked_text_written seen np lemma d :
  tracks spacy_normalizer (seen ++ [(np, lemma)]) d ->
  marked_text spacy_normalizer mark_char np lemma d
  = Some (chunk_written spacy_normalizer mark_char seen (np, lemma)).
Proof.
  intros (_ & Hr & Hg). unfold marked_text, chunk_written.
  rewrite Hr. unfold group_of. cbn [fst snd].
  destruct (Hg (spacy_normalizer np lemma))
    as [(_ & _ & Hmem) | (g & r & _ & -> & _ & _)].
  - specialize (Hmem np). rewrite in_group_last in Hmem.
    unfold group_of in Hmem. cbn [fst snd] in Hmem.
    rewrite !String.eqb_refl, orb_true_r in Hmem. done.
  - cbn [mbind option_bind default]. f_equal.
    by rewrite replace_space_mark_spaces, append_assoc_string.
Qed.

(** The segments' contributions are the stated writes. *)
Lemma expected_writes_written offset ps seen d :
  tracks spacy_normalizer seen d ->
  exists d',
    expected_writes spacy_normalizer mark_char (segments_from offset ps) d
    = Some (d', (pieces_written spacy_normalizer mark_char seen ps).2) /\
    tracks spacy_normalizer
      (pieces_written spacy_normalizer mark_char seen ps).1 d'.
Proof.
  revert offset seen d.
  induction ps as [| [t | lemma t ts] ps IH]; intros offset seen d Htr.
  - by exists d.
  - rewrite pieces_written_cons_word.
    cbn [segments_from expected_writes segment_writes mbind option_bind
           token_text fst snd].
    destruct (IH (offset + width t) seen d Htr) as (d' & -> & Htr').
    cbn [mbind option_bind]. exists d'. split; [| done].
    rewrite not_blank_blank. by destruct (blank (text t)).
  - rewrite pieces_written_cons_chunk.
    cbn [segments_from expected_writes segment_writes fst snd].
    destruct (note_span_tracks seen d (chunk_text t ts) lemma Htr)
      as (d1 & -> & Htr1).
    cbn [mbind option_bind].
    rewrite (marked_text_written seen _ _ _ Htr1). cbn [mbind option_bind].
    destruct (IH (offset + extent (t :: ts)) _ d1 Htr1) as (d' & -> & Htr').
    cbn [mbind option_bind]. by exists d'.
Qed.

Lemma pieces_written_seen seen ps :
  (pieces_written spacy_normalizer mark_char seen ps).1
  = seen ++ omap piece_phrase ps.
Proof.
  revert seen. induction ps as [| [t | lemma t ts] ps IH]; intros seen.
  - by rewrite app_nil_r.
  - rewrite pieces_written_cons_word. cbn [fst omap list_omap piece_phrase].
    apply IH.
  - rewrite pieces_written_cons_chunk. cbn [fst omap list_omap piece_phrase].
    rewrite IH. by rewrite <- (assoc_L (++)).
Qed.

Lemma expected_corpus_written docs seen d :
  tracks spacy_normalizer seen d ->
  exists d',
    expected_corpus spacy_normalizer mark_char (segments_from 0 <$> docs) d
    = Some (d', corpus_written spacy_normalizer mark_char seen docs) /\
    tracks spacy_normalizer (seen ++ corpus_phrases docs) d'.
Proof.
  revert seen d. induction docs as [| ps docs IH]; intros seen d Htr.
  - exists d. split; [done |]. unfold corpus_phrases. cbn.
    by rewrite app_nil_r.
  - cbn [fmap list_fmap expected_corpus corpus_written].
    destruct (expected_writes_written 0 ps seen d Htr) as (d1 & -> & Htr1).
    rewrite pieces_written_seen in Htr1.
    pose proof (pieces_written_seen seen ps) as Hseen.
    destruct (pieces_written spacy_normalizer mark_char seen ps)
      as [seen1 ws] eqn:E.
    cbn [fst snd mbind option_bind] in *. subst seen1.
    destruct (IH _ d1 Htr1) as (d' & E' & Htr').
    change ((fix go (l : list (list piece)) : list (list segment) :=
               match l with [] => [] | x :: l0 => segments_from 0 x :: go l0 end)
              docs)
      with (segments_from 0 <$> docs).
    rewrite E'. cbn [mbind option_bind]. exists d'. split; [done |].
    unfold corpus_phrases in *. rewrite bind_cons.
    by rewrite (assoc_L (++)).
Qed.

(** A phrase just extracted has a representative for its group. *)
Lemma representative_noted seen p :
  is_Some (representative spacy_normalizer (group_of spacy_normalizer p)
             (seen ++ [p])).
Proof.
  rewrite representative_last, String.eqb_refl. unfold take_over.
  destruct (representative spacy_normalizer _ seen) as [r |]; [| by eexists].
  destruct (_ && _); by eexists.
Qed.

(** A run of the script on documents as spaCy gives them. *)
Lemma main_written docs :
  exists d,
    main spacy_normalizer mark_char (spacy_doc <$> docs)
    = Some (d, corpus_written spacy_normalizer mark_char [] docs) /\
    tracks spacy_normalizer (corpus_phrases docs) d.
Proof.
  destruct (mark_docs_segments spacy_normalizer mark_char
              (segments_from 0 <$> docs) empty_dicts [])
    as (d & ws & E & Hrun).
  - apply Forall_fmap, Forall_forall. intros ps _. cbn [doc_of tokens].
    by apply in_order_segments.
  - apply dict_inv_empty.
  - destruct (expected_corpus_written docs [] empty_dicts tracks_empty)
      as (d' & E' & Htr).
    rewrite E' in E. injection E as -> <-.
    exists d. split; [| exact Htr]. unfold main. cbn [app] in Hrun.
    rewrite <- Hrun.
    f_equal. unfold spacy_doc. by rewrite <- list_fmap_compose.
Qed.
End MarkedWritten.

(** C7.  For every corpus of documents as spaCy gives them (tokens of at
    least one character, laid out one after the other; noun chunks that
    are disjoint runs of tokens, in order), a run of the script writes, for
    each document in turn and in document order: each noun chunk exactly
    once, as the text of the representative of its group at that moment
    with every space replaced by the mark character, the mark character
    appended, and a space; each token outside all noun chunks that has a
    character other than whitespace, verbatim and followed by a space, and
    nothing for the other tokens; then a newline.  The representative of
    the group of a chunk exists when the chunk is written, and at the end of
    the run [id2rep] holds the representatives of the groups. *)
Theorem marked_corpus_spec spacy_normalizer mark_char
    (docs : list (list MarkedSpec.piece)) :
  (exists d,
      PrepareData.main spacy_normalizer mark_char
        (MarkedSpec.spacy_doc <$> docs)
      = Some (d, MarkedSpec.corpus_written spacy_normalizer mark_char [] docs) /\
      forall n,
        PrepareData.id2rep d !! n
        = MarkedSpec.representative spacy_normalizer n
            (MarkedSpec.corpus_phrases docs)) /\
  (forall seen p,
      is_Some (MarkedSpec.representative spacy_normalizer
                 (MarkedSpec.group_of spacy_normalizer p) (seen ++ [p]))).
Proof.
  split.
  - destruct (main_written spacy_normalizer mark_char docs)
      as (d & E & _ & Hrep & _).
    by exists d.
  - apply representative_noted.
Qed.

(** A corpus of three lines: "big dogs bark" with the noun chunk "big
    dogs", "a  dog" (two spaces, hence a blank token) and "dog" with the
    noun chunk "dog", all chunks with the lemma "dog" and normalized to it.
    The first phrase represents the group until "dog" has been extracted
    more often. *)
Example marked_corpus_written :
  MarkedSpec.corpus_written (fun _ lemma => lemma) "_" []
    [[MarkedSpec.NounChunk "dog"
        (MarkedSpec.mk_spacy_token "b" "ig" true)
        [MarkedSpec.mk_spacy_token "d" "ogs" true];
      MarkedSpec.Word (MarkedSpec.mk_spacy_token "b" "ark" false)];
     [MarkedSpec.Word (MarkedSpec.mk_spacy_token "a" EmptyString true);
      MarkedSpec.Word (MarkedSpec.mk_spacy_token " " EmptyString false);
      MarkedSpec.NounChunk "dog"
        (MarkedSpec.mk_spacy_token "d" "og" false) []];
     [MarkedSpec.NounChunk "dog"
        (MarkedSpec.mk_spacy_token "d" "og" false) []]]
  = ["big_dogs_ "; "bark "; String "010" EmptyString;
     "a "; "big_dogs_ "; String "010" EmptyString;
     "dog_ "; String "010" EmptyString]%string.
Proof. vm_compute. reflexivity. Qed.

(** The documents of that corpus as the loop reads them, and the run. *)
Example marked_corpus_run :
  MarkedSpec.spacy_doc <$>
    [[MarkedSpec.NounChunk "dog"
        (MarkedSpec.mk_spacy_token "b" "ig" true)
        [MarkedSpec.mk_spacy_token "d" "ogs" true];
      MarkedSpec.Word (MarkedSpec.mk_spacy_token "b" "ark" false)];
     [MarkedSpec.Word (MarkedSpec.mk_spacy_token "a" EmptyString true);
      MarkedSpec.Word (MarkedSpec.mk_spacy_token " " EmptyString false);
      MarkedSpec.NounChunk "dog"
        (MarkedSpec.mk_spacy_token "d" "og" false) []];
     [MarkedSpec.NounChunk "dog"
        (MarkedSpec.mk_spacy_token "d" "og" false) []]]
  = [PrepareData.mk_Doc
       [PrepareData.mk_Token 0 "big"; PrepareData.mk_Token 4 "dogs";
        PrepareData.mk_Token 9 "bark"]
       [PrepareData.mk_Span 0 8 "big dogs" "dog"];
     PrepareData.mk_Doc
       [PrepareData.mk_Token 0 "a"; PrepareData.mk_Token 2 " ";
        PrepareData.mk_Token 3 "dog"]
       [PrepareData.mk_Span 3 6 "dog" "dog"];
     PrepareData.mk_Doc
       [PrepareData.mk_Token 0 "dog"]
       [PrepareData.mk_Span 0 3 "dog" "dog"]]%string /\
  snd <$> PrepareData.main (fun _ lemma => lemma) "_"
    [PrepareData.mk_Doc
       [PrepareData.mk_Token 0 "big"; PrepareData.mk_Token 4 "dogs";
        PrepareData.mk_Token 9 "bark"]
       [PrepareData.mk_Span 0 8 "big dogs" "dog"];
     PrepareData.mk_Doc
       [PrepareData.mk_Token 0 "a"; PrepareData.mk_Token 2 " ";
        PrepareData.mk_Token 3 "dog"]
       [PrepareData.mk_Span 3 6 "dog" "dog"];
     PrepareData.mk_Doc
       [PrepareData.mk_Token 0 "dog"]
       [PrepareData.mk_Span 0 3 "dog" "dog"]]%string
  = Some ["big_dogs_ "; "bark "; String "010" EmptyString;
          "a "; "big_dogs_ "; String "010" EmptyString;
          "dog_ "; String "010" EmptyString]%string.
Proof. split; vm_compute; reflexivity. Qed.

(** ** train.py: restore or initialize, then train *)

Section TrainScript.
Import Train.

Lemma T_bind_run {A B} (m : T A) (f : A -> T B) w :
  (m ≫= f) w = match m w with Some (a, w') => f a w' | None => None end.
Proof. reflexivity. Qed.

(** On a session whose variables are set, every epoch runs one training
    pass on them. *)
Lemma epochs_run train_dir o (epochs : list Z) w :
  variables w = Some o ->
  exists w',
    for_each epochs (epoch_body train_dir) w = Some (tt, w') /\
    variables w' = Some o /\
    trained w' = trained w ++ replicate (length epochs) o.
Proof.
  revert w. induction epochs as [| epoch epochs IH]; intros w Hv.
  - exists w. by rewrite app_nil_r.
  - destruct w as [v tr va sa md pr]. cbn [variables] in Hv. subst v.
    cbn [for_each].
    remember (for_each epochs (epoch_body train_dir)) as rest eqn:Erest.
    cbv beta iota delta [epoch_body print run_loop_train save run_loop_val
                          mbind T_bind variables trained validated saved
                          made_dirs printed].
    subst rest.
    match goal with |- context [for_each epochs _ ?w1] =>
      destruct (IH w1 eq_refl) as (w' & -> & Hv' & Htr) end.
    exists w'. split; [done |]. split; [done |].
    change (trained w' = tr ++ replicate (length (epoch :: epochs)) o).
    rewrite Htr. cbn [trained length replicate]. by rewrite <- (assoc_L (++)).
Qed.

Lemma range_length n : length (range n) = Z.to_nat n.
Proof. unfold range. by rewrite length_fmap, length_seq. Qed.

(** C5.  From a fresh process the script's session body runs to the end.
    When [restore_training] is set and the checkpoint state of the model
    directory names a checkpoint whose file (or its [.index] file) exists,
    the session is restored from that checkpoint and every training pass
    runs on the restored variables; in every other case the variables are
    initialized afresh and every training pass runs on those.  In both cases
    there are as many training passes as configured epochs. *)
Theorem restore_or_init_then_train model_dir restore_training epoch_no
    path_exists get_checkpoint_state gfile_exists :
  exists w,
    session_body model_dir restore_training epoch_no path_exists
      get_checkpoint_state gfile_exists start_world = Some (tt, w) /\
    length (trained w) = Z.to_nat epoch_no /\
    (forall p,
        restore_training = true ->
        get_checkpoint_state model_dir = Some p ->
        gfile_exists p = true \/ gfile_exists (p +:+ ".index") = true ->
        variables w = Some (Restored p) /\
        trained w = replicate (Z.to_nat epoch_no) (Restored p)) /\
    ((restore_training = false \/
      get_checkpoint_state model_dir = None \/
      exists p, get_checkpoint_state model_dir = Some p /\
                gfile_exists p = false /\ gfile_exists (p +:+ ".index") = false) ->
     variables w = Some Initialized /\
     trained w = replicate (Z.to_nat epoch_no) Initialized).
Proof.
  unfold session_body. rewrite T_bind_run.
  set (w0 := if negb (path_exists "trained_model")
             then mk_world None [] [] [] ["trained_model"%string] []
             else start_world).
  assert (E0 : (if negb (path_exists "trained_model")
                then makedirs "trained_model" else mret ()) start_world
               = Some (tt, w0)).
  { unfold w0. by destruct (negb _). }
  rewrite E0. cbv zeta. rewrite T_bind_run.
  assert (Hw0 : trained w0 = []) by (unfold w0; by destruct (negb _)).
  destruct (get_checkpoint_state model_dir) as [p |] eqn:Eck.
  - destruct (restore_training && (gfile_exists p || gfile_exists (p +:+ ".index")))
      eqn:Econd.
    + rewrite T_bind_run. unfold restore at 1. unfold print at 1.
      rewrite T_bind_run. unfold print at 1. cbn [variables trained].
      match goal with |- context [for_each _ _ ?w1] =>
        destruct (epochs_run model_dir (Restored p) (range epoch_no) w1 eq_refl)
          as (w & -> & Hv & Htr) end.
      cbn [trained] in Htr. rewrite Hw0, range_length in Htr. cbn [app] in Htr.
      apply andb_prop in Econd as [Hr Hex]. apply orb_prop in Hex.
      exists w. split; [done |]. split; [by rewrite Htr, length_replicate |].
      split.
      * intros p' _ [= <-] _. by split.
      * intros [Hf | [Hn | (p' & [= <-] & H1 & H2)]]; [congruence | done |].
        destruct Hex; congruence.
    + unfold run_init at 1. rewrite T_bind_run. unfold print at 1.
      cbn [variables trained].
      match goal with |- context [for_each _ _ ?w1] =>
        destruct (epochs_run model_dir Initialized (range epoch_no) w1 eq_refl)
          as (w & -> & Hv & Htr) end.
      cbn [trained] in Htr. rewrite Hw0, range_length in Htr. cbn [app] in Htr.
      exists w. split; [done |]. split; [by rewrite Htr, length_replicate |].
      split.
      * intros p' Hr [= <-] Hex. rewrite Hr in Econd. cbn [andb] in Econd.
        apply orb_false_elim in Econd as [H1 H2]. destruct Hex; congruence.
      * intros _. by split.
  - unfold run_init at 1. rewrite T_bind_run. unfold print at 1.
    cbn [variables trained].
    match goal with |- context [for_each _ _ ?w1] =>
      destruct (epochs_run model_dir Initialized (range epoch_no) w1 eq_refl)
        as (w & -> & Hv & Htr) end.
    cbn [trained] in Htr. rewrite Hw0, range_length in Htr. cbn [app] in Htr.
    exists w. split; [done |]. split; [by rewrite Htr, length_replicate |].
    split.
    + intros p' _ [=].
    + intros _. by split.
Qed.
(** A concrete instance of C5: two epochs, restoring from a checkpoint of
    which only the [.index] file exists. *)
Lemma restore_or_init_then_train_witness :
  exists w,
    session_body "trained_model" true 2 (fun _ => true)
      (fun _ => Some "trained_model/best_model.chk"%string)
      (fun s => String.eqb s "trained_model/best_model.chk.index") start_world
    = Some (tt, w) /\
    variables w = Some (Restored "trained_model/best_model.chk") /\
    trained w = [Restored "trained_model/best_model.chk";
                 Restored "trained_model/best_model.chk"].
Proof.
  destruct (restore_or_init_then_train "trained_model" true 2 (fun _ => true)
              (fun _ => Some "trained_model/best_model.chk"%string)
              (fun s => String.eqb s "trained_model/best_model.chk.index"))
    as (w & E & _ & Hres & _).
  exists w. split; [exact E |].
  apply Hres; [reflexivity | reflexivity | right; reflexivity].
Defined.
End TrainScript.

(** * Further properties of the code *)

(** ** binarize and binarize_multi_hot: indices outside the matrix *)

Section BinarizeEdges.

Lemma binarize_lookup preds i pred :
  preds !! i = Some pred ->
  AbsaUtils.binarize preds !! i
  = Some ((fun j => if Z.eqb j pred then 1%Z else 0%Z)
            <$> Py.range (length preds + 1)).
Proof.
  intros Hi. unfold AbsaUtils.binarize. by rewrite list_lookup_fmap, Hi.
Qed.

Lemma py_range_elem n x : x ∈ Py.range n <-> (0 <= x < Z.of_nat n)%Z.
Proof.
  unfold Py.range. rewrite list_elem_of_fmap. split.
  - intros (k & -> & Hk). apply elem_of_seq in Hk. lia.
  - intros Hx. exists (Z.to_nat x). split; [lia |]. apply elem_of_seq. lia.
Qed.

(** X1.  [binarize(preds)] has one row of [len(preds) + 1] columns per
    prediction; a prediction that is a column index gives a one-hot row, and
    a negative or too large prediction gives an all-zero row (no error). *)
Theorem binarize_rows (preds : list Z) i pred :
  preds !! i = Some pred ->
  exists vec,
    AbsaUtils.binarize preds !! i = Some vec /\
    length vec = length preds + 1 /\
    (forall j, j < length preds + 1 ->
       vec !! j = Some (if decide (Z.of_nat j = pred) then 1%Z else 0%Z)) /\
    ((pred < 0 \/ Z.of_nat (length preds) < pred)%Z ->
     vec = replicate (length preds + 1) 0%Z).
Proof.
  intros Hi. rewrite (binarize_lookup _ _ _ Hi). eexists. split; [done |].
  split; [by rewrite length_fmap, py_range_length |]. split.
  - intros j Hj. rewrite list_lookup_fmap, py_range_lookup by done.
    cbn [fmap option_fmap option_map]. f_equal.
    destruct (Z.eqb_spec (Z.of_nat j) pred); [by rewrite decide_True | by rewrite decide_False].
  - intros Hout. apply list_eq. intros j.
    destruct (decide (j < length preds + 1)) as [Hj | Hj].
    + rewrite list_lookup_fmap, py_range_lookup, lookup_replicate_2 by done.
      cbn [fmap option_fmap option_map]. f_equal.
      destruct (Z.eqb_spec (Z.of_nat j) pred); [lia | done].
    + rewrite !(proj2 (lookup_ge_None _ _)); [done | |].
      * rewrite length_replicate. lia.
      * rewrite length_fmap, py_range_length. lia.
Qed.

(** A concrete instance of X1: the prediction 7 among three predictions. *)
Lemma binarize_rows_witness :
  exists vec,
    AbsaUtils.binarize [1; 7; 0]%Z !! 1 = Some vec /\
    length vec = 4 /\
    (forall j, j < 4 ->
       vec !! j = Some (if decide (Z.of_nat j = 7%Z) then 1%Z else 0%Z)) /\
    ((7 < 0 \/ Z.of_nat 3 < 7)%Z -> vec = replicate 4 0%Z).
Proof. exact (binarize_rows [1; 7; 0]%Z 1 7%Z eq_refl). Defined.

Lemma binarize_multi_hot_lookup heads i head :
  heads !! i = Some head ->
  AbsaUtils.binarize_multi_hot heads !! i
  = Some (if Py.is_empty head then replicate (length heads + 1) 1%Z
          else (fun j => if Py.contains j head then 1%Z else 0%Z)
                 <$> Py.range (length heads + 1)).
Proof.
  intros Hi. unfold AbsaUtils.binarize_multi_hot. by rewrite list_lookup_fmap, Hi.
Qed.

(** X2.  A row of [binarize_multi_hot(heads)] is all zeros exactly when its
    head list is not empty and none of its indices is a column index
    ([0 .. len(heads)]): the all-ones row stands in for an empty head list
    only. *)
Theorem binarize_multi_hot_zero_row (heads : list (list Z)) i head vec :
  heads !! i = Some head ->
  AbsaUtils.binarize_multi_hot heads !! i = Some vec ->
  vec = replicate (length heads + 1) 0%Z
  <-> head ≠ [] /\
      forall h, h ∈ head -> (h < 0 \/ Z.of_nat (length heads) < h)%Z.
Proof.
  intros Hi. rewrite (binarize_multi_hot_lookup _ _ _ Hi). intros [= <-].
  destruct head as [| h0 head]; cbn [Py.is_empty].
  - split; [| by intros [? _]].
    intros E. apply (f_equal (fun l => l !! 0)) in E.
    rewrite !lookup_replicate_2 in E by lia. discriminate.
  - split.
    + intros E. split; [done |]. intros h Hin.
      destruct (decide (0 <= h <= Z.of_nat (length heads))%Z) as [Hr |]; [| lia].
      exfalso. apply (f_equal (fun l => l !! Z.to_nat h)) in E.
      rewrite list_lookup_fmap, py_range_lookup, lookup_replicate_2 in E by lia.
      cbn [fmap option_fmap option_map] in E. rewrite Z2Nat.id in E by lia.
      apply py_contains_spec in Hin. rewrite Hin in E. discriminate.
    + intros [_ Hout]. apply list_eq. intros j.
      destruct (decide (j < length heads + 1)) as [Hj | Hj].
      * rewrite list_lookup_fmap, py_range_lookup, lookup_replicate_2 by done.
        cbn [fmap option_fmap option_map]. f_equal.
        destruct (Py.contains _ _) eqn:E; [| done].
        apply py_contains_spec in E. apply Hout in E. lia.
      * rewrite !(proj2 (lookup_ge_None _ _)); [done | |].
        -- rewrite length_replicate. lia.
        -- rewrite length_fmap, py_range_length. lia.
Qed.

(** A concrete instance of X2: the head list [[5]] among two words. *)
Lemma binarize_multi_hot_zero_row_witness :
  [0; 0; 0]%Z = replicate 3 0%Z
  <-> [5%Z] ≠ [] /\ forall h, h ∈ [5%Z] -> (h < 0 \/ Z.of_nat 2 < h)%Z.
Proof.
  exact (binarize_multi_hot_zero_row [[]; [5%Z]] 1 [5%Z] [0; 0; 0]%Z
           eq_refl eq_refl).
Defined.

(** X3.  [binarize_multi_hot] looks at membership only: head lists with the
    same elements, in any order and with any repetitions, give the same
    matrix. *)
Theorem binarize_multi_hot_membership (heads heads' : list (list Z)) :
  Forall2 (fun head head' => forall h, h ∈ head <-> h ∈ head') heads heads' ->
  AbsaUtils.binarize_multi_hot heads = AbsaUtils.binarize_multi_hot heads'.
Proof.
  intros HF. pose proof (Forall2_length _ _ _ HF) as Hlen.
  unfold AbsaUtils.binarize_multi_hot. rewrite <- Hlen. clear Hlen.
  generalize (length heads). intros n.
  induction HF as [| head head' heads heads' Hmem HF IH]; [done |].
  cbn [fmap list_fmap]. f_equal; [| exact IH].
  destruct head as [| h head], head' as [| h' head']; cbn [Py.is_empty].
  - done.
  - exfalso. apply (not_elem_of_nil h'), Hmem. left.
  - exfalso. apply (not_elem_of_nil h), Hmem. left.
  - apply list_fmap_ext. intros _ j _.
    destruct (Py.contains j (h :: head)) eqn:E1,
      (Py.contains j (h' :: head')) eqn:E2; try done.
    + apply py_contains_spec, Hmem, py_contains_spec in E1. congruence.
    + apply py_contains_spec, Hmem, py_contains_spec in E2. congruence.
Qed.

(** A concrete instance of X3: order and repetition of the heads. *)
Lemma binarize_multi_hot_membership_witness :
  AbsaUtils.binarize_multi_hot [[0; 1]; [2]]%Z
  = AbsaUtils.binarize_multi_hot [[1; 0; 1]; [2; 2]]%Z.
Proof.
  apply binarize_multi_hot_membership.
  apply Forall2_cons_2; [| apply Forall2_cons_2; [| apply Forall2_nil_2]];
    intros h; rewrite !elem_of_cons, !elem_of_nil; tauto.
Defined.
End BinarizeEdges.

(** ** The label map of convert_examples_to_features *)

Section LabelMap.
Import AbsaUtils.

Lemma make_label_map_snoc l a :
  make_label_map (l ++ [a]) = <[a := Z.of_nat (length l)]> (make_label_map l).
Proof.
  unfold make_label_map. rewrite imap_app, foldl_app. simpl.
  by rewrite Nat.add_0_r.
Qed.

Lemma make_label_map_lookup_iff l x z :
  make_label_map l !! x = Some z
  <-> exists i, z = Z.of_nat i /\ l !! i = Some x /\
        forall j, i < j -> l !! j ≠ Some x.
Proof.
  revert z. induction l as [| a l IH] using rev_ind; intros z.
  - unfold make_label_map. simpl. rewrite lookup_empty. split; [done |].
    by intros (i & _ & Hi & _).
  - rewrite make_label_map_snoc. destruct (decide (a = x)) as [-> | Hne].
    + rewrite lookup_insert_eq. split.
      * intros [= <-]. exists (length l). split; [done |]. split.
        -- by rewrite lookup_app_r, Nat.sub_diag by lia.
        -- intros j Hj. rewrite (proj2 (lookup_ge_None _ _)); [done |].
           rewrite length_app. simpl. lia.
      * intros (i & -> & Hi & Hlast). f_equal. f_equal.
        pose proof (lookup_lt_Some _ _ _ Hi) as Hlt.
        rewrite length_app in Hlt. simpl in Hlt.
        destruct (decide (i = length l)) as [| Hi']; [done |].
        exfalso. apply (Hlast (length l)); [lia |].
        by rewrite lookup_app_r, Nat.sub_diag by lia.
    + rewrite lookup_insert_ne by done. rewrite IH. split.
      * intros (i & -> & Hi & Hlast). exists i. split; [done |]. split.
        -- by apply lookup_app_l_Some.
        -- intros j Hj. destruct (decide (j < length l)) as [Hlt | Hge].
           ++ rewrite lookup_app_l by done. by apply Hlast.
           ++ destruct (decide (j = length l)) as [-> | Hj'].
              ** rewrite lookup_app_r, Nat.sub_diag by lia. simpl. congruence.
              ** rewrite (proj2 (lookup_ge_None _ _)); [done |].
                 rewrite length_app. simpl. lia.
      * intros (i & -> & Hi & Hlast).
        assert (Hlt : i < length l).
        { pose proof (lookup_lt_Some _ _ _ Hi) as Hlt.
          rewrite length_app in Hlt. simpl in Hlt.
          destruct (decide (i = length l)) as [-> |]; [| lia].
          rewrite lookup_app_r, Nat.sub_diag in Hi by lia. simpl in Hi.
          congruence. }
        exists i. split; [done |]. rewrite lookup_app_l in Hi by done.
        split; [done |]. intros j Hj Hx. apply (Hlast j Hj).
        by apply lookup_app_l_Some.
Qed.

Lemma make_label_map_is_Some l x : is_Some (make_label_map l !! x) <-> x ∈ l.
Proof.
  induction l as [| a l IH] using rev_ind.
  - unfold make_label_map. simpl. rewrite lookup_empty, elem_of_nil.
    split; [by intros [? ?] | done].
  - rewrite make_label_map_snoc, elem_of_app, list_elem_of_singleton, <- IH.
    destruct (decide (a = x)) as [-> | Hne].
    + rewrite lookup_insert_eq. split; [by right | by eexists].
    + rewrite lookup_insert_ne by done. split; [by left |].
      intros [H | H]; [done | congruence].
Qed.

(** X4.  The label map [{label: i for i, label in enumerate(label_list)}]
    sends a label to the index of its last occurrence in the list, and has
    no entry for a label that is not in the list; on a list without
    repetitions it sends the label at index [i] to [i]. *)
Theorem make_label_map_spec (label_list : list string) :
  (forall label z,
      make_label_map label_list !! label = Some z
      <-> exists i, z = Z.of_nat i /\ label_list !! i = Some label /\
            forall j, i < j -> label_list !! j ≠ Some label) /\
  (forall label, make_label_map label_list !! label = None <-> label ∉ label_list) /\
  (NoDup label_list ->
   forall i label, label_list !! i = Some label ->
     make_label_map label_list !! label = Some (Z.of_nat i)).
Proof.
  split; [apply make_label_map_lookup_iff |]. split.
  - intros label. rewrite <- make_label_map_is_Some, eq_None_not_Some. done.
  - intros Hnd i label Hi. apply make_label_map_lookup_iff.
    exists i. split; [done |]. split; [done |].
    intros j Hj Hx. pose proof (NoDup_lookup _ _ _ _ Hnd Hi Hx). lia.
Qed.

(** A concrete instance of X4: the usual three aspect labels. *)
Lemma make_label_map_spec_witness :
  NoDup ["O"; "B-ASP"; "I-ASP"]%string /\
  make_label_map ["O"; "B-ASP"; "I-ASP"]%string !! "B-ASP"%string = Some 1%Z.
Proof.
  assert (Hnd : NoDup ["O"; "B-ASP"; "I-ASP"]%string).
  { apply (bool_decide_unpack _). vm_compute. reflexivity. }
  split; [exact Hnd |].
  exact (proj2 (proj2 (make_label_map_spec ["O"; "B-ASP"; "I-ASP"]%string))
           Hnd 1 "B-ASP"%string eq_refl).
Defined.
End LabelMap.

(** ** convert_examples_to_features: which examples are converted, and to what *)

Section HeadsAnySubtokens.
Import AbsaSim AbsaFeaturesSpec.

(** Without assuming that every word has a subtoken listed: a word with an
    empty subtoken list keeps its one row and its one column. *)
Lemma sub_token_rows_count_any z H st :
  length H = length st ->
  length (concat (zip_with (AbsaSpec.sub_token_rows z) H st)) = row_count st.
Proof.
  unfold row_count.
  revert st. induction H as [| row H IH]; intros [| sub st] Hlen;
    simpl in *; try done.
  rewrite length_app, length_replicate, IH by lia.
  unfold fmap; simpl; lia.
Qed.

Lemma widen_columns_length_any (ws : list Z) st :
  length ws = length st ->
  length (concat (zip_with (fun w sub => w :: replicate (length sub - 1) 0%Z) ws st))
  = row_count st.
Proof.
  unfold row_count.
  revert st. induction ws as [| w ws IH]; intros [| sub st] Hlen;
    simpl in *; try done.
  rewrite length_app, length_replicate, IH by lia.
  unfold fmap; simpl; lia.
Qed.

Lemma widen_row_length_any st row :
  length row = length st + 1 ->
  length (AbsaSpec.widen_row st row) = row_count st + 1.
Proof.
  intros Hlen. destruct row as [| c ws]; [simpl in Hlen; lia |].
  simpl in *. rewrite widen_columns_length_any by lia. lia.
Qed.

Lemma apply_heads_to_subtokens_values_any z H st :
  length H = length st ->
  Forall (fun row => length row = length st + 1) H ->
  AbsaValues.apply_heads_to_subtokens H st z
  = Some (replicate (row_count st + 1) 0%Z ::
            (AbsaSpec.widen_row st <$>
               concat (zip_with (AbsaSpec.sub_token_rows z) H st))).
Proof.
  intros Hlen Hrows. unfold AbsaValues.apply_heads_to_subtokens.
  pose proof (expand_rows_values z st [] H [] Hlen) as E1.
  rewrite !app_nil_r in E1. rewrite E1. cbn [mbind option_bind].
  set (X := concat (zip_with (AbsaSpec.sub_token_rows z) H st)).
  assert (E2 : mapM (AbsaValues.insert_zero_columns st (Py.range_down (length st))) X
               = Some (AbsaSpec.widen_row st <$> X)).
  { apply mapM_Some, Forall2_fmap_r, Forall_Forall2_diag.
    eapply Forall_impl; [by apply sub_token_rows_row_length |].
    intros row Hrow. by apply insert_zero_columns_widen. }
  rewrite E2. cbn [mbind option_bind].
  rewrite length_fmap. unfold X. by rewrite sub_token_rows_count_any.
Qed.

(** [apply_heads_to_subtokens(binarize_multi_hot(heads), sub_toks)] returns a
    square array with one row more than [row_count sub_toks], whatever the
    subtoken lists are. *)
Lemma binary_heads_run_any σ heads st :
  length heads = length st ->
  exists hs' rows σ',
    (rows ← AbsaUtils.new_lists (AbsaUtils.binarize_multi_hot heads);
     AbsaUtils.apply_heads_to_subtokens rows st false) σ
    = Some ((hs', AbsaUtils.mk_ndarray (row_count st + 1) (row_count st + 1) rows),
            σ') /\
    AbsaUtils.wf_ndarray
      (AbsaUtils.mk_ndarray (row_count st + 1) (row_count st + 1) rows).
Proof.
  intros Hlen. rewrite M_bind_run, new_lists_run.
  assert (Hrows : Forall (fun row => length row = length st + 1)
                         (AbsaUtils.binarize_multi_hot heads)).
  { rewrite <- Hlen. apply binarize_multi_hot_row_length. }
  assert (Hlen' : length (AbsaUtils.binarize_multi_hot heads) = length st)
    by by rewrite binarize_multi_hot_length.
  pose proof (apply_heads_to_subtokens_lists_sim false st _ _ _
                (new_lists_distinct (AbsaUtils.binarize_multi_hot heads) σ))
    as Hsim.
  rewrite apply_heads_to_subtokens_values_any in Hsim by done.
  unfold AbsaUtils.apply_heads_to_subtokens. rewrite M_bind_run.
  destruct (AbsaUtils.apply_heads_to_subtokens_lists _ st false _)
    as [[[hs' rows] σ'] |]; [| done].
  destruct Hsim as [-> _].
  set (X := concat (zip_with (AbsaSpec.sub_token_rows false)
                      (AbsaUtils.binarize_multi_hot heads) st)).
  assert (HX : length X = row_count st)
    by by apply sub_token_rows_count_any.
  assert (HF : Forall (fun row => length row = row_count st + 1)
                 (replicate (row_count st + 1) 0%Z :: (AbsaSpec.widen_row st <$> X))).
  { constructor; [apply length_replicate |]. apply Forall_fmap.
    eapply Forall_impl; [by apply sub_token_rows_row_length |].
    intros row Hrow. simpl. by apply widen_row_length_any. }
  rewrite (np_array_rectangular _ (row_count st) (row_count st + 1)); [| | done].
  - rewrite <- (Nat.add_1_r (row_count st)). eexists _, _, _. split; [done |].
    split; [| done]. cbn [AbsaUtils.data AbsaUtils.shape0 length].
    rewrite length_fmap, HX. lia.
  - cbn [length]. by rewrite length_fmap, HX.
Qed.
End HeadsAnySubtokens.

Section WordLoop.
Import AbsaUtils AbsaFeaturesSpec.
Variable tokenize : string -> list string.
Variable pad_token_label_id : Z.
Variable label_map : gmap string Z.

Lemma example_label_ids_cons it items :
  example_label_ids tokenize pad_token_label_id label_map (it :: items)
  = ids ← item_label_ids tokenize pad_token_label_id label_map it;
    rest ← example_label_ids tokenize pad_token_label_id label_map items;
    Some (ids ++ rest).
Proof.
  unfold example_label_ids. cbn [mapM].
  destruct (item_label_ids _ _ _ it) as [ids |]; [| done].
  cbn [mbind option_bind].
  destruct (mapM _ items) as [rest |]; done.
Qed.

(** The loop over the words, in closed form. *)
Lemma word_loop_closed items tokens label_ids heads sub_toks :
  word_loop tokenize pad_token_label_id label_map
    (tokens, label_ids, heads, sub_toks) items
  = ids ← example_label_ids tokenize pad_token_label_id label_map items;
    Some (tokens ++ example_tokens tokenize items, label_ids ++ ids,
          heads ++ ((fun it => it.1.1.2) <$> items),
          sub_toks ++ ((fun it => it.2) <$> items)).
Proof.
  revert tokens label_ids heads sub_toks.
  induction items as [| it items IH]; intros tokens label_ids heads sub_toks.
  - cbn. by rewrite !app_nil_r.
  - destruct it as [[[[word label] head] pos] sub_tok].
    rewrite example_label_ids_cons.
    cbn [word_loop word_step item_label_ids].
    unfold example_tokens. rewrite bind_cons. cbn [item_tokens].
    destruct (tokenize word) as [| piece rest] eqn:Etok.
    + cbn [length Nat.ltb Nat.leb mbind option_bind]. rewrite IH.
      destruct (example_label_ids _ _ _ items) as [ids |]; [| done].
      cbn [mbind option_bind fmap list_fmap app fst snd].
      by rewrite <- !(assoc_L (++)).
    + change (0 <? length (piece :: rest)) with true. cbv iota.
      destruct (label_map !! label) as [label_id |]; [| done].
      cbn [mbind option_bind]. rewrite IH.
      destruct (example_label_ids _ _ _ items) as [ids |]; [| done].
      cbn [mbind option_bind fmap list_fmap app fst snd length].
      replace (S (length rest) - 1) with (length rest) by lia.
      by rewrite <- !(assoc_L (++)).
Qed.

Lemma example_label_ids_length items ids :
  example_label_ids tokenize pad_token_label_id label_map items = Some ids ->
  length ids = length (example_tokens tokenize items).
Proof.
  revert ids. induction items as [| it items IH]; intros ids.
  - by intros [= <-].
  - rewrite example_label_ids_cons. unfold example_tokens. rewrite bind_cons.
    destruct (item_label_ids _ _ _ it) as [ids1 |] eqn:E1; [| done].
    cbn [mbind option_bind].
    destruct (example_label_ids _ _ _ items) as [rest |]; [| done].
    intros [= <-]. rewrite !length_app. f_equal; [| by apply IH].
    destruct it as [[[[word label] head] pos] sub_tok].
    cbn [item_label_ids item_tokens] in *.
    destruct (tokenize word) as [| piece pieces]; [by injection E1 as <- |].
    destruct (label_map !! label); [| done].
    injection E1 as <-. cbn [length]. by rewrite length_replicate.
Qed.

Lemma row_count_items (items : list item) :
  row_count ((fun it => it.2) <$> items) = example_rows items.
Proof.
  unfold row_count, example_rows. rewrite <- list_fmap_compose.
  f_equal. apply list_fmap_ext. intros _ [[[[word label] head] pos] sub_tok] _.
  done.
Qed.
End WordLoop.

Section ConvertSpec.
Import AbsaUtils AbsaFeatures AbsaFeaturesSpec.
Variable tokenize : string -> list string.
Variable convert_tokens_to_ids : list string -> list Z.
Variable cls_token sep_token : string.
Variable pad_token : Z.
Variable pad_token_segment_id : Z.
Variable special_tokens_count : Z.
Variable pad_token_label_id : Z.
Variable label_list : list string.
Variable max_seq_length : Z.

(** The tokenizer maps a list of tokens to as many ids, and the special
    tokens it counts fit into the sequence length. *)
Hypothesis ids_length : forall l, length (convert_tokens_to_ids l) = length l.
Hypothesis special_le : (special_tokens_count <= max_seq_length)%Z.

Lemma truncated {A} (l : list A) n :
  length l = n ->
  (if (max_seq_length - special_tokens_count <? Z.of_nat n)%Z
   then slice_to (max_seq_length - special_tokens_count) l else l)
  = take (kept_tokens max_seq_length special_tokens_count n) l.
Proof.
  intros Hlen. unfold kept_tokens, slice_to.
  destruct (Z.ltb_spec (max_seq_length - special_tokens_count) (Z.of_nat n)).
  - destruct (Z.leb_spec 0 (max_seq_length - special_tokens_count)); [| lia].
    by rewrite Z.min_r by lia.
  - rewrite Z.min_l, Nat2Z.id by lia. rewrite take_ge; [done | lia].
Qed.

(** Truncation, the special tokens, padding and the four assertions, in
    closed form. *)
Lemma truncate_and_pad_spec tokens label_ids padded_heads :
  length label_ids = length tokens ->
  let k := kept_tokens max_seq_length special_tokens_count (length tokens) in
  let p := Z.to_nat max_seq_length - (k + 2) in
  truncate_and_pad convert_tokens_to_ids cls_token sep_token pad_token
    pad_token_segment_id special_tokens_count pad_token_label_id max_seq_length
    tokens label_ids padded_heads
  = if (Z.of_nat k + 2 <=? max_seq_length)%Z then
      Some (mk_InputFeatures
              (convert_tokens_to_ids (cls_token :: take k tokens ++ [sep_token])
               ++ replicate p pad_token)
              (replicate (k + 2) 1%Z ++ replicate p 0%Z)
              (replicate (k + 2) 0%Z ++ replicate p pad_token_segment_id)
              (pad_token_label_id :: take k label_ids
               ++ pad_token_label_id :: replicate p pad_token_label_id)
              padded_heads)
    else None.
Proof.
  intros Hlen k p. unfold truncate_and_pad.
  rewrite (truncated tokens (length tokens) eq_refl).
  rewrite (truncated label_ids (length tokens) Hlen).
  fold k.
  assert (Hk : k <= length tokens) by (unfold k, kept_tokens; lia).
  assert (Htk : length (take k tokens) = k) by (rewrite length_take; lia).
  assert (Hik : length (take k label_ids) = k) by (rewrite length_take; lia).
  assert (Hids : length (convert_tokens_to_ids
                           (cls_token :: take k tokens ++ [sep_token])) = k + 2).
  { rewrite ids_length. cbn [length]. rewrite length_app, Htk. simpl. lia. }
  rewrite Hids. unfold repeat.
  rewrite !length_app, !length_replicate, Hids. cbn [length].
  rewrite !length_app, Htk, Hik, !length_replicate. cbn [length].
  replace (Z.to_nat (max_seq_length - Z.of_nat (k + 2))) with p by (unfold p; lia).
  destruct (Z.leb_spec (Z.of_nat k + 2) max_seq_length) as [Hfit | Hbig].
  - assert ((Z.of_nat (k + 2 + p) =? max_seq_length)%Z = true) as ->
      by (apply Z.eqb_eq; unfold p; lia).
    assert ((Z.of_nat (S (k + 1) + p) =? max_seq_length)%Z = true) as ->
      by (apply Z.eqb_eq; unfold p; lia).
    cbn [check mbind option_bind]. f_equal. f_equal.
    + unfold cls_token_segment_id.
      replace (k + 2) with (S (k + 1)) by lia. done.
    + cbn [app]. by rewrite <- (assoc_L (++)).
  - assert ((Z.of_nat (k + 2 + p) =? max_seq_length)%Z = false) as ->
      by (apply Z.eqb_neq; unfold p; lia).
    done.
Qed.

Lemma example_label_ids_listed items :
  is_Some (example_label_ids tokenize pad_token_label_id
             (make_label_map label_list) items)
  <-> Forall (label_listed tokenize label_list) items.
Proof.
  induction items as [| it items IH].
  - split; [constructor | by eexists].
  - rewrite example_label_ids_cons, Forall_cons, <- IH.
    destruct it as [[[[word label] head] pos] sub_tok].
    cbn [item_label_ids label_listed].
    destruct (tokenize word) as [| piece rest].
    + cbn [mbind option_bind].
      destruct (example_label_ids _ _ _ items) as [ids |].
      * split; [intros _; split; [done | by eexists] | by eexists].
      * split; [by intros [? ?] | by intros [_ [? ?]]].
    + rewrite <- make_label_map_is_Some.
      destruct (make_label_map label_list !! label) as [label_id |].
      * cbn [mbind option_bind].
        destruct (example_label_ids _ _ _ items) as [ids |].
        -- split; [intros _; split; [by eexists | by eexists] | by eexists].
        -- split; [by intros [? ?] | by intros [_ [? ?]]].
      * split; [by intros [? ?] |]. intros [H _].
        destruct H as [? ?]; done.
Qed.

Local Abbreviation run ex σ :=
  (example_features tokenize convert_tokens_to_ids cls_token sep_token
     pad_token pad_token_segment_id special_tokens_count pad_token_label_id
     label_list max_seq_length ex σ).

(** The outcome of the loop body for one example. *)
Lemma example_features_cases σ ex :
  let items := example_items ex in
  let tokens := example_tokens tokenize items in
  match example_label_ids tokenize pad_token_label_id
          (make_label_map label_list) items with
  | None => run ex σ = None
  | Some ids =>
      length ids = length tokens /\
      if decide (length tokens = example_rows items) then
        exists padded_heads σ',
          shape0 padded_heads = 64 /\ shape1 padded_heads = 64 /\
          wf_ndarray padded_heads /\
          run ex σ
          = match truncate_and_pad convert_tokens_to_ids cls_token sep_token
                    pad_token pad_token_segment_id special_tokens_count
                    pad_token_label_id max_seq_length tokens ids padded_heads with
            | Some input_features => Some (input_features, σ')
            | None => None
            end
      else run ex σ = None
  end.
Proof.
  intros items tokens. unfold example_features, features_prefix.
  rewrite (word_loop_closed tokenize pad_token_label_id _ _ [] [] [] []).
  fold items.
  destruct (example_label_ids _ _ _ items) as [ids |] eqn:Eids; [| done].
  split; [by eapply example_label_ids_length |].
  cbn [mbind option_bind app]. fold tokens.
  set (heads := (fun it : item => it.1.1.2) <$> items).
  set (sub_toks := (fun it : item => it.2) <$> items).
  assert (Hlen : length heads = length sub_toks)
    by (unfold heads, sub_toks; by rewrite !length_fmap).
  destruct (binary_heads_run_any σ heads sub_toks Hlen)
    as (hs' & rows & σ1 & E & Hwf).
  rewrite M_bind_run in E. rewrite !M_bind_run.
  destruct (new_lists _ σ) as [[rows0 σ0] |]; [| done].
  rewrite M_bind_run, E.
  unfold sub_toks in *. rewrite row_count_items in *. fold items in Hwf |- *.
  destruct (decide (length tokens = example_rows items)) as [Heq | Hne];
    unfold mret at 1, M_ret at 1; rewrite M_bind_run;
    unfold shape_assertion; cbn [shape0 shape1];
    rewrite Nat.eqb_refl; cbn [andb].
  - rewrite <- Heq, Nat.eqb_refl. cbn [assert]. unfold mret at 1, M_ret at 1.
    rewrite <- Heq in Hwf. rewrite (pad_heads_data _ Hwf).
    match goal with
    | |- context [truncate_and_pad _ _ _ _ _ _ _ _ _ _ ?ph] => exists ph, σ1
    end.
    split; [reflexivity |]. split; [reflexivity |].
    split; [by apply pad_heads_wf |].
    destruct (truncate_and_pad _ _ _ _ _ _ _ _ _ _ _); reflexivity.
  - destruct (Nat.eqb_spec (example_rows items + 1) (length tokens + 1)) as [? |];
      [lia | reflexivity].
Qed.

Lemma example_features_returns σ ex :
  is_Some (run ex σ)
  <-> convertible tokenize label_list max_seq_length special_tokens_count ex.
Proof.
  pose proof (example_features_cases σ ex) as H. cbv zeta in H.
  unfold convertible. rewrite <- example_label_ids_listed.
  destruct (example_label_ids _ _ _ (example_items ex)) as [ids |].
  - destruct H as [Hlen H].
    destruct (decide (length (example_tokens tokenize (example_items ex))
                      = example_rows (example_items ex))) as [Heq | Hne].
    + destruct H as (ph & σ' & _ & _ & _ & ->).
      rewrite truncate_and_pad_spec by done.
      destruct (Z.leb_spec
                  (Z.of_nat (kept_tokens max_seq_length special_tokens_count
                     (length (example_tokens tokenize (example_items ex)))) + 2)
                  max_seq_length) as [Hfit | Hbig].
      * split; [intros _; split; [by eexists | done] | by eexists].
      * split; [by intros [? ?] | intros (_ & _ & ?); lia].
    + rewrite H. split; [by intros [? ?] | by intros (_ & ? & _)].
  - rewrite H. split; [by intros [? ?] | by intros ([? ?] & _)].
Qed.

(** What a converted example looks like. *)
Lemma example_features_Some σ ex input_features σ' :
  run ex σ = Some (input_features, σ') ->
  let tokens := example_tokens tokenize (example_items ex) in
  let k := kept_tokens max_seq_length special_tokens_count (length tokens) in
  let p := Z.to_nat max_seq_length - (k + 2) in
  exists ids padded_heads,
    example_label_ids tokenize pad_token_label_id (make_label_map label_list)
      (example_items ex) = Some ids /\
    length ids = length tokens /\
    (Z.of_nat k + 2 <= max_seq_length)%Z /\
    shape0 padded_heads = 64 /\ shape1 padded_heads = 64 /\
    wf_ndarray padded_heads /\
    input_features
    = mk_InputFeatures
        (convert_tokens_to_ids (cls_token :: take k tokens ++ [sep_token])
         ++ replicate p pad_token)
        (replicate (k + 2) 1%Z ++ replicate p 0%Z)
        (replicate (k + 2) 0%Z ++ replicate p pad_token_segment_id)
        (pad_token_label_id :: take k ids
         ++ pad_token_label_id :: replicate p pad_token_label_id)
        padded_heads.
Proof.
  intros Hrun tokens k p.
  pose proof (example_features_cases σ ex) as H. cbv zeta in H. fold tokens in H.
  destruct (example_label_ids _ _ _ (example_items ex)) as [ids |];
    [| congruence].
  destruct H as [Hlen H].
  destruct (decide (length tokens = example_rows (example_items ex)));
    [| congruence].
  destruct H as (ph & σ1 & Hs0 & Hs1 & Hwf & E). rewrite Hrun in E.
  rewrite truncate_and_pad_spec in E by done. fold k p in E.
  destruct (Z.leb_spec (Z.of_nat k + 2) max_seq_length) as [Hfit |]; [| done].
  injection E as -> _. by exists ids, ph.
Qed.

(** X5.  [convert_examples_to_features] returns exactly when every example
    is convertible: each label it looks up (that of a word for which the
    tokenizer returns at least one piece) is in the label list, the
    tokenizer returns as many pieces in all as the head matrix has rows for
    the words (one per listed subtoken, one for a word with none), and the
    kept pieces plus [CLS] and [SEP] fit into [max_seq_length].  In every
    other case a KeyError or a failed assertion ends the conversion.  When
    it returns, there is one feature record per example. *)
Theorem convert_examples_to_features_returns examples σ :
  (is_Some (convert_examples_to_features tokenize convert_tokens_to_ids
              cls_token sep_token pad_token pad_token_segment_id
              special_tokens_count pad_token_label_id label_list
              max_seq_length examples σ)
   <-> Forall (convertible tokenize label_list max_seq_length
                 special_tokens_count) examples) /\
  (forall features σ',
      convert_examples_to_features tokenize convert_tokens_to_ids
        cls_token sep_token pad_token pad_token_segment_id
        special_tokens_count pad_token_label_id label_list
        max_seq_length examples σ = Some (features, σ') ->
      length features = length examples).
Proof.
  revert σ. induction examples as [| ex examples IH]; intros σ.
  - split; [split; [constructor | by eexists] |]. by intros ? ? [= <- _].
  - cbn [convert_examples_to_features]. rewrite M_bind_run, Forall_cons.
    rewrite <- (example_features_returns σ ex).
    destruct (run ex σ) as [[input_features σ1] |].
    + rewrite M_bind_run. destruct (IH σ1) as [IH1 IH2]. rewrite <- IH1.
      destruct (convert_examples_to_features _ _ _ _ _ _ _ _ _ _ examples σ1)
        as [[features σ2] |].
      * split; [split; [intros _; split; by eexists | by eexists] |].
        intros fs σ' [= <- _]. cbn [length]. f_equal. by eapply IH2.
      * split; [split; [by intros [? ?] | by intros [_ [? ?]]] | done].
    + split; [split; [by intros [? ?] | by intros [[? ?] _]] | done].
Qed.

(** X6.  In the features of a converted example, [k] being the number of
    word pieces kept (all of them, or the first
    [max_seq_length - special_tokens_count]): the input ids are those of
    [CLS], the kept pieces and [SEP], then the padding id; the attention mask
    is [k + 2] ones, then zeros; the token type ids are [k + 2] zeros, then
    the padding type id; all three have length [max_seq_length]; and the
    head matrix is 64 by 64 whatever [max_seq_length] is: its shape is
    [(64, 64)] and it has 64 rows of 64 entries. *)
Theorem example_features_layout σ ex input_features σ' :
  run ex σ = Some (input_features, σ') ->
  let tokens := example_tokens tokenize (example_items ex) in
  let k := kept_tokens max_seq_length special_tokens_count (length tokens) in
  let p := Z.to_nat max_seq_length - (k + 2) in
  input_ids input_features
  = convert_tokens_to_ids (cls_token :: take k tokens ++ [sep_token])
    ++ replicate p pad_token /\
  attention_mask input_features = replicate (k + 2) 1%Z ++ replicate p 0%Z /\
  token_type_ids input_features
  = replicate (k + 2) 0%Z ++ replicate p pad_token_segment_id /\
  Z.of_nat (length (input_ids input_features)) = max_seq_length /\
  Z.of_nat (length (attention_mask input_features)) = max_seq_length /\
  Z.of_nat (length (token_type_ids input_features)) = max_seq_length /\
  shape0 (dep_heads input_features) = 64 /\
  shape1 (dep_heads input_features) = 64 /\
  wf_ndarray (dep_heads input_features).
Proof.
  intros Hrun tokens k p.
  destruct (example_features_Some _ _ _ _ Hrun)
    as (ids & ph & _ & Hlen & Hfit & Hs0 & Hs1 & [Hrows Hcols] & ->).
  fold tokens k p in Hfit |- *. cbn [input_ids attention_mask token_type_ids dep_heads].
  assert (Hk : k <= length tokens) by (unfold k, kept_tokens; lia).
  repeat split; try done.
  - rewrite length_app, ids_length, length_replicate. cbn [length].
    rewrite length_app, length_take. cbn [length]. unfold p. lia.
  - rewrite length_app, !length_replicate. unfold p. lia.
  - rewrite length_app, !length_replicate. unfold p. lia.
Qed.

(** X7.  In the features of a converted example the label ids are: the
    padding label for [CLS]; then, for the kept word pieces, the id of the
    word's label at the first piece of each word and the padding label at
    its other pieces; then the padding label for [SEP] and for the padding.
    There are [max_seq_length] of them. *)
Theorem example_features_labels σ ex input_features σ' :
  run ex σ = Some (input_features, σ') ->
  let tokens := example_tokens tokenize (example_items ex) in
  let k := kept_tokens max_seq_length special_tokens_count (length tokens) in
  let p := Z.to_nat max_seq_length - (k + 2) in
  exists ids,
    example_label_ids tokenize pad_token_label_id (make_label_map label_list)
      (example_items ex) = Some ids /\
    length ids = length tokens /\
    label_ids input_features
    = pad_token_label_id :: take k ids
      ++ pad_token_label_id :: replicate p pad_token_label_id /\
    Z.of_nat (length (label_ids input_features)) = max_seq_length.
Proof.
  intros Hrun tokens k p.
  destruct (example_features_Some _ _ _ _ Hrun)
    as (ids & ph & Eids & Hlen & Hfit & _ & _ & _ & ->).
  fold tokens k p in Hfit, Hlen |- *. exists ids. cbn [label_ids].
  assert (Hk : k <= length tokens) by (unfold k, kept_tokens; lia).
  repeat split; try done.
  cbn [length]. rewrite length_app, length_take. cbn [length].
  rewrite length_replicate. unfold p. lia.
Qed.
End ConvertSpec.

Section ConvertWitnesses.
Import AbsaUtils AbsaFeatures AbsaFeaturesSpec.

Lemma fmap_ids_length (l : list string) :
  length ((fun token => Z.of_nat (String.length token)) <$> l) = length l.
Proof. apply length_fmap. Qed.

Lemma two_special_tokens_fit : (2 <= 6)%Z.
Proof. lia. Qed.

(** A concrete instance of X5: one example of two words, the first split in
    two pieces, with room for six tokens. *)
Lemma convert_examples_to_features_returns_witness :
  is_Some
    (convert_examples_to_features
       (fun w => if String.eqb w "playing" then ["play"; "##ing"] else [w])%string
       (fmap (fun token => Z.of_nat (String.length token)))
       "[CLS]" "[SEP]" 0 0 2 (-100) ["O"; "B-ASP"]%string 6
       [mk_InputExample "train-1" ["playing"; "well"] ["O"; "O"]
          [[2]; [1]]%Z [["well"]; ["playing"]] ["VERB"; "ADV"]
          [["play"; "##ing"]; ["well"]]]%string []).
Proof.
  apply (convert_examples_to_features_returns
           (fun w => if String.eqb w "playing" then ["play"; "##ing"] else [w])%string
           (fmap (fun token => Z.of_nat (String.length token)))
           "[CLS]" "[SEP]" 0 0 2 (-100) ["O"; "B-ASP"]%string 6
           fmap_ids_length two_special_tokens_fit).
  apply Forall_cons_2; [| apply Forall_nil_2].
  split; [| split].
  - apply Forall_cons_2; [| apply Forall_cons_2; [| apply Forall_nil_2]];
      intros _; apply list_elem_of_here.
  - reflexivity.
  - vm_compute. discriminate.
Defined.

(** A concrete instance of X6: the same example. *)
Lemma example_features_layout_witness :
  exists input_features σ',
    example_features
      (fun w => if String.eqb w "playing" then ["play"; "##ing"] else [w])%string
      (fmap (fun token => Z.of_nat (String.length token)))
      "[CLS]" "[SEP]" 0 0 2 (-100) ["O"; "B-ASP"]%string 6
      (mk_InputExample "train-1" ["playing"; "well"] ["O"; "O"]
         [[2]; [1]]%Z [["well"]; ["playing"]] ["VERB"; "ADV"]
         [["play"; "##ing"]; ["well"]])%string []
    = Some (input_features, σ') /\
    input_ids input_features = [5; 4; 5; 4; 5; 0]%Z /\
    attention_mask input_features = [1; 1; 1; 1; 1; 0]%Z /\
    token_type_ids input_features = [0; 0; 0; 0; 0; 0]%Z /\
    length (data (dep_heads input_features)) = 64 /\
    Forall (fun row => length row = 64) (data (dep_heads input_features)).
Proof.
  destruct (example_features
      (fun w => if String.eqb w "playing" then ["play"; "##ing"] else [w])%string
      (fmap (fun token => Z.of_nat (String.length token)))
      "[CLS]" "[SEP]" 0 0 2 (-100) ["O"; "B-ASP"]%string 6
      (mk_InputExample "train-1" ["playing"; "well"] ["O"; "O"]
         [[2]; [1]]%Z [["well"]; ["playing"]] ["VERB"; "ADV"]
         [["play"; "##ing"]; ["well"]])%string [])
    as [[input_features σ'] |] eqn:E.
  - exists input_features, σ'. split; [reflexivity |].
    destruct (example_features_layout _ _ _ _ _ _ _ _ _ _
                fmap_ids_length two_special_tokens_fit _ _ _ _ E)
      as (H1 & H2 & H3 & _ & _ & _ & Hs0 & Hs1 & [Hrows Hcols]).
    split; [exact H1 |]. split; [exact H2 |]. split; [exact H3 |].
    rewrite <- Hs0 at 1. rewrite <- Hs1. by split.
  - vm_compute in E. discriminate.
Defined.

(** A concrete instance of X7: the same example; [O] has id 0 and the
    padding label is -100. *)
Lemma example_features_labels_witness :
  exists input_features σ',
    example_features
      (fun w => if String.eqb w "playing" then ["play"; "##ing"] else [w])%string
      (fmap (fun token => Z.of_nat (String.length token)))
      "[CLS]" "[SEP]" 0 0 2 (-100) ["O"; "B-ASP"]%string 6
      (mk_InputExample "train-1" ["playing"; "well"] ["O"; "O"]
         [[2]; [1]]%Z [["well"]; ["playing"]] ["VERB"; "ADV"]
         [["play"; "##ing"]; ["well"]])%string []
    = Some (input_features, σ') /\
    label_ids input_features = [-100; 0; -100; 0; -100; -100]%Z.
Proof.
  destruct (example_features
      (fun w => if String.eqb w "playing" then ["play"; "##ing"] else [w])%string
      (fmap (fun token => Z.of_nat (String.length token)))
      "[CLS]" "[SEP]" 0 0 2 (-100) ["O"; "B-ASP"]%string 6
      (mk_InputExample "train-1" ["playing"; "well"] ["O"; "O"]
         [[2]; [1]]%Z [["well"]; ["playing"]] ["VERB"; "ADV"]
         [["play"; "##ing"]; ["well"]])%string [])
    as [[input_features σ'] |] eqn:E.
  - exists input_features, σ'. split; [reflexivity |].
    destruct (example_features_labels _ _ _ _ _ _ _ _ _ _
                fmap_ids_length two_special_tokens_fit _ _ _ _ E)
      as (ids & Eids & _ & H & _).
    vm_compute in Eids. injection Eids as <-. exact H.
  - vm_compute in E. discriminate.
Defined.

(** With a tokenizer that counts no special tokens, an example that fills
    the sequence length fails the length assertion. *)
Example example_features_no_room :
  example_features (fun w => [w])
    (fmap (fun token => Z.of_nat (String.length token)))
    "[CLS]" "[SEP]" 0 0 0 (-100) ["O"]%string 2
    (mk_InputExample "train-1" ["very"; "well"] ["O"; "O"]
       [[2]; [0]]%Z [["well"]; []] ["ADV"; "ADV"]
       [["very"]; ["well"]])%string []
  = None.
Proof. vm_compute. reflexivity. Qed.

(** When the tokenizer returns nothing for a word, the head matrix still
    has a row for it and the shape assertion fails. *)
Example example_features_empty_word :
  example_features
    (fun w => if String.eqb w " " then [] else [w])
    (fmap (fun token => Z.of_nat (String.length token)))
    "[CLS]" "[SEP]" 0 0 2 (-100) ["O"]%string 8
    (mk_InputExample "train-1" ["very"; " "] ["O"; "O"]
       [[0]; [1]]%Z [[]; ["very"]] ["ADV"; "SPACE"]
       [["very"]; [" "]])%string []
  = None.
Proof. vm_compute. reflexivity. Qed.
End ConvertWitnesses.

(** ** apply_heads_to_subtokens when no word is split *)

Section Unsplit.
Import AbsaSim AbsaFeaturesSpec.

Lemma row_count_unsplit st :
  Forall (fun sub => length sub <= 1) st -> row_count st = length st.
Proof.
  unfold row_count. induction 1 as [| sub st Hsub _ IH]; [done |].
  unfold fmap in *. simpl in *. lia.
Qed.

Lemma sub_token_rows_unsplit z (H : list (list Z)) st :
  length H = length st ->
  Forall (fun sub => length sub <= 1) st ->
  concat (zip_with (AbsaSpec.sub_token_rows z) H st) = H.
Proof.
  intros Hlen HF. revert H Hlen.
  induction HF as [| sub st Hsub _ IH]; intros [| row H] Hlen;
    simpl in *; try done.
  unfold AbsaSpec.sub_token_rows.
  replace (length sub - 1) with 0 by lia. simpl. f_equal. apply IH. lia.
Qed.

Lemma widen_columns_unsplit (ws : list Z) (st : list (list string)) :
  length ws = length st ->
  Forall (fun sub => length sub <= 1) st ->
  concat (zip_with (fun w sub => w :: replicate (length sub - 1) 0%Z) ws st) = ws.
Proof.
  intros Hlen HF. revert ws Hlen.
  induction HF as [| sub st Hsub _ IH]; intros [| w ws] Hlen;
    simpl in *; try done.
  replace (length sub - 1) with 0 by lia. simpl. f_equal. apply IH. lia.
Qed.

Lemma widen_row_unsplit st row :
  length row = length st + 1 ->
  Forall (fun sub => length sub <= 1) st ->
  AbsaSpec.widen_row st row = row.
Proof.
  intros Hlen HF. destruct row as [| c ws]; [done |].
  simpl in *. f_equal. apply widen_columns_unsplit; [lia | done].
Qed.

(** X8.  When every word has at most one subtoken, and the rows of [heads]
    are distinct list objects forming a matrix with one row per word and one
    column more, [apply_heads_to_subtokens] returns that matrix under a new
    all-zero [CLS] row, whatever [zero_sub_tokens] is. *)
Theorem apply_heads_to_subtokens_unsplit σ hs H st z :
  distinct_rows σ hs H ->
  length H = length st ->
  Forall (fun row => length row = length st + 1) H ->
  Forall (fun sub => length sub <= 1) st ->
  exists hs' σ',
    AbsaUtils.apply_heads_to_subtokens hs st z σ
    = Some ((hs',
             AbsaUtils.mk_ndarray (length st + 1) (length st + 1)
               (replicate (length st + 1) 0%Z :: H)), σ').
Proof.
  intros HD Hlen Hrows Hone.
  pose proof (apply_heads_to_subtokens_lists_sim z st σ hs H HD) as Hsim.
  rewrite apply_heads_to_subtokens_values_any in Hsim by done.
  rewrite row_count_unsplit, sub_token_rows_unsplit in Hsim by done.
  assert (Hw : AbsaSpec.widen_row st <$> H = H).
  { clear Hsim HD Hlen. induction Hrows as [| row H Hrow _ IH]; [done |].
    rewrite fmap_cons, IH. by rewrite widen_row_unsplit. }
  rewrite Hw in Hsim.
  unfold AbsaUtils.apply_heads_to_subtokens. rewrite M_bind_run.
  destruct (AbsaUtils.apply_heads_to_subtokens_lists hs st z σ)
    as [[[hs' rows] σ'] |]; [| done].
  destruct Hsim as [-> _]. exists hs', σ'.
  rewrite (np_array_rectangular _ (length st) (length st + 1)).
  - by rewrite <- (Nat.add_1_r (length st)).
  - cbn [length]. by rewrite Hlen.
  - constructor; [apply length_replicate | done].
Qed.

(** A concrete instance of X8: two unsplit words. *)
Lemma apply_heads_to_subtokens_unsplit_witness :
  exists hs' σ',
    AbsaUtils.apply_heads_to_subtokens [0; 1] [["very"]; ["well"]]%string true
      [[0; 0; 1]; [1; 0; 0]]%Z
    = Some ((hs',
             AbsaUtils.mk_ndarray 3 3 [[0; 0; 0]; [0; 0; 1]; [1; 0; 0]]%Z), σ').
Proof.
  apply (apply_heads_to_subtokens_unsplit [[0; 0; 1]; [1; 0; 0]]%Z [0; 1]
           [[0; 0; 1]; [1; 0; 0]]%Z [["very"]; ["well"]]%string true).
  - split; [| by repeat constructor].
    apply NoDup_cons. split; [| apply NoDup_singleton].
    intros Hin. apply list_elem_of_singleton in Hin. discriminate.
  - reflexivity.
  - by repeat constructor.
  - repeat constructor.
Defined.
End Unsplit.

(** ** apply_heads_to_subtokens with fewer head rows than words *)

Section ShortHeads.
Import AbsaUtils.

Lemma insert_sub_token_rows_past_end z i k hs σ :
  length hs <= i ->
  insert_sub_token_rows z i (S k) hs σ = None.
Proof.
  intros Hlen. cbn [insert_sub_token_rows]. rewrite M_bind_run.
  unfold getitem. by rewrite (proj2 (lookup_ge_None hs i)).
Qed.

(** The first loop nest raises as soon as it reaches a split word that has
    no row. *)
Lemma expand_rows_past_end z st n hs σ i sub :
  i < n -> length hs <= i ->
  st !! i = Some sub -> 2 <= length sub ->
  expand_rows z st (Py.range_down n) hs σ = None.
Proof.
  intros Hin Hlen Hsub Htwo. induction n as [| n IH]; [lia |].
  rewrite py_range_down_S. cbn [expand_rows]. rewrite M_bind_run.
  unfold getitem at 1.
  destruct (decide (i = n)) as [<- | Hne].
  - rewrite Hsub. unfold mret at 1, M_ret at 1. rewrite M_bind_run.
    destruct (length sub - 1) as [| k] eqn:Ek; [lia |].
    by rewrite insert_sub_token_rows_past_end.
  - destruct (st !! n) as [sub_n |]; [| done].
    unfold mret at 1, M_ret at 1. rewrite M_bind_run.
    destruct (length sub_n - 1) as [| k].
    + cbn [insert_sub_token_rows]. unfold mret at 1, M_ret at 1.
      apply IH. lia.
    + rewrite insert_sub_token_rows_past_end; [done | lia].
Qed.

(** X19.  When some word with two or more subtokens has no row in [heads]
    (its index is [len(heads)] or more, as when [heads] has fewer rows than
    there are words), [apply_heads_to_subtokens] raises (IndexError), for
    either value of [zero_sub_tokens]. *)
Theorem apply_heads_to_subtokens_short_heads hs st z σ i sub :
  length hs <= i ->
  st !! i = Some sub -> 2 <= length sub ->
  apply_heads_to_subtokens hs st z σ = None.
Proof.
  intros Hlen Hsub Htwo.
  unfold apply_heads_to_subtokens, apply_heads_to_subtokens_lists.
  rewrite !M_bind_run.
  rewrite (expand_rows_past_end z st (length st) hs σ i sub); try done.
  by eapply lookup_lt_Some.
Qed.

(** A concrete instance of X19: one head row for two words, the second
    split in two. *)
Lemma apply_heads_to_subtokens_short_heads_witness :
  apply_heads_to_subtokens [0] [["very"]; ["play"; "##ing"]]%string false
    [[0; 1; 0]]%Z
  = None.
Proof.
  apply (apply_heads_to_subtokens_short_heads [0]
           [["very"]; ["play"; "##ing"]]%string false [[0; 1; 0]]%Z 1
           ["play"; "##ing"]%string).
  - simpl. lia.
  - reflexivity.
  - simpl. lia.
Defined.
End ShortHeads.

(** ** prepare_data.py: what the dictionaries record at the end of a run *)

Section NoteSpanFields.
Import PrepareData PrepareSpec PrepareIndex.
Variable spacy_normalizer : string -> string -> string.

(** The three dictionaries other than [id2rep] after one update. *)
Lemma note_span_fields np lemma d d' :
  note_span spacy_normalizer np lemma d = Some d' ->
  np2id d' = <[np := spacy_normalizer np lemma]> (np2id d) /\
  np2count d' = <[np := default 0 (np2count d !! np) + 1]> (np2count d) /\
  id2group d'
  = match id2group d !! spacy_normalizer np lemma with
    | Some group =>
        if bool_decide (np ∈ group) then id2group d
        else <[spacy_normalizer np lemma := group ++ [np]]> (id2group d)
    | None => <[spacy_normalizer np lemma := [np]]> (id2group d)
    end.
Proof.
  unfold note_span.
  assert (Hc : match np2count d !! np with
               | None => <[np := 1]> (np2count d)
               | Some c => <[np := c + 1]> (np2count d)
               end = <[np := default 0 (np2count d !! np) + 1]> (np2count d))
    by by destruct (np2count d !! np).
  rewrite Hc.
  destruct (id2group d !! spacy_normalizer np lemma) as [group |].
  - case_bool_decide as Hnot.
    + rewrite bool_decide_eq_false_2 by done. by intros [= <-].
    + rewrite bool_decide_eq_true_2 by done.
      rewrite lookup_insert_eq. cbn [mbind option_bind].
      destruct (id2rep d !! spacy_normalizer np lemma) as [rep |] eqn:Erep;
        [rewrite Erep | rewrite lookup_insert_eq]; cbn [mbind option_bind].
      * destruct (_ !! rep) as [count_rep |]; [| done].
        cbn [mbind option_bind]. destruct (count_rep <? _); by intros [= <-].
      * rewrite lookup_insert_eq. cbn [mbind option_bind].
        destruct (_ <? _); by intros [= <-].
  - by intros [= <-].
Qed.

(** Groups only grow. *)
Lemma note_span_groups_grow np lemma d d' norm group x :
  note_span spacy_normalizer np lemma d = Some d' ->
  id2group d !! norm = Some group -> x ∈ group ->
  exists group', id2group d' !! norm = Some group' /\ x ∈ group'.
Proof.
  intros Hnote Hg Hx.
  destruct (note_span_fields _ _ _ _ Hnote) as (_ & _ & ->).
  destruct (decide (norm = spacy_normalizer np lemma)) as [-> | Hne].
  - rewrite Hg. case_bool_decide; [by eexists |].
    rewrite lookup_insert_eq. eexists. split; [done |].
    apply elem_of_app. by left.
  - destruct (id2group d !! spacy_normalizer np lemma) as [g |];
      [case_bool_decide |]; rewrite ?lookup_insert_ne by done; by eexists.
Qed.

(** The noted phrase is in the group of its normalization afterwards. *)
Lemma note_span_member np lemma d d' :
  note_span spacy_normalizer np lemma d = Some d' ->
  exists group, id2group d' !! spacy_normalizer np lemma = Some group /\
    np ∈ group.
Proof.
  intros Hnote.
  destruct (note_span_fields _ _ _ _ Hnote) as (_ & _ & ->).
  destruct (id2group d !! spacy_normalizer np lemma) as [g |] eqn:Eg.
  - case_bool_decide; [by eexists |].
    rewrite lookup_insert_eq. eexists. split; [done |].
    apply elem_of_app. right. apply list_elem_of_here.
  - rewrite lookup_insert_eq. eexists. split; [done |]. apply list_elem_of_here.
Qed.

Lemma note_span_index np lemma d d' :
  index_inv d ->
  note_span spacy_normalizer np lemma d = Some d' ->
  index_inv d'.
Proof.
  intros (Hdom & Hid & Hgr) Hnote.
  pose proof (note_span_fields _ _ _ _ Hnote) as (Eid & Ecnt & Egr).
  split; [| split].
  - by rewrite Eid, Ecnt, !dom_insert_L, Hdom.
  - intros x n Hx. rewrite Eid in Hx.
    destruct (decide (x = np)) as [-> | Hne].
    + rewrite lookup_insert_eq in Hx. injection Hx as <-.
      by eapply note_span_member.
    + rewrite lookup_insert_ne in Hx by done.
      destruct (Hid _ _ Hx) as (g & Hg & Hin).
      by eapply note_span_groups_grow.
  - intros n g Hg. rewrite Egr in Hg.
    assert (Hkeep : forall x, is_Some (np2id d !! x) -> is_Some (np2id d' !! x)).
    { intros x Hx. rewrite Eid. destruct (decide (x = np)) as [-> | Hne].
      - rewrite lookup_insert_eq. by eexists.
      - by rewrite lookup_insert_ne. }
    assert (Hold : forall g0, id2group d !! n = Some g0 ->
              NoDup g0 /\ forall x, x ∈ g0 -> is_Some (np2id d' !! x)).
    { intros g0 Hg0. destruct (Hgr _ _ Hg0) as [Hnd Hmem].
      split; [done |]. intros x Hx. by apply Hkeep, Hmem. }
    assert (Hnp : is_Some (np2id d' !! np)).
    { rewrite Eid, lookup_insert_eq. by eexists. }
    destruct (id2group d !! spacy_normalizer np lemma) as [g1 |] eqn:Eg1.
    + case_bool_decide as Hin; [by apply Hold |].
      destruct (decide (n = spacy_normalizer np lemma)) as [-> | Hne].
      * rewrite lookup_insert_eq in Hg. injection Hg as <-.
        destruct (Hold _ Eg1) as [Hnd Hmem]. split.
        -- apply NoDup_app. split; [done |]. split; [| apply NoDup_singleton].
           intros x Hx Hx'. apply list_elem_of_singleton in Hx' as ->. done.
        -- intros x Hx. apply elem_of_app in Hx as [Hx | Hx]; [by apply Hmem |].
           by apply list_elem_of_singleton in Hx as ->.
      * rewrite lookup_insert_ne in Hg by done. by apply Hold.
    + destruct (decide (n = spacy_normalizer np lemma)) as [-> | Hne].
      * rewrite lookup_insert_eq in Hg. injection Hg as <-. split.
        -- apply NoDup_singleton.
        -- intros x Hx. by apply list_elem_of_singleton in Hx as ->.
      * rewrite lookup_insert_ne in Hg by done. by apply Hold.
Qed.

Lemma index_inv_empty : index_inv empty_dicts.
Proof.
  split; [done |]. split.
  - intros np norm H. cbn in H. by rewrite lookup_empty in H.
  - intros norm group H. cbn in H. by rewrite lookup_empty in H.
Qed.
End NoteSpanFields.

(** A property of the dictionaries that every update for a noun chunk
    satisfying [Q] keeps is kept by the marking loop over documents whose
    noun chunks satisfy [Q]. *)
Section LoopKeeps.
Import PrepareData PrepareSpec PrepareIndex.
Variable spacy_normalizer : string -> string -> string.
Variable mark_char : string.
Variable Q : Span -> Prop.
Variable P : dicts -> Prop.
Hypothesis note_keeps : forall sp d d',
  Q sp -> P d ->
  note_span spacy_normalizer (span_text sp) (lemma_ sp) d = Some d' -> P d'.

Lemma token_step_keeps st token st' :
  P (dict st) -> (forall sp, span st = Some sp -> Q sp) -> Forall Q (spans st) ->
  token_step spacy_normalizer mark_char st token = Some st' ->
  P (dict st') /\ (forall sp, span st' = Some sp -> Q sp) /\ Forall Q (spans st').
Proof.
  intros HP Hsp Hsps. unfold token_step.
  destruct (span st) as [sp |] eqn:Esp; [| by intros [= <-]].
  destruct (_ || _); [by intros [= <-] |].
  assert (Hnext : forall d out,
    (let '(sp', ss') := next_span (spans st) in
     Some (mk_loop_state sp' ss' false d out)) = Some st' ->
    P d -> P (dict st') /\ (forall sp, span st' = Some sp -> Q sp) /\
           Forall Q (spans st')).
  { intros d out E Hd. destruct (spans st) as [| s ss]; injection E as <-.
    - by repeat split.
    - apply Forall_cons in Hsps as [Hs Hss]. split; [done |].
      split; [by intros ? [= <-] | done]. }
  destruct (spanWritten st); cbn [negb mbind option_bind].
  - destruct (_ =? _); [intros E; by eapply Hnext | by intros [= <-]].
  - destruct (note_span _ _ _ _) as [d |] eqn:Enote; [| done].
    cbn [mbind option_bind].
    destruct (marked_text _ _ _ _ _) as [text |]; [| done].
    cbn [mbind option_bind].
    assert (Hd : P d)
      by (eapply note_keeps; [exact (Hsp sp eq_refl) | exact HP | exact Enote]).
    destruct (_ =? _); [intros E; by eapply Hnext | by intros [= <-]].
Qed.

Lemma token_loop_keeps ts st st' :
  P (dict st) -> (forall sp, span st = Some sp -> Q sp) -> Forall Q (spans st) ->
  token_loop spacy_normalizer mark_char st ts = Some st' ->
  P (dict st').
Proof.
  revert st. induction ts as [| token ts IH]; intros st HP Hsp Hsps.
  - by intros [= <-].
  - cbn [token_loop].
    destruct (token_step _ _ st token) as [st1 |] eqn:E; [| done].
    cbn [mbind option_bind].
    destruct (token_step_keeps _ _ _ HP Hsp Hsps E) as (HP1 & Hsp1 & Hsps1).
    by apply IH.
Qed.

Lemma mark_docs_keeps docs d out d' out' :
  Forall Q (corpus_chunks docs) -> P d ->
  mark_docs spacy_normalizer mark_char docs d out = Some (d', out') ->
  P d'.
Proof.
  revert d out. induction docs as [| doc docs IH]; intros d out HQ HP.
  - by intros [= <- _].
  - unfold corpus_chunks in HQ. rewrite bind_cons in HQ.
    apply Forall_app in HQ as [HQ1 HQ2].
    cbn [mark_docs]. unfold mark_doc at 1.
    destruct (next_span (noun_chunks doc)) as [sp ss] eqn:Enext.
    destruct (token_loop _ _ _ (tokens doc)) as [st |] eqn:Eloop; [| done].
    cbn [mbind option_bind]. apply IH; [done |].
    apply (token_loop_keeps _ _ _) in Eloop; [done | done | |];
      cbn [span spans]; destruct (noun_chunks doc) as [| s ss0];
      injection Enext as <- <-; try done.
    + apply Forall_cons in HQ1 as [? ?]. by intros ? [= <-].
    + by apply Forall_cons in HQ1 as [? ?].
Qed.
End LoopKeeps.

(** X9.  At the end of the marking loop over any documents, the dictionaries
    index each other: [np2id] and [np2count] have the same keys, every
    phrase is a member of the group of its id ([id2group[np2id[np]]]), no
    group lists a phrase twice, and every member of a group has an id. *)
Theorem index_consistent spacy_normalizer mark_char docs :
  exists d out,
    PrepareData.main spacy_normalizer mark_char docs = Some (d, out) /\
    dom (PrepareData.np2id d) = dom (PrepareData.np2count d) /\
    (forall np norm, PrepareData.np2id d !! np = Some norm ->
       exists group, PrepareData.id2group d !! norm = Some group /\ np ∈ group) /\
    (forall norm group, PrepareData.id2group d !! norm = Some group ->
       NoDup group /\
       forall np, np ∈ group -> is_Some (PrepareData.np2id d !! np)).
Proof.
  destruct (mark_docs_inv spacy_normalizer mark_char docs _ [] dict_inv_empty)
    as (d & out & E & _).
  exists d, out. split; [exact E |].
  apply (mark_docs_keeps spacy_normalizer mark_char (fun _ => True)
           PrepareIndex.index_inv) in E; [exact E | | | ].
  - intros sp d0 d1 _ H0 Hnote. by eapply note_span_index.
  - by apply Forall_forall.
  - apply index_inv_empty.
Qed.

(** ** prepare_data.py: the counts *)

Section Counts.
Import PrepareData PrepareSpec PrepareIndex.
Variable spacy_normalizer : string -> string -> string.
Variable mark_char : string.

Lemma occurrences_snoc x pre np lemma :
  occurrences x (pre ++ [(np, lemma)])
  = occurrences x pre + (if decide (np = x) then 1 else 0).
Proof.
  unfold occurrences. rewrite filter_app, length_app. f_equal.
  rewrite filter_cons, filter_nil. cbn [fst].
  by destruct (decide (np = x)).
Qed.

Lemma count_entry_default n : default 0 (count_entry n) = n.
Proof. by destruct n. Qed.

Lemma count_entry_succ n : count_entry (n + 1) = Some (n + 1).
Proof. by rewrite Nat.add_1_r. Qed.

(** After the noun phrases [nps] have been noted, a phrase is counted as
    often as it occurs among them and among those noted before. *)
Lemma note_spans_count nps pre d d' :
  (forall x, np2count d !! x = count_entry (occurrences x pre)) ->
  note_spans spacy_normalizer nps d = Some d' ->
  forall x, np2count d' !! x = count_entry (occurrences x (pre ++ nps)).
Proof.
  revert pre d. induction nps as [| [np lemma] nps IH]; intros pre d Hpre.
  - intros [= <-]. by rewrite app_nil_r.
  - cbn [note_spans].
    destruct (note_span spacy_normalizer np lemma d) as [d1 |] eqn:E; [| done].
    cbn [mbind option_bind]. intros Hrest.
    rewrite (cons_middle (np, lemma) pre nps), (assoc_L (++)).
    apply (IH _ d1); [| done].
    intros x. destruct (note_span_fields _ _ _ _ _ E) as (_ & -> & _).
    rewrite occurrences_snoc, Hpre, count_entry_default.
    destruct (decide (np = x)) as [-> | Hne].
    + by rewrite lookup_insert_eq, count_entry_succ.
    + by rewrite lookup_insert_ne, Hpre, Nat.add_0_r.
Qed.

Lemma note_spans_app nps1 nps2 d :
  note_spans spacy_normalizer (nps1 ++ nps2) d
  = note_spans spacy_normalizer nps1 d ≫= note_spans spacy_normalizer nps2.
Proof.
  revert d. induction nps1 as [| [np lemma] nps1 IH]; intros d; [done |].
  cbn [app note_spans].
  destruct (note_span spacy_normalizer np lemma d) as [d1 |]; [| done].
  cbn [mbind option_bind]. apply IH.
Qed.

(** The dictionaries of the expected corpus are those of noting its noun
    chunks in order. *)
Lemma expected_writes_dict segs d d' ws :
  expected_writes spacy_normalizer mark_char segs d = Some (d', ws) ->
  note_spans spacy_normalizer (omap segment_np segs) d = Some d'.
Proof.
  revert d ws. induction segs as [| seg segs IH]; intros d ws.
  - by intros [= <- _].
  - cbn [expected_writes]. destruct seg as [t | np lemma t ts];
      cbn [segment_writes omap list_omap segment_np mbind option_bind].
    + destruct (expected_writes _ _ segs d) as [[d1 ws1] |] eqn:E; [| done].
      cbn [mbind option_bind]. intros [= <- _]. by eapply IH.
    + cbn [note_spans].
      destruct (note_span spacy_normalizer np lemma d) as [d1 |]; [| done].
      cbn [mbind option_bind].
      destruct (marked_text _ _ _ _ _) as [text |]; [| done].
      cbn [mbind option_bind].
      destruct (expected_writes _ _ segs d1) as [[d2 ws1] |] eqn:E; [| done].
      cbn [mbind option_bind]. intros [= <- _]. by eapply IH.
Qed.

Lemma expected_corpus_dict docs d d' ws :
  expected_corpus spacy_normalizer mark_char docs d = Some (d', ws) ->
  note_spans spacy_normalizer (corpus_nps docs) d = Some d'.
Proof.
  revert d ws. induction docs as [| segs docs IH]; intros d ws.
  - by intros [= <- _].
  - cbn [expected_corpus]. unfold corpus_nps. rewrite bind_cons, note_spans_app.
    destruct (expected_writes _ _ segs d) as [[d1 ws1] |] eqn:E1; [| done].
    cbn [mbind option_bind]. rewrite (expected_writes_dict _ _ _ _ E1).
    cbn [mbind option_bind].
    destruct (expected_corpus _ _ docs d1) as [[d2 ws2] |] eqn:E2; [| done].
    cbn [mbind option_bind]. intros [= <- _]. by eapply IH.
Qed.
End Counts.

(** X10.  On documents laid out as spaCy lays them out (tokens in order,
    noun chunks runs of consecutive tokens), a run of the script ends with
    [np2count[np]] equal to the number of noun chunks of the corpus whose
    text is [np], and with no entry for a text that is no noun chunk. *)
Theorem np2count_counts_chunks spacy_normalizer mark_char
    (docs : list (list PrepareSpec.segment)) :
  Forall (fun segs =>
            PrepareSpec.in_order 0 (PrepareData.tokens (PrepareSpec.doc_of segs)))
         docs ->
  exists d out,
    PrepareData.main spacy_normalizer mark_char (PrepareSpec.doc_of <$> docs)
    = Some (d, out) /\
    forall np,
      PrepareData.np2count d !! np
      = PrepareIndex.count_entry
          (PrepareIndex.occurrences np (PrepareIndex.corpus_nps docs)).
Proof.
  intros Hdocs.
  destruct (mark_docs_segments spacy_normalizer mark_char docs _ []
              Hdocs dict_inv_empty) as (d & ws & E & Hrun).
  exists d, ws. split; [exact Hrun |].
  apply expected_corpus_dict in E.
  apply (note_spans_count spacy_normalizer _ [] PrepareData.empty_dicts d);
    [| exact E].
  intros x. cbn. apply lookup_empty.
Qed.

(** A concrete instance of X10: "The big dog barks ." with the noun chunk
    "The big dog", then "A dog" with the chunk "A dog", then "The big dog"
    again. *)
Lemma np2count_counts_chunks_witness :
  exists d out,
    PrepareData.main (fun _ lemma => lemma) "_"
      (PrepareSpec.doc_of <$>
         [[PrepareSpec.Chunk "The big dog" "the big dog"
             (PrepareData.mk_Token 0 "The")
             [PrepareData.mk_Token 4 "big"; PrepareData.mk_Token 8 "dog"];
           PrepareSpec.Outside (PrepareData.mk_Token 12 "barks");
           PrepareSpec.Outside (PrepareData.mk_Token 18 ".")];
          [PrepareSpec.Chunk "A dog" "a dog" (PrepareData.mk_Token 0 "A")
             [PrepareData.mk_Token 2 "dog"]];
          [PrepareSpec.Chunk "The big dog" "the big dog"
             (PrepareData.mk_Token 0 "The")
             [PrepareData.mk_Token 4 "big"; PrepareData.mk_Token 8 "dog"]]])
    = Some (d, out) /\
    PrepareData.np2count d !! "The big dog"%string = Some 2 /\
    PrepareData.np2count d !! "barks"%string = None.
Proof.
  destruct (np2count_counts_chunks (fun _ lemma => lemma) "_"
      [[PrepareSpec.Chunk "The big dog" "the big dog"
          (PrepareData.mk_Token 0 "The")
          [PrepareData.mk_Token 4 "big"; PrepareData.mk_Token 8 "dog"];
        PrepareSpec.Outside (PrepareData.mk_Token 12 "barks");
        PrepareSpec.Outside (PrepareData.mk_Token 18 ".")];
       [PrepareSpec.Chunk "A dog" "a dog" (PrepareData.mk_Token 0 "A")
          [PrepareData.mk_Token 2 "dog"]];
       [PrepareSpec.Chunk "The big dog" "the big dog"
          (PrepareData.mk_Token 0 "The")
          [PrepareData.mk_Token 4 "big"; PrepareData.mk_Token 8 "dog"]]])
    as (d & out & E & H).
  - repeat (apply Forall_cons_2 || apply Forall_nil_2);
      cbn; unfold PrepareSpec.token_end; cbn; lia.
  - exists d, out. split; [exact E |].
    split; [exact (H "The big dog"%string) | exact (H "barks"%string)].
Defined.

(** ** prepare_data.py: the representative of a group *)

Section Representative.
Import PrepareData PrepareSpec PrepareIndex.
Variable spacy_normalizer : string -> string -> string.
Variable f : string -> string.

Lemma note_span_rep sp d d' :
  normalized_by spacy_normalizer f sp ->
  dict_inv d -> rep_inv f d ->
  note_span spacy_normalizer (span_text sp) (lemma_ sp) d = Some d' ->
  rep_inv f d'.
Proof.
  unfold normalized_by.
  generalize (span_text sp) (lemma_ sp). clear sp. intros np lemma Hn.
  intros [[Hdom Hrepin] Hcounted] (R1 & R2 & R3 & R4) Hnote.
  pose proof (note_span_fields _ _ _ _ _ Hnote) as (Eid & Ecnt & Egr).
  pose proof (note_span_member _ _ _ _ _ Hnote) as Hmember.
  pose proof (fun n g x => note_span_groups_grow _ np lemma d d' n g x Hnote)
    as Hgrow.
  set (c0 := default 0 (np2count d !! np)) in *.
  assert (F1 : forall x, x ≠ np -> np2count d' !! x = np2count d !! x).
  { intros x Hx. by rewrite Ecnt, lookup_insert_ne. }
  assert (F2 : np2count d' !! np = Some (c0 + 1)).
  { by rewrite Ecnt, lookup_insert_eq. }
  assert (F3 : forall n g x, n ≠ f np -> id2group d !! n = Some g -> x ∈ g ->
                 x ≠ np).
  { intros n g x Hne Hg Hx ->. apply Hne. symmetry. by eapply R2. }
  split; [| split; [| split]].
  - intros x n Hx. rewrite Eid in Hx.
    destruct (decide (x = np)) as [-> | Hne].
    + rewrite lookup_insert_eq in Hx. by injection Hx as <-.
    + rewrite lookup_insert_ne in Hx by done. by apply R1.
  - intros n g x Hg Hx. rewrite Egr, Hn in Hg.
    destruct (id2group d !! f np) as [g1 |] eqn:Eg1.
    + case_bool_decide as Hin; [by eapply R2 |].
      destruct (decide (n = f np)) as [-> | Hne].
      * rewrite lookup_insert_eq in Hg. injection Hg as <-.
        apply elem_of_app in Hx as [Hx | Hx]; [by eapply R2 |].
        by apply list_elem_of_singleton in Hx as ->.
      * rewrite lookup_insert_ne in Hg by done. by eapply R2.
    + destruct (decide (n = f np)) as [-> | Hne].
      * rewrite lookup_insert_eq in Hg. injection Hg as <-.
        by apply list_elem_of_singleton in Hx as ->.
      * rewrite lookup_insert_ne in Hg by done. by eapply R2.
  - intros x c Hx. destruct (decide (x = np)) as [-> | Hne].
    + rewrite F2 in Hx. injection Hx as <-. split; [lia |].
      by rewrite <- Hn.
    + rewrite F1 in Hx by done. destruct (R3 _ _ Hx) as (Hc & g & Hg & Hin).
      split; [done |]. by eapply Hgrow.
  - (* the representative *)
    assert (Hother : forall n rep g x c,
      n ≠ f np -> id2rep d !! n = Some rep -> id2group d !! n = Some g ->
      x ∈ g -> np2count d' !! x = Some c ->
      exists c_rep, np2count d' !! rep = Some c_rep /\ c <= c_rep).
    { intros n rep g x c Hne Hrep Hg Hx Hc.
      destruct (Hrepin _ _ Hrep) as (g' & Hg' & Hrep').
      rewrite Hg in Hg'. injection Hg' as <-.
      rewrite F1 in Hc by exact (F3 _ _ _ Hne Hg Hx).
      rewrite F1 by exact (F3 _ _ _ Hne Hg Hrep').
      exact (R4 _ _ _ _ _ Hrep Hg Hx Hc). }
    revert Hnote. unfold note_span. rewrite Hn.
    destruct (id2group d !! f np) as [g |] eqn:Eg.
    + assert (Hin : f np ∈ dom (id2rep d)).
      { rewrite <- Hdom. apply elem_of_dom. by eexists. }
      apply elem_of_dom in Hin as [rep0 Erep0]. rewrite Erep0.
      destruct (Hrepin _ _ Erep0) as (g' & Hg' & Hrep0).
      rewrite Eg in Hg'. injection Hg' as <-.
      destruct (Hcounted _ _ _ Eg Hrep0) as [cr0 Ecr0].
      destruct (R3 _ _ Ecr0) as [Hcr0 _].
      case_bool_decide as Hnp.
      * (* a new member: counted for the first time *)
        intros [= <-]. cbn [id2rep id2group np2count] in *.
        assert (Hc0 : c0 = 0).
        { unfold c0. destruct (np2count d !! np) as [c |] eqn:Ec; [| done].
          destruct (R3 _ _ Ec) as (_ & g' & Hg' & Hin').
          rewrite Eg in Hg'. by injection Hg' as <-. }
        assert (Hrep0np : rep0 ≠ np) by (by intros ->).
        intros n rep grp x c Hrep Hgrp Hx Hc.
        destruct (decide (n = f np)) as [-> | Hne].
        -- rewrite Erep0 in Hrep. injection Hrep as <-.
           rewrite lookup_insert_eq in Hgrp. injection Hgrp as <-.
           rewrite F1, Ecr0 by done. exists cr0. split; [done |].
           apply elem_of_app in Hx as [Hx | Hx].
           ++ rewrite F1 in Hc by (by intros ->).
              destruct (R4 _ _ _ _ _ Erep0 Eg Hx Hc) as (cr & Ecr & Hle).
              rewrite Ecr0 in Ecr. by injection Ecr as <-.
           ++ apply list_elem_of_singleton in Hx as ->.
              rewrite F2 in Hc. injection Hc as <-. lia.
        -- rewrite lookup_insert_ne in Hgrp by done.
           exact (Hother _ _ _ _ _ Hne Hrep Hgrp Hx Hc).
      * (* a known member: counted once more *)
        assert (Ec0 : np2count d !! np = Some c0).
        { destruct (Hcounted _ _ _ Eg Hnp) as [c Ec]. unfold c0. by rewrite Ec. }
        assert (Hc : match np2count d !! np with
                     | None => <[np := 1]> (np2count d)
                     | Some c => <[np := c + 1]> (np2count d)
                     end = np2count d').
        { by rewrite Ecnt, Ec0. }
        rewrite Hc, F2. cbn [mbind option_bind].
        assert (Ecrep : exists crep, np2count d' !! rep0 = Some crep /\
                          cr0 <= crep /\ (rep0 ≠ np -> crep = cr0)).
        { destruct (decide (rep0 = np)) as [-> | Hne].
          - exists (c0 + 1). rewrite F2. split; [done |].
            rewrite Ec0 in Ecr0. injection Ecr0 as <-. split; [lia | done].
          - exists cr0. by rewrite F1. }
        destruct Ecrep as (crep & Ecrep & Hcrep & Hcrep').
        rewrite Erep0. cbn [mbind option_bind].
        rewrite Ecrep. cbn [mbind option_bind].
        assert (Hmem : forall x c, x ∈ g -> np2count d' !! x = Some c ->
                         c = c0 + 1 \/ c <= cr0).
        { intros x c Hx Hcx. destruct (decide (x = np)) as [-> | Hne].
          - rewrite F2 in Hcx. injection Hcx as <-. by left.
          - rewrite F1 in Hcx by done.
            destruct (R4 _ _ _ _ _ Erep0 Eg Hx Hcx) as (cr & Ecr & Hle).
            rewrite Ecr0 in Ecr. injection Ecr as <-. by right. }
        destruct (Nat.ltb_spec crep (c0 + 1)) as [Hlt | Hge].
        -- intros [= <-]. cbn [id2rep id2group np2count] in *.
           intros n rep grp x c Hrep Hgrp Hx Hcx.
           destruct (decide (n = f np)) as [-> | Hne].
           ++ rewrite lookup_insert_eq in Hrep. injection Hrep as <-.
              rewrite Eg in Hgrp. injection Hgrp as <-.
              exists (c0 + 1). split; [done |].
              destruct (Hmem _ _ Hx Hcx); lia.
           ++ rewrite lookup_insert_ne in Hrep by done.
              exact (Hother _ _ _ _ _ Hne Hrep Hgrp Hx Hcx).
        -- intros [= <-]. cbn [id2rep id2group np2count] in *.
           intros n rep grp x c Hrep Hgrp Hx Hcx.
           destruct (decide (n = f np)) as [-> | Hne].
           ++ rewrite Erep0 in Hrep. injection Hrep as <-.
              rewrite Eg in Hgrp. injection Hgrp as <-.
              exists crep. split; [done |].
              destruct (Hmem _ _ Hx Hcx); lia.
           ++ exact (Hother _ _ _ _ _ Hne Hrep Hgrp Hx Hcx).
    + (* a new group *)
      assert (Erep0 : id2rep d !! f np = None).
      { apply not_elem_of_dom. rewrite <- Hdom. by apply not_elem_of_dom. }
      rewrite Erep0. intros [= <-]. cbn [id2rep id2group np2count] in *.
      intros n rep grp x c Hrep Hgrp Hx Hcx.
      destruct (decide (n = f np)) as [-> | Hne].
      * rewrite lookup_insert_eq in Hrep. injection Hrep as <-.
        rewrite lookup_insert_eq in Hgrp. injection Hgrp as <-.
        apply list_elem_of_singleton in Hx as ->. by exists c.
      * rewrite !lookup_insert_ne in Hrep by done.
        rewrite lookup_insert_ne in Hgrp by done.
        exact (Hother _ _ _ _ _ Hne Hrep Hgrp Hx Hcx).
Qed.

Lemma rep_inv_empty : rep_inv f empty_dicts.
Proof.
  split; [| split; [| split]].
  - intros np norm H. cbn in H. by rewrite lookup_empty in H.
  - intros norm group np H. cbn in H. by rewrite lookup_empty in H.
  - intros np c H. cbn in H. by rewrite lookup_empty in H.
  - intros norm rep group np c H. cbn in H. by rewrite lookup_empty in H.
Qed.
End Representative.

(** X11.  If the normalization of every noun chunk of the corpus is
    determined by the chunk's text, then at the end of the marking loop the
    representative of every group is a member counted at least as often as
    every member of the group, and each phrase is in one group only, that of
    its id. *)
Theorem representative_most_frequent spacy_normalizer mark_char f docs :
  Forall (PrepareIndex.normalized_by spacy_normalizer f)
         (PrepareIndex.corpus_chunks docs) ->
  exists d out,
    PrepareData.main spacy_normalizer mark_char docs = Some (d, out) /\
    (forall norm rep group np c,
        PrepareData.id2rep d !! norm = Some rep ->
        PrepareData.id2group d !! norm = Some group ->
        np ∈ group ->
        PrepareData.np2count d !! np = Some c ->
        exists c_rep, PrepareData.np2count d !! rep = Some c_rep /\ c <= c_rep) /\
    (forall norm group np,
        PrepareData.id2group d !! norm = Some group -> np ∈ group ->
        PrepareData.np2id d !! np = Some norm).
Proof.
  intros Hnorm.
  destruct (mark_docs_inv spacy_normalizer mark_char docs _ [] dict_inv_empty)
    as (d & out & E & _).
  exists d, out. split; [exact E |].
  apply (mark_docs_keeps spacy_normalizer mark_char
           (PrepareIndex.normalized_by spacy_normalizer f)
           (fun d => PrepareSpec.dict_inv d /\ PrepareIndex.index_inv d /\
                     PrepareIndex.rep_inv f d)) in E.
  - destruct E as (_ & (_ & _ & Hmem) & (R1 & R2 & _ & R4)).
    split; [exact R4 |]. intros norm group np Hg Hnp.
    destruct (Hmem _ _ Hg) as [_ Hid]. destruct (Hid _ Hnp) as [n Hn].
    rewrite Hn. f_equal. rewrite (R1 _ _ Hn). by eapply R2.
  - intros sp d0 d1 HQ (Hinv & Hidx & Hrep) Hnote. split; [| split].
    + destruct (note_span_inv spacy_normalizer (PrepareData.span_text sp)
                  (PrepareData.lemma_ sp) d0 Hinv) as (d2 & E2 & Hinv2 & _).
      rewrite Hnote in E2. by injection E2 as <-.
    + by eapply note_span_index.
    + by eapply note_span_rep.
  - exact Hnorm.
  - split; [apply dict_inv_empty |].
    split; [apply index_inv_empty | apply rep_inv_empty].
Qed.

(** A concrete instance of X11: "dog", "dogs" and "dogs" again, all
    normalized to "dog". *)
Lemma representative_most_frequent_witness :
  exists d out,
    PrepareData.main
      (fun np _ => if String.eqb np "dogs" then "dog" else np)%string "_"
      [PrepareData.mk_Doc
         [PrepareData.mk_Token 0 "dog"; PrepareData.mk_Token 4 "dogs";
          PrepareData.mk_Token 9 "dogs"]
         [PrepareData.mk_Span 0 3 "dog" "dog";
          PrepareData.mk_Span 4 8 "dogs" "dog";
          PrepareData.mk_Span 9 13 "dogs" "dog"]]
    = Some (d, out) /\
    (forall norm rep group np c,
        PrepareData.id2rep d !! norm = Some rep ->
        PrepareData.id2group d !! norm = Some group ->
        np ∈ group ->
        PrepareData.np2count d !! np = Some c ->
        exists c_rep, PrepareData.np2count d !! rep = Some c_rep /\ c <= c_rep) /\
    (forall norm group np,
        PrepareData.id2group d !! norm = Some group -> np ∈ group ->
        PrepareData.np2id d !! np = Some norm).
Proof.
  apply (representative_most_frequent
           (fun np _ => if String.eqb np "dogs" then "dog" else np)%string "_"
           (fun np => if String.eqb np "dogs" then "dog" else np)%string).
  repeat (apply Forall_cons_2 || apply Forall_nil_2); reflexivity.
Defined.

(** Without that condition the representative can be counted less often
    than another member: here "y" joins the group "A" when it has already
    been counted twice under the lemma "B". *)
Example representative_not_most_frequent :
  (fun r => (PrepareData.id2rep r.1 !! "A", PrepareData.id2group r.1 !! "A",
             PrepareData.np2count r.1 !! "x", PrepareData.np2count r.1 !! "y"))%string
    <$> PrepareData.main (fun _ lemma => lemma) "_"
          [PrepareData.mk_Doc
             [PrepareData.mk_Token 0 "x"; PrepareData.mk_Token 2 "y";
              PrepareData.mk_Token 4 "y"; PrepareData.mk_Token 6 "y"]
             [PrepareData.mk_Span 0 1 "x" "A"; PrepareData.mk_Span 2 3 "y" "B";
              PrepareData.mk_Span 4 5 "y" "B"; PrepareData.mk_Span 6 7 "y" "A"]]
  = Some (Some "x", Some ["x"; "y"], Some 1, Some 3)%string.
Proof. vm_compute. reflexivity. Qed.

(** ** prepare_data.py: a marked noun phrase is one word *)

Section MarkedWord.
Import PrepareData PrepareSpec PrepareIndex.

Lemma occurs_app c s1 s2 : occurs c (s1 +:+ s2) <-> occurs c s1 \/ occurs c s2.
Proof.
  induction s1 as [| c1 s1 IH].
  - change ("" +:+ s2)%string with s2. simpl. tauto.
  - change (String c1 s1 +:+ s2) with (String c1 (s1 +:+ s2)). simpl.
    rewrite IH. tauto.
Qed.

Lemma string_app_assoc (s1 s2 s3 : string) :
  s1 +:+ s2 +:+ s3 = (s1 +:+ s2) +:+ s3.
Proof.
  induction s1 as [| c s1 IH]; [done |].
  change (String c (s1 +:+ s2 +:+ s3) = String c ((s1 +:+ s2) +:+ s3)).
  by rewrite IH.
Qed.

Lemma replace_space_no_space mark s :
  ~ occurs " " mark -> ~ occurs " " (replace_space mark s).
Proof.
  intros Hmark. induction s as [| c s IH]; simpl; [tauto |].
  destruct (Ascii.eqb_spec c " ") as [-> | Hne].
  - rewrite occurs_app. tauto.
  - simpl. tauto.
Qed.

(** X12.  When the mark character contains no space, the text written for a
    noun chunk is one word: it has no space but the one that ends it. *)
Theorem marked_text_one_word spacy_normalizer mark_char np lemma d text :
  ~ occurs " " mark_char ->
  marked_text spacy_normalizer mark_char np lemma d = Some text ->
  exists word, text = word +:+ " " /\ ~ occurs " " word.
Proof.
  intros Hmark. unfold marked_text.
  destruct (id2rep d !! spacy_normalizer np lemma) as [rep |]; [| done].
  cbn [mbind option_bind]. intros [= <-].
  exists (replace_space mark_char rep +:+ mark_char). split.
  - apply string_app_assoc.
  - rewrite occurs_app. pose proof (replace_space_no_space mark_char rep Hmark).
    tauto.
Qed.

(** A concrete instance of X12: the representative "the big dog". *)
Lemma marked_text_one_word_witness :
  exists word, "the_big_dog_ "%string = word +:+ " " /\ ~ occurs " " word.
Proof.
  apply (marked_text_one_word (fun _ lemma => lemma) "_" "The big dog"
           "the big dog"
           (mk_dicts ∅ ∅ {["the big dog"%string := "the big dog"%string]} ∅)).
  - cbn. intros [H | []]. discriminate.
  - reflexivity.
Defined.
End MarkedWord.

(** ** prepare_data.py: documents without noun chunks *)

Section PlainDocuments.
Import PrepareData.
Variable spacy_normalizer : string -> string -> string.
Variable mark_char : string.


End PlainDocuments.

(** A document of two words around a blank token. *)
Example mark_doc_no_chunks_example :
  PrepareData.mark_doc (fun _ lemma => lemma) "_"
    (PrepareData.mk_Doc
       [PrepareData.mk_Token 0 "Hello"; PrepareData.mk_Token 6 " ";
        PrepareData.mk_Token 8 "world"] [])
    PrepareData.empty_dicts []
  = Some (PrepareData.empty_dicts,
          ["Hello "; "world "; String "010" EmptyString]%string).
Proof. vm_compute. reflexivity. Qed.

(** ** train.py: checkpoints and validation passes *)

Section TrainCheckpoints.
Import Train.

(** Up to the epoch loop the script sets the variables, makes at most the
    directory [trained_model] and runs nothing. *)
Lemma session_prelude model_dir restore_training epoch_no path_exists
    get_checkpoint_state gfile_exists :
  exists o lines,
    session_body model_dir restore_training epoch_no path_exists
      get_checkpoint_state gfile_exists start_world
    = for_each (range epoch_no) (epoch_body model_dir)
        (mk_world (Some o) [] [] []
           (if path_exists "trained_model" then [] else ["trained_model"%string])
           lines).
Proof.
  unfold session_body. rewrite T_bind_run.
  destruct (path_exists "trained_model"); cbn [negb];
    (destruct (get_checkpoint_state model_dir) as [p |];
     [destruct (restore_training
                && (gfile_exists p || gfile_exists (p +:+ ".index"))) |]);
    by eexists _, _.
Qed.

(** Every epoch runs one training pass, saves one checkpoint and runs one
    validation pass, all on the variables of the session. *)
Lemma epochs_run_all train_dir o (epochs : list Z) w :
  variables w = Some o ->
  exists w',
    for_each epochs (epoch_body train_dir) w = Some (tt, w') /\
    variables w' = Some o /\
    trained w' = trained w ++ replicate (length epochs) o /\
    validated w' = validated w ++ replicate (length epochs) o /\
    saved w' = saved w
               ++ replicate (length epochs) (train_dir +:+ "/best_model.chk") /\
    made_dirs w' = made_dirs w.
Proof.
  revert w. induction epochs as [| epoch epochs IH]; intros w Hv.
  - exists w. by rewrite !app_nil_r.
  - destruct w as [v tr va sa md pr]. cbn [variables] in Hv. subst v.
    cbn [for_each].
    remember (for_each epochs (epoch_body train_dir)) as rest eqn:Erest.
    cbv beta iota delta [epoch_body print run_loop_train save run_loop_val
                          mbind T_bind variables trained validated saved
                          made_dirs printed].
    subst rest.
    match goal with |- context [for_each epochs _ ?w1] =>
      destruct (IH w1 eq_refl) as (w' & -> & Hv' & Htr & Hva & Hsa & Hmd) end.
    exists w'. split; [done |].
    change (variables w' = Some o /\
            trained w' = tr ++ replicate (length (epoch :: epochs)) o /\
            validated w' = va ++ replicate (length (epoch :: epochs)) o /\
            saved w' = sa ++ replicate (length (epoch :: epochs))
                               (train_dir +:+ "/best_model.chk") /\
            made_dirs w' = md).
    cbn [trained validated saved made_dirs] in Htr, Hva, Hsa, Hmd.
    rewrite Htr, Hva, Hsa, Hmd. cbn [length replicate].
    by rewrite <- !(assoc_L (++)).
Qed.

(** X13.  Whenever the session body, started in a fresh process, runs to the
    end, it has saved one checkpoint per configured epoch, every one to the
    same file [<model_dir>/best_model.chk], and has run one validation pass
    per epoch on the same variables as the training passes; the only
    directory it has made is [trained_model], whatever [model_dir] is; and
    with no epoch configured ([epoch_no <= 0]) it has trained, saved and
    validated nothing. *)
Theorem checkpoint_every_epoch model_dir restore_training epoch_no
    path_exists get_checkpoint_state gfile_exists w :
  session_body model_dir restore_training epoch_no path_exists
    get_checkpoint_state gfile_exists start_world = Some (tt, w) ->
  saved w = replicate (Z.to_nat epoch_no) (model_dir +:+ "/best_model.chk") /\
  validated w = trained w /\
  length (validated w) = Z.to_nat epoch_no /\
  made_dirs w
  = (if path_exists "trained_model" then [] else ["trained_model"%string]) /\
  ((epoch_no <= 0)%Z -> trained w = [] /\ saved w = [] /\ validated w = []).
Proof.
  destruct (session_prelude model_dir restore_training epoch_no path_exists
              get_checkpoint_state gfile_exists) as (o & lines & ->).
  match goal with |- context [for_each _ _ ?w1] =>
    destruct (epochs_run_all model_dir o (range epoch_no) w1 eq_refl)
      as (w' & -> & _ & Htr & Hva & Hsa & Hmd) end.
  intros [= <-].
  cbn [trained validated saved made_dirs app] in *.
  rewrite range_length in *.
  split; [done |]. split; [congruence |].
  split; [by rewrite Hva, length_replicate |]. split; [done |].
  intros Hle. rewrite Htr, Hsa, Hva.
  replace (Z.to_nat epoch_no) with 0 by lia. done.
Qed.

(** A concrete instance of X13: two epochs from initialized variables, the
    checkpoints going to [models/run1]. *)
Lemma checkpoint_every_epoch_witness :
  exists w,
    session_body "models/run1" false 2 (fun _ => false) (fun _ => None)
      (fun _ => false) start_world = Some (tt, w) /\
    saved w = ["models/run1/best_model.chk"; "models/run1/best_model.chk"]%string /\
    validated w = trained w /\
    length (validated w) = 2 /\
    made_dirs w = ["trained_model"%string].
Proof.
  destruct (session_body "models/run1" false 2 (fun _ => false) (fun _ => None)
              (fun _ => false) start_world) as [[[] w] |] eqn:E.
  - exists w. split; [reflexivity |].
    destruct (checkpoint_every_epoch _ _ _ _ _ _ _ E)
      as (Hsa & Hva & Hlen & Hmd & _).
    split; [exact Hsa |]. split; [exact Hva |]. split; [exact Hlen |].
    exact Hmd.
  - vm_compute in E. discriminate.
Defined.

(** The lines printed in that run. *)
Example session_body_printed :
  (snd <$> session_body "models/run1" false 2 (fun _ => false) (fun _ => None)
             (fun _ => false) start_world) ≫= (fun w => Some (printed w))
  = Some ["Begin Training";
          "Epoch Number is  0"; "Saving Weights";
          String "010" "Running Validation Test";
          "Epoch Number is  1"; "Saving Weights";
          String "010" "Running Validation Test"]%string.
Proof. reflexivity. Qed.
End TrainCheckpoints.

(** ** read_examples_from_file: which files are read, and into what *)

Section ReadExamples.
Import AbsaUtils AbsaRead.
Variable int : string -> option Z.
Variable mode : string.
Variable literal_shared : bool.

Lemma is_literal_true cell :
  is_literal literal_shared cell = true
  <-> literal_shared = true /\ cell = "_"%string.
Proof.
  unfold is_literal. rewrite andb_true_iff.
  by destruct (String.eqb_spec cell "_"); split; intros [? ?].
Qed.

Lemma parse_head_Some head :
  is_Some (parse_head int literal_shared head)
  <-> (literal_shared = true /\ head = "_"%string)
      \/ Forall (fun h => is_Some (int h)) (split_on "~" head).
Proof.
  unfold parse_head. rewrite <- is_literal_true.
  destruct (is_literal literal_shared head); cbn [negb].
  - split; [by left | by eexists].
  - rewrite mapM_is_Some. split; [by right | by intros [? | ?]].
Qed.

Lemma row_step_Some st row :
  is_Some (row_step int mode literal_shared st row) <-> row_ok int literal_shared row.
Proof.
  unfold row_step, row_ok. case_bool_decide as Hrow.
  - split; [by left | by eexists].
  - destruct st as [[guid_index examples] [[[[[wds lbls] hds] hwds] tags] subs]].
    destruct row as [| word [| label [| head [| head_word [| syn_rel
                      [| pos_tag [| sub_tok [| extra rest]]]]]]]];
      try (split; [by intros [? ?] |
                   by intros [? | (? & ? & ? & ? & ? & ? & ? & ? & _)]]).
    split.
    + intros H. right. exists word, label, head, head_word, syn_rel, pos_tag, sub_tok.
      split; [done |]. apply parse_head_Some.
      destruct (parse_head int literal_shared head); [by eexists | by destruct H].
    + intros [? | (? & ? & ? & ? & ? & ? & ? & [= <- <- <- <- <- <- <-] & H)];
        [done |].
      apply parse_head_Some in H as [ids ->]. by eexists.
Qed.

Lemma read_rows_Some rows st :
  is_Some (read_rows int mode literal_shared st rows) <-> Forall (row_ok int literal_shared) rows.
Proof.
  revert st. induction rows as [| row rows IH]; intros st.
  - split; [constructor | by eexists].
  - cbn [read_rows]. rewrite Forall_cons, <- (row_step_Some st row).
    destruct (row_step int mode literal_shared st row) as [st1 |].
    + cbn [mbind option_bind]. rewrite IH.
      split; [intros ?; split; [by eexists | done] | by intros [_ ?]].
    + split; [by intros [? ?] | by intros [[? ?] _]].
Qed.

(** X14.  [read_examples_from_file] returns exactly when every row after
    the header is the separator row of seven ["_"] cells or has exactly seven
    cells with a head cell that is integers separated by [~], or that is
    ["_"] on an interpreter where the cell is the very object of the literal
    (the code tests [head is not "_"]); any other row, a blank line included,
    makes it raise.  So where the object is not shared and [int("_")]
    raises, as on CPython 3.11, a row with the head cell ["_"] that is not
    the separator row makes the function raise. *)
Theorem read_examples_from_file_returns (rows : list (list string)) :
  (is_Some (read_examples_from_file int mode literal_shared rows)
   <-> Forall (row_ok int literal_shared) (drop 1 rows)) /\
  (literal_shared = false -> int "_" = None ->
   forall row, row ∈ drop 1 rows -> row ≠ empty_row ->
     row !! 2 = Some "_"%string ->
     read_examples_from_file int mode literal_shared rows = None).
Proof.
  assert (Hiff : is_Some (read_examples_from_file int mode literal_shared rows)
                 <-> Forall (row_ok int literal_shared) (drop 1 rows)).
  { unfold read_examples_from_file.
    rewrite <- (read_rows_Some _ (1, [], no_sentence)).
    destruct (read_rows int mode literal_shared _ (drop 1 rows))
      as [[[guid_index examples] [[[[[wds lbls] hds] hwds] tags] subs]] |].
    - cbn [mbind option_bind]. destruct wds; split; by eexists.
    - split; by intros [? ?]. }
  split; [exact Hiff |].
  intros Hshared Hint row Hin Hrow Hhead.
  apply eq_None_not_Some. rewrite Hiff, Forall_forall. intros Hall.
  destruct (Hall row Hin)
    as [? | (? & ? & head & ? & ? & ? & ? & -> & [[Hs _] | Hints])]; [done | |].
  - congruence.
  - cbn in Hhead. injection Hhead as ->. cbn in Hints.
    apply Forall_inv in Hints. rewrite Hint in Hints. by destruct Hints.
Qed.

Lemma row_step_inv st row st' seen :
  read_inv mode st seen ->
  row_step int mode literal_shared st row = Some st' ->
  read_inv mode st' (seen ++ [row]).
Proof.
  destruct st as [[guid_index examples] [[[[[wds lbls] hds] hwds] tags] subs]].
  intros (Hk & Hal & Hguid & (H1 & H2 & H3 & H4 & H5) & Hwords).
  unfold row_step, read_inv. rewrite omap_app. cbn [omap list_omap].
  unfold row_word at 2. case_bool_decide as Hrow.
  - intros [= <-]. rewrite app_nil_r. cbn [end_sentence].
    destruct wds as [| w wds]; cbn [Py.is_empty].
    + done.
    + cbv beta iota zeta delta [no_sentence].
      split; [rewrite length_app; simpl; lia |].
      split; [apply Forall_app; split; [done |]; by repeat constructor |].
      split.
      * intros i ex Hi. apply lookup_app_Some in Hi as [Hi | [Hge Hi]];
          [by apply Hguid |].
        apply list_lookup_singleton_Some in Hi as [Hi <-].
        cbn [example_of guid]. do 3 f_equal. lia.
      * split; [done |]. rewrite fmap_app, concat_app. cbn.
        by rewrite !app_nil_r.
  - destruct row as [| word [| label [| head [| head_word [| syn_rel
                      [| pos_tag [| sub_tok [| extra rest]]]]]]]]; try done.
    destruct (parse_head int literal_shared head) as [ids |]; [| done].
    cbn [mbind option_bind]. intros [= <-]. cbn [lookup list_lookup].
    split; [done |]. split; [done |]. split; [done |].
    split; [rewrite !length_app; simpl; lia |].
    by rewrite (assoc_L (++)), Hwords.
Qed.

Lemma read_rows_inv rows st st' seen :
  read_inv mode st seen ->
  read_rows int mode literal_shared st rows = Some st' ->
  read_inv mode st' (seen ++ rows).
Proof.
  revert st seen. induction rows as [| row rows IH]; intros st seen Hinv.
  - intros [= <-]. by rewrite app_nil_r.
  - cbn [read_rows].
    destruct (row_step int mode literal_shared st row) as [st1 |] eqn:E; [| done].
    cbn [mbind option_bind]. intros Hrest.
    rewrite (cons_middle row seen rows), (assoc_L (++)).
    eapply IH; [| done]. by eapply row_step_inv.
Qed.

(** X15.  The examples [read_examples_from_file] returns: each has at least
    one word and as many labels, head lists, head-word lists, tags and
    subtoken lists as words; the example at position [i] has the guid
    [<mode>-<i+1>]; and their words, taken in order, are the first cells of
    the rows after the header that are not the separator row, none lost and
    none repeated. *)
Theorem read_examples_from_file_examples (rows : list (list string)) examples :
  read_examples_from_file int mode literal_shared rows = Some examples ->
  Forall aligned examples /\
  (forall i ex, examples !! i = Some ex ->
     guid ex = mode +:+ "-" +:+ str (i + 1)) /\
  concat (words <$> examples) = omap row_word (drop 1 rows).
Proof.
  unfold read_examples_from_file.
  destruct (read_rows int mode literal_shared _ (drop 1 rows))
    as [[[guid_index exs] [[[[[wds lbls] hds] hwds] tags] subs]] |] eqn:E;
    [| done].
  cbn [mbind option_bind].
  apply (read_rows_inv _ _ _ []) in E.
  - destruct E as (Hk & Hal & Hguid & (H1 & H2 & H3 & H4 & H5) & Hwords).
    cbn [app] in Hwords.
    destruct wds as [| w wds]; cbn [Py.is_empty]; intros [= <-].
    + rewrite app_nil_r in Hwords. done.
    + split; [apply Forall_app; split; [done |]; by repeat constructor |].
      split.
      * intros i ex Hi. apply lookup_app_Some in Hi as [Hi | [Hge Hi]];
          [by apply Hguid |].
        apply list_lookup_singleton_Some in Hi as [Hi <-].
        cbn [example_of guid]. do 3 f_equal. lia.
      * rewrite fmap_app, concat_app. cbn. by rewrite app_nil_r.
  - cbn. repeat split; try done.
Qed.
End ReadExamples.

Section ReadWitnesses.
Import AbsaUtils AbsaRead.

(** A file of two sentences, "The food" and "Great", read where the
    literal's object is not shared: the head-word cell ["_"] is kept as a
    head word. *)
Example read_examples_from_file_run :
  read_examples_from_file
    (fun h => if String.eqb h "0" then Some 0%Z
              else if String.eqb h "2" then Some 2%Z else None)
    "train" false
    [["TOKEN"; "LABEL"; "HEAD"; "HEAD_WORD"; "DEP_REL"; "POS"; "SUB_TOKENS"];
     ["The"; "O"; "2"; "food"; "det"; "DET"; ""];
     ["food"; "B-ASP"; "0"; "ROOT"; "ROOT"; "NOUN"; "foo ##d"];
     ["_"; "_"; "_"; "_"; "_"; "_"; "_"];
     ["_"; "_"; "_"; "_"; "_"; "_"; "_"];
     ["Great"; "B-OP"; "0~2"; "_"; "_"; "ADJ"; ""]]%string
  = Some [mk_InputExample "train-1" ["The"; "food"] ["O"; "B-ASP"]
            [[2]; [0]]%Z [["food"]; ["ROOT"]] ["DET"; "NOUN"]
            [["The"]; ["foo"; "##d"]];
          mk_InputExample "train-2" ["Great"] ["B-OP"] [[0; 2]]%Z [["_"]]
            ["ADJ"] [["Great"]]]%string.
Proof. vm_compute. reflexivity. Qed.

(** The same word with no head, where the literal's object is shared. *)
Example read_examples_from_file_shared :
  read_examples_from_file
    (fun h => if String.eqb h "0" then Some 0%Z
              else if String.eqb h "2" then Some 2%Z else None)
    "train" true
    [["TOKEN"; "LABEL"; "HEAD"; "HEAD_WORD"; "DEP_REL"; "POS"; "SUB_TOKENS"];
     ["Great"; "B-OP"; "_"; "_"; "_"; "ADJ"; ""]]%string
  = Some [mk_InputExample "train-1" ["Great"] ["B-OP"] [[]] [[]] ["ADJ"]
            [["Great"]]]%string.
Proof. vm_compute. reflexivity. Qed.

(** A blank line makes the function raise. *)
Example read_examples_from_file_blank_line :
  read_examples_from_file (fun _ => Some 0%Z) "train" false
    [["TOKEN"; "LABEL"; "HEAD"; "HEAD_WORD"; "DEP_REL"; "POS"; "SUB_TOKENS"];
     ["The"; "O"; "2"; "food"; "det"; "DET"; ""];
     []]%string
  = None.
Proof. vm_compute. reflexivity. Qed.

(** A concrete instance of X14: a word with no head, on an interpreter that
    does not share the literal's object. *)
Lemma read_examples_from_file_returns_witness :
  read_examples_from_file
    (fun h => if String.eqb h "0" then Some 0%Z
              else if String.eqb h "2" then Some 2%Z else None)
    "train" false
    [["TOKEN"; "LABEL"; "HEAD"; "HEAD_WORD"; "DEP_REL"; "POS"; "SUB_TOKENS"];
     ["Great"; "B-OP"; "_"; "_"; "_"; "ADJ"; ""]]%string
  = None.
Proof.
  apply (proj2 (read_examples_from_file_returns
                  (fun h => if String.eqb h "0" then Some 0%Z
                            else if String.eqb h "2" then Some 2%Z else None)
                  "train" false
                  [["TOKEN"; "LABEL"; "HEAD"; "HEAD_WORD"; "DEP_REL"; "POS";
                    "SUB_TOKENS"];
                   ["Great"; "B-OP"; "_"; "_"; "_"; "ADJ"; ""]]%string)
           eq_refl eq_refl
           ["Great"; "B-OP"; "_"; "_"; "_"; "ADJ"; ""]%string).
  - apply list_elem_of_here.
  - discriminate.
  - reflexivity.
Defined.

(** A concrete instance of X15: the file of two sentences. *)
Lemma read_examples_from_file_examples_witness :
  exists examples,
    read_examples_from_file
      (fun h => if String.eqb h "0" then Some 0%Z
                else if String.eqb h "2" then Some 2%Z else None)
      "train" false
      [["TOKEN"; "LABEL"; "HEAD"; "HEAD_WORD"; "DEP_REL"; "POS"; "SUB_TOKENS"];
       ["The"; "O"; "2"; "food"; "det"; "DET"; ""];
       ["food"; "B-ASP"; "0"; "ROOT"; "ROOT"; "NOUN"; "foo ##d"];
       ["_"; "_"; "_"; "_"; "_"; "_"; "_"];
       ["_"; "_"; "_"; "_"; "_"; "_"; "_"];
       ["Great"; "B-OP"; "0~2"; "_"; "_"; "ADJ"; ""]]%string
    = Some examples /\
    Forall aligned examples /\
    guid <$> examples = ["train-1"; "train-2"]%string /\
    concat (words <$> examples) = ["The"; "food"; "Great"]%string.
Proof.
  destruct (read_examples_from_file
      (fun h => if String.eqb h "0" then Some 0%Z
                else if String.eqb h "2" then Some 2%Z else None)
      "train" false
      [["TOKEN"; "LABEL"; "HEAD"; "HEAD_WORD"; "DEP_REL"; "POS"; "SUB_TOKENS"];
       ["The"; "O"; "2"; "food"; "det"; "DET"; ""];
       ["food"; "B-ASP"; "0"; "ROOT"; "ROOT"; "NOUN"; "foo ##d"];
       ["_"; "_"; "_"; "_"; "_"; "_"; "_"];
       ["_"; "_"; "_"; "_"; "_"; "_"; "_"];
       ["Great"; "B-OP"; "0~2"; "_"; "_"; "ADJ"; ""]]%string)
    as [examples |] eqn:E.
  - exists examples. split; [reflexivity |].
    destruct (read_examples_from_file_examples _ _ _ _ _ E) as (Hal & _ & Hw).
    split; [exact Hal |]. split; [| exact Hw].
    vm_compute in E. by injection E as <-.
  - vm_compute in E. discriminate.
Defined.
End ReadWitnesses.

(** ** load_config: dataset abbreviations, splits and relation labels *)

Section Config.
Import AbsaConfig.

Lemma starts_with_app p s : starts_with p (p +:+ s) = true.
Proof.
  induction p as [| c p IH]; [done |].
  change (String c p +:+ s) with (String c (p +:+ s)).
  cbn [starts_with]. by rewrite Ascii.eqb_refl, IH.
Qed.

Lemma contains_app sub s1 s2 : contains sub (s1 +:+ sub +:+ s2) = true.
Proof.
  induction s1 as [| c s1 IH].
  - change ("" +:+ sub +:+ s2)%string with (sub +:+ s2).
    destruct (sub +:+ s2) eqn:E; cbn [contains]; rewrite <- E;
      by rewrite starts_with_app.
  - change (String c s1 +:+ sub +:+ s2) with (String c (s1 +:+ sub +:+ s2)).
    cbn [contains]. rewrite IH. apply orb_true_r.
Qed.

Lemma ds_Some c name :
  ds c = Some name ->
  name = "laptops"%string \/ name = "restaurants"%string \/ name = "device"%string.
Proof.
  unfold ds. repeat (destruct (Ascii.eqb c _)); intros [= <-]; tauto.
Qed.

(** X16.  An item of [cfg.data] shorter than three characters is expanded
    exactly when it consists of two letters among [l], [r] and [d] (any
    other short item raises IndexError or KeyError); the expansion is
    [<source>_to_<target>], a cross-domain dataset, to which
    [cfg.splits] gives the configured splits.  A longer item is kept as it
    is, and a dataset whose name does not contain ["_to_"] gets the splits
    1 to 4 whatever the configuration says. *)
Theorem expand_dataset_spec (d : string) :
  (String.length d < 3 ->
   (is_Some (expand_dataset d)
    <-> exists c0 c1, d = String c0 (String c1 "") /\
          is_Some (ds c0) /\ is_Some (ds c1)) /\
   (forall r, expand_dataset d = Some r ->
      exists c0 c1 source target,
        d = String c0 (String c1 "") /\
        ds c0 = Some source /\ ds c1 = Some target /\
        r = (source +:+ "_to_" +:+ target) /\
        is_cross_domain r = true /\
        forall splits, data_to_splits splits r = configured_splits splits)) /\
  (3 <= String.length d -> expand_dataset d = Some d) /\
  (forall splits dataset,
      is_cross_domain dataset = false ->
      data_to_splits splits dataset = [1; 2; 3; 4]%Z).
Proof.
  split; [| split].
  - intros Hlen. unfold expand_dataset.
    destruct (Nat.ltb_spec (String.length d) 3) as [_ | ?]; [| lia].
    destruct d as [| c0 [| c1 [| c2 d]]]; cbn [String.get mbind option_bind].
    + split; [| by intros r [=]].
      split; [by intros [? ?] | by intros (? & ? & [=] & _)].
    + destruct (ds c0) as [source |]; cbn [mbind option_bind].
      * split; [| by intros r [=]].
        split; [by intros [? ?] | by intros (? & ? & [=] & _)].
      * split; [| by intros r [=]].
        split; [by intros [? ?] | by intros (? & ? & [=] & _)].
    + destruct (ds c0) as [source |] eqn:E0; cbn [mbind option_bind];
        [destruct (ds c1) as [target |] eqn:E1; cbn [mbind option_bind] |].
      * split.
        -- split; [| by eexists]. intros _. exists c0, c1.
           rewrite E0, E1. split; [done |]. split; by eexists.
        -- intros r [= <-]. exists c0, c1, source, target.
           split; [done |]. split; [done |]. split; [done |]. split; [done |].
           assert (Hc : is_cross_domain (source +:+ "_to_" +:+ target) = true)
             by apply contains_app.
           split; [done |]. intros splits. unfold data_to_splits. by rewrite Hc.
      * split; [| by intros r [=]]. split; [by intros [? ?] |].
        intros (? & ? & [= <- <-] & _ & [? ?]). congruence.
      * split; [| by intros r [=]]. split; [by intros [? ?] |].
        intros (? & ? & [= <- <-] & [? ?] & _). congruence.
    + cbn in Hlen. lia.
  - intros Hlen. unfold expand_dataset.
    destruct (Nat.ltb_spec (String.length d) 3) as [? | _]; [lia | done].
  - intros splits dataset Hin. unfold data_to_splits. by rewrite Hin.
Qed.

(** A concrete instance of X16: the abbreviation [lr]. *)
Lemma expand_dataset_spec_witness :
  expand_dataset "lr" = Some "laptops_to_restaurants"%string /\
  is_cross_domain "laptops_to_restaurants" = true /\
  data_to_splits (SplitCount 3) "laptops_to_restaurants" = [1; 2; 3]%Z /\
  data_to_splits (SplitCount 3) "restaurants" = [1; 2; 3; 4]%Z.
Proof.
  destruct (expand_dataset_spec "lr") as (Hshort & _ & Hin).
  destruct (Hshort ltac:(cbn; lia)) as [_ Hexp].
  destruct (Hexp _ eq_refl) as (c0 & c1 & source & target & [= <- <-] &
                                [= <-] & [= <-] & _ & Hc & Hs).
  split; [reflexivity |]. split; [exact Hc |].
  split; [exact (Hs (SplitCount 3)) | exact (Hin (SplitCount 3) "restaurants"%string eq_refl)].
Defined.

Lemma DEP_REL_MAP_snoc (rels : list string) rel :
  foldl (fun m p => <[p.2 := (Z.of_nat p.1 + 1)%Z]> m) ∅ (imap pair (rels ++ [rel]))
  = <[rel := (Z.of_nat (length rels) + 1)%Z]>
      (foldl (fun m p => <[p.2 := (Z.of_nat p.1 + 1)%Z]> m) (∅ : gmap string Z)
         (imap pair rels)).
Proof. rewrite imap_app, foldl_app. simpl. by rewrite Nat.add_0_r. Qed.

Lemma DEP_REL_MAP_lookup (rels : list string) rel v :
  foldl (fun m p => <[p.2 := (Z.of_nat p.1 + 1)%Z]> m) (∅ : gmap string Z)
    (imap pair rels) !! rel = Some v ->
  exists i, rels !! i = Some rel /\ v = (Z.of_nat i + 1)%Z.
Proof.
  revert v. induction rels as [| r rels IH] using rev_ind; intros v.
  - simpl. by rewrite lookup_empty.
  - rewrite DEP_REL_MAP_snoc. destruct (decide (r = rel)) as [-> | Hne].
    + rewrite lookup_insert_eq. intros [= <-]. exists (length rels).
      split; [| done]. by rewrite lookup_app_r, Nat.sub_diag by lia.
    + rewrite lookup_insert_ne by done. intros H.
      destruct (IH _ H) as (i & Hi & ->). exists i. split; [| done].
      by apply lookup_app_l_Some.
Qed.

Lemma DEP_REL_MAP_dom (rels : list string) rel :
  is_Some (foldl (fun m p => <[p.2 := (Z.of_nat p.1 + 1)%Z]> m)
             (∅ : gmap string Z) (imap pair rels) !! rel)
  <-> rel ∈ rels.
Proof.
  induction rels as [| r rels IH] using rev_ind.
  - simpl. rewrite lookup_empty, elem_of_nil. split; [by intros [? ?] | done].
  - rewrite DEP_REL_MAP_snoc, elem_of_app, list_elem_of_singleton, <- IH.
    destruct (decide (r = rel)) as [-> | Hne].
    + rewrite lookup_insert_eq. split; [by right | by eexists].
    + rewrite lookup_insert_ne by done. split; [by left |].
      intros [H | H]; [done | congruence].
Qed.

(** X17.  [cfg.DEP_REL_MAP] has an entry for exactly the stripped lines of
    the relations file, and every label in it is the position of an
    occurrence of the relation plus one: it lies between 1 and
    [cfg.NUM_REL_LABELS - 1], so that 0 is no relation's label. *)
Theorem DEP_REL_MAP_labels (lines : list string) :
  (forall rel, is_Some (DEP_REL_MAP lines !! rel) <-> rel ∈ dep_relations lines) /\
  (forall rel v, DEP_REL_MAP lines !! rel = Some v ->
     (exists i, dep_relations lines !! i = Some rel /\ v = (Z.of_nat i + 1)%Z) /\
     (1 <= v < NUM_REL_LABELS lines)%Z).
Proof.
  split; [intros rel; apply DEP_REL_MAP_dom |].
  intros rel v H. unfold DEP_REL_MAP in H.
  destruct (DEP_REL_MAP_lookup _ _ _ H) as (i & Hi & ->).
  split; [by exists i |].
  apply lookup_lt_Some in Hi. unfold NUM_REL_LABELS. lia.
Qed.

(** A concrete instance of X17: three relations, one with a trailing
    space. *)
Lemma DEP_REL_MAP_labels_witness :
  (exists i, dep_relations ["nsubj"; "dobj "; "amod"]%string !! i
             = Some "dobj"%string /\ 2%Z = (Z.of_nat i + 1)%Z) /\
  (1 <= 2 < NUM_REL_LABELS ["nsubj"; "dobj "; "amod"]%string)%Z.
Proof.
  exact (proj2 (DEP_REL_MAP_labels ["nsubj"; "dobj "; "amod"]%string)
           "dobj"%string 2%Z eq_refl).
Defined.
End Config.

(** ** Customized_Reviews: which reviews reach the model *)

Section ReviewsProcess.
Import Customized_Reviews.
Variable normalize : string -> string.
Variable float : string -> option spec_float.

Lemma review_to_sentiment_Some row :
  is_Some (Sentiment.review_to_sentiment normalize float row)
  <-> row_parses float row.
Proof.
  unfold Sentiment.review_to_sentiment, row_parses.
  destruct (row !! 1) as [text |]; cbn [mbind option_bind].
  - destruct (row !! 0) as [score_text |]; cbn [mbind option_bind].
    + destruct (float score_text) as [score |] eqn:E; cbn [mbind option_bind].
      * split; [intros _; by exists score_text, text, score |].
        intros _. destruct (SFltb _ _); [by eexists |].
        destruct (SFltb _ _); by eexists.
      * split; [by intros [? ?] |].
        intros (? & ? & ? & [= <-] & _ & ?). congruence.
    + split; [by intros [? ?] | by intros (? & ? & ? & [=] & _)].
  - split; [by intros [? ?] | by intros (? & ? & ? & _ & [=] & _)].
Qed.

(** One row of the data frame: it is kept by the filter of [process]
    exactly when its score is above or below zero. *)
Lemma review_row row sent :
  Sentiment.review_to_sentiment normalize float row = Some sent ->
  (polar sent <-> is_Some (polar_text normalize float row)) /\
  (polar sent -> sent !! 1 = polar_text normalize float row).
Proof.
  unfold Sentiment.review_to_sentiment, polar_text, polar.
  destruct (row !! 1) as [text |]; [| done]. cbn [mbind option_bind].
  destruct (row !! 0) as [score_text |]; [| done]. cbn [mbind option_bind].
  destruct (float score_text) as [score |]; [| done]. cbn [mbind option_bind].
  destruct (SFltb Sentiment.zero score); cbn [orb].
  - intros [= <-]. cbn. split; [| done]. split; [by eexists | by left].
  - destruct (SFltb score Sentiment.zero).
    + intros [= <-]. cbn. split; [| done]. split; [by eexists | by right].
    + intros [= <-]. cbn. split.
      * split; [by intros [[=] | [=]] | by intros [? ?]].
      * by intros [[=] | [=]].
Qed.

(** X18.  The constructor of [Customized_Reviews] succeeds exactly when every
    CSV row has a text cell and a score cell that [float] parses.  After
    [process] without balancing, the data frame holds only positive and
    negative rows, and its texts are the normalized texts of the CSV rows
    whose score is above or below zero, in file order: reviews with a score
    of zero or NaN are dropped. *)
Theorem process_keeps_polar_reviews balance (rows : list (list string)) :
  (is_Some (init normalize float rows) <-> Forall (row_parses float) rows) /\
  (forall amazon,
      init normalize float rows = Some amazon ->
      Forall polar (process balance false amazon) /\
      clean_text (process balance false amazon)
      = omap (polar_text normalize float) rows).
Proof.
  unfold init, process. split.
  - rewrite mapM_is_Some. apply Forall_proper; [| done].
    intros row. apply review_to_sentiment_Some.
  - intros amazon Hinit. split.
    { apply Forall_forall. intros row Hin.
      by apply list_elem_of_filter in Hin as [? _]. }
    apply mapM_Some in Hinit.
    induction Hinit as [| row sent rows amazon Hrow _ IH]; [done |].
    destruct (review_row _ _ Hrow) as [Hiff Htext].
    rewrite filter_cons. cbn [omap list_omap]. unfold clean_text in *.
    destruct (decide (polar sent)) as [Hp | Hn].
    + cbn [omap list_omap]. rewrite (Htext Hp).
      destruct (polar_text normalize float row) as [t |].
      * by rewrite IH.
      * apply Hiff in Hp. by destruct Hp.
    + destruct (polar_text normalize float row) as [t |] eqn:E; [| done].
      exfalso. apply Hn, Hiff. by eexists.
Qed.
End ReviewsProcess.

Section ReviewsWitness.
Import Customized_Reviews.

(** A concrete instance of X18: a positive, a zero and a negative score. *)
Lemma process_keeps_polar_reviews_witness :
  exists amazon,
    init (fun text => text)
      (fun s => if String.eqb s "2" then Some (S754_finite false 4503599627370496 (-51))
                else if String.eqb s "-2"
                     then Some (S754_finite true 4503599627370496 (-51))
                     else Some (S754_zero false))
      [["2"; "good"]; ["0"; "fine"]; ["-2"; "bad"]]%string
    = Some amazon /\
    clean_text (process (fun rows => rows) false amazon) = ["good"; "bad"]%string.
Proof.
  destruct (init (fun text => text)
      (fun s => if String.eqb s "2" then Some (S754_finite false 4503599627370496 (-51))
                else if String.eqb s "-2"
                     then Some (S754_finite true 4503599627370496 (-51))
                     else Some (S754_zero false))
      [["2"; "good"]; ["0"; "fine"]; ["-2"; "bad"]]%string)
    as [amazon |] eqn:E.
  - exists amazon. split; [reflexivity |].
    exact (proj2 (proj2 (process_keeps_polar_reviews _ _ (fun rows => rows) _)
                    amazon E)).
  - vm_compute in E. discriminate.
Defined.
End ReviewsWitness.

(** ** detailed_metrics: what is counted *)

Section MetricsCounts.
Import AbsaMetrics.

Lemma elem_of_spans type_name entities s :
  s ∈ spans type_name entities <-> (type_name, s.1, s.2) ∈ entities.
Proof.
  unfold spans. rewrite elem_of_map. split.
  - intros ([[t a] b] & -> & Hin). apply elem_of_filter in Hin as [Ht Hin].
    cbn in *. by subst.
  - intros Hin. exists (type_name, s.1, s.2). split; [by destruct s |].
    by apply elem_of_filter.
Qed.

(** The dictionary built from a set of entities has, for each type with an
    entity, the set of the spans of that type, and no other key. *)
Lemma by_type_lookup entities type_name :
  by_type entities !! type_name
  = if decide (spans type_name entities = ∅) then None
    else Some (spans type_name entities).
Proof.
  unfold by_type. revert type_name.
  pose (P := fun (d : gmap string (gset (Z * Z))) (X : gset entity) =>
               forall t, d !! t = if decide (spans t X = ∅) then None
                                  else Some (spans t X)).
  apply (set_fold_ind_L P); unfold P; clear P.
  - intros t. rewrite lookup_empty. rewrite decide_True; [done |].
    apply set_eq. intros s. rewrite elem_of_spans.
    by rewrite !elem_of_empty.
  - intros e X d He IH t. unfold add_entity.
    destruct e as [[te a] b]. cbn [fst snd].
    destruct (decide (te = t)) as [-> | Hne].
    + rewrite lookup_insert_eq, IH.
      assert (Hsp : spans t ({[(t, a, b)]} ∪ X) = spans t X ∪ {[(a, b)]}).
      { apply set_eq. intros [a' b']. rewrite elem_of_union, !elem_of_spans.
        cbn [fst snd]. rewrite elem_of_union, !elem_of_singleton.
        split.
        - intros [[= -> ->] | H]; [by right | by left].
        - intros [H | [= -> ->]]; [by right | by left]. }
      rewrite Hsp. rewrite (decide_False (P := spans t X ∪ {[(a, b)]} = ∅)).
      * by destruct (decide (spans t X = ∅)) as [-> | ?].
      * intros Hempty. apply (not_elem_of_empty (C := gset (Z * Z)) (a, b)).
        rewrite <- Hempty. apply elem_of_union_r. by apply elem_of_singleton.
    + rewrite lookup_insert_ne, IH by done.
      assert (Hsp : spans t ({[(te, a, b)]} ∪ X) = spans t X).
      { apply set_eq. intros [a' b']. rewrite !elem_of_spans.
        cbn [fst snd]. rewrite elem_of_union, elem_of_singleton.
        split; [| by right]. intros [[= ? ? ?] | H]; [congruence | done]. }
      by rewrite Hsp.
Qed.

(** X20.  [detailed_metrics] computes metrics for exactly the label types
    that have an entity in the ground truth: a type that occurs only among
    the predicted entities gets no metric and no weight.  For such a type
    [nb_true], [nb_pred] and [nb_correct] are the numbers of distinct true
    spans, of distinct predicted spans and of spans in both; so [nb_true]
    is at least 1 (the guard [if nb_true > 0] never fails) and [nb_correct]
    is at most [nb_pred] and at most [nb_true]. *)
Theorem counts_spec (true_list pred_list : list entity) (type_name : string) :
  (is_Some (counts true_list pred_list !! type_name)
   <-> exists first last, (type_name, first, last) ∈ true_list) /\
  (forall nb_correct nb_pred nb_true,
      counts true_list pred_list !! type_name
      = Some (nb_correct, nb_pred, nb_true) ->
      nb_true = size (spans type_name (list_to_set true_list)) /\
      nb_pred = size (spans type_name (list_to_set pred_list)) /\
      nb_correct = size (spans type_name (list_to_set true_list)
                         ∩ spans type_name (list_to_set pred_list)) /\
      1 <= nb_true /\ nb_correct <= nb_pred /\ nb_correct <= nb_true).
Proof.
  unfold counts. rewrite map_lookup_imap, !by_type_lookup.
  set (T := spans type_name (list_to_set true_list)).
  set (P := spans type_name (list_to_set pred_list)).
  assert (HP : default ∅ (if decide (P = ∅) then None else Some P) = P).
  { by destruct (decide (P = ∅)) as [-> | ?]. }
  split.
  - destruct (decide (T = ∅)) as [HT | HT]; cbn [mbind option_bind].
    + split; [by intros [? ?] |]. intros (a & b & Hin). exfalso.
      assert (Hab : (a, b) ∈ T).
      { apply elem_of_spans. cbn. by apply elem_of_list_to_set. }
      rewrite HT in Hab. by apply elem_of_empty in Hab.
    + split; [| by eexists]. intros _.
      apply set_choose_L in HT as [[a b] Hab].
      apply elem_of_spans in Hab. cbn in Hab.
      apply elem_of_list_to_set in Hab. by exists a, b.
  - intros c p n. destruct (decide (T = ∅)) as [HT | HT];
      cbn [mbind option_bind]; [done |].
    rewrite HP. intros [= <- <- <-].
    split; [done |]. split; [done |]. split; [done |]. split.
    + destruct (decide (size T = 0)) as [H0 | ?]; [| lia].
      apply size_empty_iff, leibniz_equiv in H0. done.
    + split; apply subseteq_size;
        [apply intersection_subseteq_r | apply intersection_subseteq_l].
Qed.

(** A concrete instance of X20: two true aspects, one of them predicted,
    and a predicted opinion that is in no ground truth. *)
Lemma counts_spec_witness :
  counts [("ASP", 0, 1); ("ASP", 4, 4)]%Z [("ASP", 4, 4); ("OP", 2, 2)]%Z
    !! "OP"%string = None /\
  counts [("ASP", 0, 1); ("ASP", 4, 4)]%Z [("ASP", 4, 4); ("OP", 2, 2)]%Z
    !! "ASP"%string = Some (1, 1, 2) /\
  2 = size (spans "ASP" (list_to_set [("ASP", 0, 1); ("ASP", 4, 4)]%Z)).
Proof.
  destruct (counts_spec [("ASP", 0, 1); ("ASP", 4, 4)]%Z
              [("ASP", 4, 4); ("OP", 2, 2)]%Z "OP"%string) as [Hiff _].
  destruct (counts_spec [("ASP", 0, 1); ("ASP", 4, 4)]%Z
              [("ASP", 4, 4); ("OP", 2, 2)]%Z "ASP"%string) as [_ Hc].
  assert (E : counts [("ASP", 0, 1); ("ASP", 4, 4)]%Z
                [("ASP", 4, 4); ("OP", 2, 2)]%Z !! "ASP"%string
              = Some (1, 1, 2)) by (vm_compute; reflexivity).
  split; [| split; [exact E | exact (proj1 (Hc 1 1 2 E))]].
  apply eq_None_not_Some. intros H. apply Hiff in H as (a & b & Hin).
  apply elem_of_cons in Hin as [[=] | Hin].
  apply elem_of_cons in Hin as [[=] | Hin].
  by apply elem_of_nil in Hin.
Defined.
End MetricsCounts.
